(** * irlcord: command parsing, event lifecycle and group policy

    A shallow embedding of the command handlers of the irlcord bot
    ([irlcord/cogs/events.py], [irlcord/cogs/groups.py]), of the
    repository layer they call ([irlcord/utils/db.py]) and of the argument
    parser ([irlcord/utils/discord_helpers.py]), followed by the
    properties of the specification that concern them.

    Conventions of the embedding.
    - A Python [str] is a [string]; a character is identified with its
      code point, so the embedding covers the strings whose code points
      are below 256.  Character classes ([\w], [\s], [\d], [str.lower])
      follow Python's Unicode tables on that range.
    - A [dict] from [str] to [str] is a [gmap string string].
    - The [db] attribute the handlers call is an object of the class
      [Database] of [irlcord/utils/db.py].  A table of the SQLite store
      is the list of its rows; the order of the list is the order in
      which the engine returns the rows.  The column [date_time] of an
      event holds the ISO text of a date-time; the embedding keeps the
      date-time itself.
    - A handler is a function from the invocation context, the oracle
      values of its environment (wall clock, chat platform) and the
      database to an [outcome] and the database it leaves behind.
      Storage errors and failures of the chat platform other than the
      ones the handlers test for are outside the embedding. *)

From Stdlib Require Import ZArith NArith Ascii String List Bool Lia.
From stdpp Require Import base option list strings gmap fin_maps.

Local Open Scope string_scope.
Local Open Scope Z_scope.
Local Open Scope list_scope.

(** ** Characters and strings, as Python sees them *)

Module Py.

Definition code (c : ascii) : N := N_of_ascii c.

Definition between (lo hi : N) (c : ascii) : bool :=
  ((lo <=? code c) && (code c <=? hi))%N.

Definition is_code (n : N) (c : ascii) : bool := (code c =? n)%N.

(** [str.isspace], which is also [\s] of [re] on [str] patterns. *)
Definition is_space (c : ascii) : bool :=
  between 9 13 c || between 28 32 c || is_code 133 c || is_code 160 c.

(** [\d] of [re]: the decimal digits. *)
Definition is_digit (c : ascii) : bool := between 48 57 c.

(** [\w] of [re]: alphanumeric characters and the underscore. *)
Definition is_word (c : ascii) : bool :=
  is_digit c || between 65 90 c || between 97 122 c || is_code 95 c
  || is_code 170 c || is_code 178 c || is_code 179 c || is_code 181 c
  || is_code 185 c || is_code 186 c || between 188 190 c
  || between 192 214 c || between 216 246 c || between 248 255 c.

Definition dquote : ascii := ascii_of_N 34.
Definition is_dquote (c : ascii) : bool := is_code 34 c.
Definition is_equals (c : ascii) : bool := is_code 61 c.

Definition lower_char (c : ascii) : ascii :=
  if between 65 90 c || (between 192 222 c && negb (is_code 215 c))
  then ascii_of_N (code c + 32) else c.

(** [str.lower] *)
Fixpoint lower (s : string) : string :=
  match s with
  | EmptyString => EmptyString
  | String c s' => String (lower_char c) (lower s')
  end.

Fixpoint take_while (p : ascii -> bool) (s : string) : string :=
  match s with
  | EmptyString => EmptyString
  | String c s' => if p c then String c (take_while p s') else EmptyString
  end.

Fixpoint drop_while (p : ascii -> bool) (s : string) : string :=
  match s with
  | EmptyString => EmptyString
  | String c s' => if p c then drop_while p s' else s
  end.

Definition is_empty (s : string) : bool :=
  match s with EmptyString => true | _ => false end.

(** Truth value of a [str]: non-empty. *)
Definition truthy (s : string) : bool := negb (is_empty s).

(** [content.split(maxsplit=1)]: the list of at most two parts.  Leading
    white space is skipped, the first part is the first run of
    non-space characters, and the second part is everything after the
    white space that follows it, trailing white space included; a part
    is never empty. *)
Definition split_maxsplit1 (content : string) : list string :=
  let s := drop_while is_space content in
  if is_empty s then []
  else
    let first := take_while (fun c => negb (is_space c)) s in
    let rest := drop_while is_space (drop_while (fun c => negb (is_space c)) s) in
    if is_empty rest then [first] else [first; rest].

(** [s.startswith(p)] *)
Fixpoint startswith (p s : string) : bool :=
  match p, s with
  | EmptyString, _ => true
  | String a p', String b s' => Ascii.eqb a b && startswith p' s'
  | String _ _, EmptyString => false
  end.

(** [s.replace(old, empty)] for the empty replacement: every occurrence
    of [old], found from left to right without overlap, is deleted.
    [skip] counts the characters of an occurrence that remain to be
    dropped. *)
Fixpoint delete_from (old : string) (skip : nat) (s : string) : string :=
  match s with
  | EmptyString => EmptyString
  | String c s' =>
      match skip with
      | S n => delete_from old n s'
      | O =>
          if startswith old s
          then delete_from old (String.length old - 1) s'
          else String c (delete_from old O s')
      end
  end.

Definition replace_with_empty (old s : string) : string :=
  if is_empty old then s else delete_from old O s.

(** Value of a decimal digit. *)
Definition digit_value (c : ascii) : Z := Z.of_N (code c) - 48.

(** The white space [int] ignores around the digits: the white space of
    C for the characters below 128, that is [str.isspace] less the four
    separators 28 to 31, and the other spaces of [str.isspace]. *)
Definition is_int_space (c : ascii) : bool :=
  between 9 13 c || is_code 32 c || is_code 133 c || is_code 160 c.

(** Removal of the characters of a class at the end of a string. *)
Fixpoint rstrip (p : ascii -> bool) (s : string) : string :=
  match s with
  | EmptyString => EmptyString
  | String c s' =>
      let t := rstrip p s' in
      if is_empty t && p c then EmptyString else String c t
  end.

(** Removal at both ends. *)
Definition strip (p : ascii -> bool) (s : string) : string :=
  rstrip p (drop_while p s).

(** The digits of an integer literal: decimal digits, with single
    underscores allowed between two digits.  [after_digit] tells whether
    the previous character was a digit. *)
Fixpoint int_digits (acc : Z) (after_digit : bool) (s : string) : option Z :=
  match s with
  | EmptyString => if after_digit then Some acc else None
  | String c s' =>
      if is_digit c then int_digits (10 * acc + digit_value c) true s'
      else if is_code 95 c && after_digit then
        match s' with
        | EmptyString => None
        | String d _ => if is_digit d then int_digits acc false s' else None
        end
      else None
  end.

(** [int(s)] on a [str]: [None] stands for [ValueError].  Surrounding
    white space is ignored and one sign may precede the digits.  (The
    interpreter's limit on the number of digits is not modelled.) *)
Definition int (s : string) : option Z :=
  match strip is_int_space s with
  | String c r =>
      if is_code 43 c then int_digits 0 false r
      else if is_code 45 c then Z.opp <$> int_digits 0 false r
      else int_digits 0 false (String c r)
  | EmptyString => None
  end.

(** [re.findall] of the pattern for one or more digits, reduced to what
    the caller uses: the first match, if there is one. *)
Definition first_digit_run (s : string) : option string :=
  let t := drop_while (fun c => negb (is_digit c)) s in
  if is_empty t then None else Some (take_while is_digit t).

End Py.

(** ** The argument parser ([discord_helpers.parse_command_args]) *)

Module Parser.
Import Py.

(** A match of a pattern with two groups: the groups and the length of
    the matched text. *)
Definition hit : Type := string * string * nat.

(** The quoted pattern tried at the start of [s]: a group of one or more
    word characters, an equals sign, a double quote, a group of any
    number of characters other than the double quote, a double quote.  Both
    repetitions are greedy and what follows each of them is a character
    outside its class, so giving characters back never helps: the match
    exists exactly when the longest runs are followed by the literals. *)
Definition quoted_at (s : string) : option hit :=
  let k := take_while is_word s in
  if is_empty k then None
  else
    match drop_while is_word s with
    | String e (String q r) =>
        if is_equals e && is_dquote q then
          let v := take_while (fun c => negb (is_dquote c)) r in
          match drop_while (fun c => negb (is_dquote c)) r with
          | String _ _ => Some (k, v, (String.length k + 2 + String.length v + 1)%nat)
          | EmptyString => None
          end
        else None
    | _ => None
    end.

(** The unquoted pattern tried at the start of [s]: a group of one or
    more word characters, an equals sign, a group of one or more
    characters that are not white space. *)
Definition unquoted_at (s : string) : option hit :=
  let k := take_while is_word s in
  if is_empty k then None
  else
    match drop_while is_word s with
    | String e r =>
        if is_equals e then
          let v := take_while (fun c => negb (is_space c)) r in
          if is_empty v then None
          else Some (k, v, (String.length k + 1 + String.length v)%nat)
        else None
    | EmptyString => None
    end.

(** [pattern.finditer(s)]: the matches from left to right, each search
    resuming where the previous match ended.  [skip] counts the
    characters of the last match still to be passed over. *)
Fixpoint finditer_from (at_ : string -> option hit) (skip : nat) (s : string)
  : list (string * string) :=
  match s with
  | EmptyString => []
  | String c s' =>
      match skip with
      | S n => finditer_from at_ n s'
      | O =>
          match at_ (String c s') with
          | Some (k, v, len) => (k, v) :: finditer_from at_ (len - 1) s'
          | None => finditer_from at_ O s'
          end
      end
  end.

Definition finditer (at_ : string -> option hit) (s : string) : list (string * string) :=
  finditer_from at_ O s.

(** [match.group(0)] of a match of the quoted pattern. *)
Definition group0 (k v : string) : string :=
  k +:+ String "=" (String dquote (v +:+ String dquote EmptyString)).

(** The body of the first loop: record the pair, delete the matched text
    from the working copy of the argument text. *)
Definition quoted_step (st : gmap string string * string) (m : string * string)
  : gmap string string * string :=
  (<[lower m.1 := m.2]> st.1, replace_with_empty (group0 m.1 m.2) st.2).

(** The body of the second loop. *)
Definition unquoted_step (args : gmap string string) (m : string * string)
  : gmap string string :=
  <[lower m.1 := m.2]> args.

(** State after the first loop: the dictionary and the text left over.
    The iterator runs over the text as it was when the loop started. *)
Definition quoted_pass (args_text : string) : gmap string string * string :=
  fold_left quoted_step (finditer quoted_at args_text) (∅, args_text).

Definition parse_args_text (args_text : string) : gmap string string :=
  let st := quoted_pass args_text in
  fold_left unquoted_step (finditer unquoted_at st.2) st.1.

Definition parse_command_args (content : string) : gmap string string :=
  match split_maxsplit1 content with
  | [_; args_text] => parse_args_text args_text
  | _ => ∅
  end.

End Parser.

(** ** Naive date-times ([datetime.datetime]) *)

Module Datetime.
Import Py.

Record datetime : Type := mk_datetime {
  year : Z; month : Z; day : Z;
  hour : Z; minute : Z; second : Z; microsecond : Z
}.

#[global] Instance datetime_eq_dec : EqDecision datetime.
Proof. solve_decision. Defined.

Definition lex (c1 c2 : comparison) : comparison :=
  match c1 with Eq => c2 | _ => c1 end.

(** Comparison of naive date-times: field by field, most significant
    first. *)
Definition compare (a b : datetime) : comparison :=
  lex (year a ?= year b)
  (lex (month a ?= month b)
  (lex (day a ?= day b)
  (lex (hour a ?= hour b)
  (lex (minute a ?= minute b)
  (lex (second a ?= second b)
       (microsecond a ?= microsecond b)))))).

(** [a < b] *)
Definition ltb (a b : datetime) : bool :=
  match compare a b with Lt => true | _ => false end.

(** [d.replace(year=y, month=m, day=dd)] *)
Definition replace_date (d : datetime) (y m dd : Z) : datetime :=
  {| year := y; month := m; day := dd;
     hour := hour d; minute := minute d;
     second := second d; microsecond := microsecond d |}.

(** [d.replace(hour=h, minute=mi)] *)
Definition replace_time (d : datetime) (h mi : Z) : datetime :=
  {| year := year d; month := month d; day := day d;
     hour := h; minute := mi;
     second := second d; microsecond := microsecond d |}.

Definition is_leap (y : Z) : bool :=
  ((y mod 4 =? 0) && negb (y mod 100 =? 0)) || (y mod 400 =? 0).

Definition days_in_month (y m : Z) : Z :=
  if m =? 2 then (if is_leap y then 29 else 28)
  else if (m =? 4) || (m =? 6) || (m =? 9) || (m =? 11) then 30
  else 31.

(** The date is one the [datetime] constructor accepts. *)
Definition valid_date (y m d : Z) : bool :=
  (1 <=? y) && (y <=? 9999) && (1 <=? m) && (m <=? 12)
  && (1 <=? d) && (d <=? days_in_month y m).

(** *** [strptime]

    [strptime] turns the format into a regular expression and takes the
    first way in which a prefix of the input matches it; the parse fails
    when that prefix is not the whole input.  A matcher returns the ways
    of matching at the start of the input in the order the regular
    expression tries them, as pairs of a value and the remaining input. *)

Definition matcher (A : Type) : Type := string -> list (A * string).

Definition one (p : ascii -> bool) : matcher Z := fun s =>
  match s with
  | String a r => if p a then [(digit_value a, r)] else []
  | EmptyString => []
  end.

Definition two (p1 p2 : ascii -> bool) : matcher Z := fun s =>
  match s with
  | String a (String b r) =>
      if p1 a && p2 b then [(10 * digit_value a + digit_value b, r)] else []
  | _ => []
  end.

Definition alt {A} (p q : matcher A) : matcher A := fun s => p s ++ q s.

Definition lit (n : N) : matcher unit := fun s =>
  match s with
  | String a r => if is_code n a then [(tt, r)] else []
  | EmptyString => []
  end.

(** Ways of matching any number of white-space characters, longest first. *)
Fixpoint spaces_star (s : string) : list (unit * string) :=
  match s with
  | String c r => if is_space c then spaces_star r ++ [(tt, s)] else [(tt, s)]
  | EmptyString => [(tt, s)]
  end.

(** One or more white-space characters (a blank in the format). *)
Definition spaces (s : string) : list (unit * string) :=
  match s with
  | String c r => if is_space c then spaces_star r else []
  | EmptyString => []
  end.

(** Directive [%Y]: four digits. *)
Definition re_Y : matcher Z := fun s =>
  '(a, s1) ← two is_digit is_digit s;
  '(b, s2) ← two is_digit is_digit s1;
  [(100 * a + b, s2)].

(** Directive [%m]: [1[0-2]|0[1-9]|[1-9]]. *)
Definition re_m : matcher Z :=
  alt (two (is_code 49) (between 48 50))
 (alt (two (is_code 48) (between 49 57))
      (one (between 49 57))).

(** Directive [%d]: [3[0-1]|[1-2]\d|0[1-9]|[1-9]| [1-9]]. *)
Definition re_d : matcher Z :=
  alt (two (is_code 51) (between 48 49))
 (alt (two (between 49 50) is_digit)
 (alt (two (is_code 48) (between 49 57))
 (alt (one (between 49 57))
      (fun s => '(_, s1) ← lit 32 s; one (between 49 57) s1)))).

(** Directive [%H]: [2[0-3]|[0-1]\d|\d]. *)
Definition re_H : matcher Z :=
  alt (two (is_code 50) (between 48 51))
 (alt (two (between 48 49) is_digit)
      (one is_digit)).

(** Directive [%M]: [[0-5]\d|\d]. *)
Definition re_M : matcher Z :=
  alt (two (between 48 53) is_digit) (one is_digit).

Definition re_date : matcher (Z * Z * Z) := fun s =>
  '(y, s1) ← re_Y s;
  '(_, s2) ← lit 45 s1;
  '(m, s3) ← re_m s2;
  '(_, s4) ← lit 45 s3;
  '(d, s5) ← re_d s4;
  [((y, m, d), s5)].

Definition re_time : matcher (Z * Z) := fun s =>
  '(h, s1) ← re_H s;
  '(_, s2) ← lit 58 s1;
  '(mi, s3) ← re_M s2;
  [((h, mi), s3)].

(** First match; it has to be the whole input. *)
Definition whole {A} (ms : list (A * string)) : option A :=
  match ms with
  | (a, EmptyString) :: _ => Some a
  | _ => None
  end.

(** [datetime.strptime(s, "%Y-%m-%d %H:%M")]; [None] is [ValueError]. *)
Definition strptime_date_time (s : string) : option datetime :=
  r ← whole ('(ymd, s1) ← re_date s;
             '(_, s2) ← spaces s1;
             '(hm, s3) ← re_time s2;
             [((ymd, hm), s3)]);
  let '((y, m, d), (h, mi)) := r in
  if valid_date y m d then Some (mk_datetime y m d h mi 0 0) else None.

(** [datetime.strptime(s, "%Y-%m-%d")] *)
Definition strptime_date (s : string) : option datetime :=
  r ← whole (re_date s);
  let '(y, m, d) := r in
  if valid_date y m d then Some (mk_datetime y m d 0 0 0 0) else None.

(** [datetime.strptime(s, "%H:%M")]: the date defaults to 1900-01-01. *)
Definition strptime_time (s : string) : option datetime :=
  r ← whole (re_time s);
  let '(h, mi) := r in
  Some (mk_datetime 1900 1 1 h mi 0 0).

End Datetime.

(** ** The store ([irlcord/utils/db.py]) *)

Module Db.
Import Datetime.

(** The texts of the column [rsvp_status]. *)
Inductive rsvp : Type := ATTENDING | WAITLIST | DECLINED.

(** The texts of the column [status] of an event. *)
Inductive event_status : Type := pending | approved | rejected.

#[global] Instance rsvp_eq_dec : EqDecision rsvp.
Proof. solve_decision. Defined.

#[global] Instance event_status_eq_dec : EqDecision event_status.
Proof. solve_decision. Defined.

(** Rows of the tables.  Only the columns the handlers read or write are
    kept; the profile columns of [Users] play no part in them. *)

Record user_row : Type := mk_user { user_id : string }.

Record group_row : Type := mk_group {
  group_id : Z;
  group_name : string;
  group_description : string;
  is_open : bool;
  channel_id : string;
  new_members_can_create_events : bool;
  event_approval_mode : string;
  event_attendee_management_mode : string;
  contributor_events_required : option Z
}.

Record member_row : Type := mk_member {
  member_group : Z;
  member_user : string;
  is_leader : bool
}.

Record event_row : Type := mk_event {
  event_id : Z;
  event_group : Z;
  host_id : string;
  event_name : string;
  date_time : datetime;
  location_name : string;
  location_address : string;
  event_description : string;
  max_attendees : option Z;
  is_public : bool;
  status : event_status;
  thread_id : option string
}.

Record attendee_row : Type := mk_attendee {
  attendee_event : Z;
  attendee_user : string;
  rsvp_status : rsvp
}.

#[global] Instance user_row_eq_dec : EqDecision user_row.
Proof. solve_decision. Defined.
#[global] Instance group_row_eq_dec : EqDecision group_row.
Proof. solve_decision. Defined.
#[global] Instance member_row_eq_dec : EqDecision member_row.
Proof. solve_decision. Defined.
#[global] Instance event_row_eq_dec : EqDecision event_row.
Proof. solve_decision. Defined.
#[global] Instance attendee_row_eq_dec : EqDecision attendee_row.
Proof. solve_decision. Defined.

Record database : Type := mk_db {
  Users : list user_row;
  Groups : list group_row;
  GroupMembers : list member_row;
  Events : list event_row;
  EventAttendees : list attendee_row
}.

#[global] Instance database_eq_dec : EqDecision database.
Proof. solve_decision. Defined.

Definition with_Groups (db : database) (t : list group_row) : database :=
  mk_db (Users db) t (GroupMembers db) (Events db) (EventAttendees db).
Definition with_GroupMembers (db : database) (t : list member_row) : database :=
  mk_db (Users db) (Groups db) t (Events db) (EventAttendees db).
Definition with_Events (db : database) (t : list event_row) : database :=
  mk_db (Users db) (Groups db) (GroupMembers db) t (EventAttendees db).
Definition with_EventAttendees (db : database) (t : list attendee_row) : database :=
  mk_db (Users db) (Groups db) (GroupMembers db) (Events db) t.

(** The key of a row of [EventAttendees], named by the [ON CONFLICT]
    clause of [add_event_attendee]. *)
Definition attendee_key (a : attendee_row) : Z * string :=
  (attendee_event a, attendee_user a).

(** The key of a row of [GroupMembers]. *)
Definition member_key (m : member_row) : Z * string :=
  (member_group m, member_user m).

(** Modelled from the spec: the schema file of the repository, which
    declares the keys of the tables, is not among the sources.  The
    specification makes the pair (event id, user id) unique in
    [EventAttendees] and the pair (group id, user id) unique in
    [GroupMembers], and identifies a user by the user id; the
    [ON CONFLICT] clauses of [add_event_attendee], [add_group_member]
    and [create_user] rely on these keys. *)
Record well_formed (db : database) : Prop := {
  attendee_keys_unique : NoDup (attendee_key <$> EventAttendees db);
  member_keys_unique : NoDup (member_key <$> GroupMembers db);
  user_ids_unique : NoDup (user_id <$> Users db)
}.

(** Row id given to an inserted row: one more than the largest in use. *)
Definition fresh_id (ids : list Z) : Z := 1 + foldr Z.max 0 ids.

(** *** Group operations *)

(** [get_group]: [SELECT * FROM Groups WHERE group_id = ?], first row. *)
Definition get_group (db : database) (gid : Z) : option group_row :=
  head (filter (fun g => group_id g = gid) (Groups db)).

(** [get_group_by_name] *)
Definition get_group_by_name (db : database) (name : string) : option group_row :=
  head (filter (fun g => group_name g = name) (Groups db)).

(** [SELECT * FROM Groups WHERE channel_id = ?], first row
    ([discord_helpers.get_group_from_channel]). *)
Definition group_of_channel (db : database) (ch : string) : option group_row :=
  head (filter (fun g => channel_id g = ch) (Groups db)).

(** [create_group]: the inserted row receives a fresh id, which is
    returned. *)
Definition create_group (db : database) (data : Z -> group_row) : Z * database :=
  let gid := fresh_id (group_id <$> Groups db) in
  (gid, with_Groups db (Groups db ++ [data gid])).

(** *** Group member operations *)

Definition member_matches (gid : Z) (uid : string) (m : member_row) : bool :=
  bool_decide (member_group m = gid) && bool_decide (member_user m = uid).

(** [add_group_member]: [INSERT ... ON CONFLICT DO NOTHING]. *)
Definition add_group_member (db : database) (gid : Z) (uid : string) (leader : bool)
  : database :=
  if existsb (member_matches gid uid) (GroupMembers db) then db
  else with_GroupMembers db (GroupMembers db ++ [mk_member gid uid leader]).

(** [remove_group_member]: [DELETE FROM GroupMembers WHERE group_id = ?
    AND user_id = ?]. *)
Definition remove_group_member (db : database) (gid : Z) (uid : string) : database :=
  with_GroupMembers db
    (filter (fun m => ¬ member_matches gid uid m) (GroupMembers db)).

(** [is_group_member] *)
Definition is_group_member (db : database) (gid : Z) (uid : string) : bool :=
  existsb (member_matches gid uid) (GroupMembers db).

(** [is_group_leader]: the same query with [AND is_leader = 1]. *)
Definition is_group_leader (db : database) (gid : Z) (uid : string) : bool :=
  existsb (fun m => member_matches gid uid m && is_leader m) (GroupMembers db).

(** [SELECT * FROM GroupMembers WHERE group_id = ? AND is_leader = 1],
    the query [group_leave] issues through [fetch_all]. *)
Definition group_leaders (db : database) (gid : Z) : list member_row :=
  filter (fun m => member_group m = gid ∧ is_leader m = true) (GroupMembers db).

(** *** Event operations *)

(** The dictionary handed to [update_event]: a column is present when
    its field is [Some]. *)
Record event_update : Type := mk_update {
  set_name : option string;
  set_description : option string;
  set_location_name : option string;
  set_location_address : option string;
  set_max_attendees : option Z;
  set_date_time : option datetime;
  set_host_id : option string;
  set_thread_id : option string
}.

Definition no_update : event_update :=
  mk_update None None None None None None None None.

#[global] Instance event_update_eq_dec : EqDecision event_update.
Proof. solve_decision. Defined.

(** Truth value of the dictionary: it has at least one key. *)
Definition has_keys (u : event_update) : bool := bool_decide (u ≠ no_update).

Definition apply_update (u : event_update) (e : event_row) : event_row :=
  {| event_id := event_id e;
     event_group := event_group e;
     host_id := default (host_id e) (set_host_id u);
     event_name := default (event_name e) (set_name u);
     date_time := default (date_time e) (set_date_time u);
     location_name := default (location_name e) (set_location_name u);
     location_address := default (location_address e) (set_location_address u);
     event_description := default (event_description e) (set_description u);
     max_attendees :=
       match set_max_attendees u with
       | Some n => Some n
       | None => max_attendees e
       end;
     is_public := is_public e;
     status := status e;
     thread_id :=
       match set_thread_id u with
       | Some t => Some t
       | None => thread_id e
       end |}.

(** The dictionary with the one key [host_id]. *)
Definition host_update (h : string) : event_update :=
  mk_update None None None None None None (Some h) None.

(** The dictionary with the one key [thread_id]. *)
Definition thread_update (th : string) : event_update :=
  mk_update None None None None None None None (Some th).

(** [create_event] *)
Definition create_event (db : database) (data : Z -> event_row) : Z * database :=
  let eid := fresh_id (event_id <$> Events db) in
  (eid, with_Events db (Events db ++ [data eid])).

(** [get_event] *)
Definition get_event (db : database) (eid : Z) : option event_row :=
  head (filter (fun e => event_id e = eid) (Events db)).

(** [SELECT * FROM Events WHERE thread_id = ?], first row
    ([discord_helpers.get_event_from_thread]). *)
Definition event_of_thread (db : database) (th : string) : option event_row :=
  head (filter (fun e => thread_id e = Some th) (Events db)).

(** [update_event]: nothing is done, and [False] returned, for an empty
    dictionary; otherwise [UPDATE Events SET ... WHERE event_id = ?]. *)
Definition update_event (db : database) (eid : Z) (u : event_update)
  : bool * database :=
  if has_keys u then
    (true,
     with_Events db
       ((fun e => if bool_decide (event_id e = eid) then apply_update u e else e)
          <$> Events db))
  else (false, db).

(** *** Event attendee operations *)

Definition attendee_matches (eid : Z) (uid : string) (a : attendee_row) : bool :=
  bool_decide (attendee_event a = eid) && bool_decide (attendee_user a = uid).

(** What [DO UPDATE SET rsvp_status = ?] does to a row: the conflicting
    row takes the new status, every other row is left as it is. *)
Definition set_status (eid : Z) (uid : string) (s : rsvp) (a : attendee_row)
  : attendee_row :=
  if attendee_matches eid uid a then mk_attendee eid uid s else a.

(** [add_event_attendee]: [INSERT ... ON CONFLICT(event_id, user_id) DO
    UPDATE SET rsvp_status = ?]. *)
Definition add_event_attendee (db : database) (eid : Z) (uid : string) (s : rsvp)
  : database :=
  with_EventAttendees db
    (if existsb (attendee_matches eid uid) (EventAttendees db)
     then set_status eid uid s <$> EventAttendees db
     else EventAttendees db ++ [mk_attendee eid uid s]).

(** [remove_event_attendee]: [DELETE FROM EventAttendees WHERE event_id = ?
    AND user_id = ?]. *)
Definition remove_event_attendee (db : database) (eid : Z) (uid : string) : database :=
  with_EventAttendees db
    (filter (fun a => ¬ attendee_matches eid uid a) (EventAttendees db)).

(** The rows of [EventAttendees] for one event and one user. *)
Definition records_of (db : database) (eid : Z) (uid : string) : list attendee_row :=
  filter (fun a => attendee_matches eid uid a) (EventAttendees db).

(** [get_event_attendees] without a status: the rows of [EventAttendees]
    of the event, joined with [Users] on the user id.  A row appears
    once for every user row it joins with. *)
Definition get_event_attendees (db : database) (eid : Z) : list attendee_row :=
  a ← EventAttendees db;
  if bool_decide (attendee_event a = eid)
  then (fun _ => a) <$> filter (fun u => user_id u = attendee_user a) (Users db)
  else [].

End Db.

(** ** What a handler receives and what it answers *)

Module Bot.
Import Py Datetime Db.

(** The part of the invocation context the handlers read:
    [str(ctx.author.id)], [str(ctx.channel.id)], whether [ctx.channel] is
    a thread, and [ctx.message.content]. *)
Record context : Type := mk_context {
  author : string;
  channel : string;
  channel_is_thread : bool;
  content : string
}.

(** Exceptions that leave a handler. *)
Inductive exn : Type := ValueError | IndexError | TypeError.

(** The messages the handlers send, one constructor for each message
    text.  An embed carries the attendee list it was rendered from. *)
Inductive reply : Type :=
  | MustBeInGroupChannel
  | MustBeInEventThread
  | OnlyLeadersCreateEvents
  | EventNameMissing
  | DateOrTimeMissing
  | MustBeInTheFuture
  | BadDateOrTimeFormat
  | EventCreateFailed
  | ThreadCreateFailed
  | EventAnnounced (attendees : list attendee_row)
  | EventCreated (thread : string)
  | OnlyHostOrLeaderModifies
  | NoSettingsGiven
  | MaxMustBeNumber
  | EventUpdated (attendees : list attendee_row)
  | EventUpdateFailed
  | NoValidSettings
  | NotApprovedYet
  | MustBeGroupMember
  | EventFullWaitlisted
  | NowAttending
  | MovedFromWaitlist (user : string)
  | NoLongerAttending
  | EventEmbed (attendees : list attendee_row)
  | OnlyHostOrLeaderChangesHost
  | NewHostMissing
  | NewHostMustBeMember
  | HostChanged (user : string)
  | HostChangeFailed
  | OnlyAdminsCreateGroups
  | GroupNameMissing
  | GroupNameTaken
  | GroupCreateFailed
  | GroupChannelFailed
  | GroupCreated (channel : string)
  | NotAMember
  | LastLeaderCannotLeave
  | LeftGroup.

(** The failure classes of the specification. *)
Inductive failure : Type :=
  | PermissionDenied | Forbidden | NotFound | DuplicateName | NotMember
  | LastLeader | MissingField | InvalidDateTime | InvalidNumber
  | NotApproved | NotGroupMember | RepositoryFailure.

#[global] Instance failure_eq_dec : EqDecision failure.
Proof. solve_decision. Defined.

(** The class of a message, for the messages that report a failure. *)
Definition failure_of (r : reply) : option failure :=
  match r with
  | MustBeInGroupChannel | MustBeInEventThread => Some NotFound
  | OnlyLeadersCreateEvents | OnlyHostOrLeaderModifies
  | OnlyHostOrLeaderChangesHost => Some Forbidden
  | OnlyAdminsCreateGroups => Some PermissionDenied
  | EventNameMissing | DateOrTimeMissing | NoSettingsGiven | NoValidSettings
  | NewHostMissing | GroupNameMissing => Some MissingField
  | MustBeInTheFuture | BadDateOrTimeFormat => Some InvalidDateTime
  | MaxMustBeNumber => Some InvalidNumber
  | EventCreateFailed | ThreadCreateFailed | EventUpdateFailed
  | HostChangeFailed | GroupCreateFailed | GroupChannelFailed => Some RepositoryFailure
  | NotApprovedYet => Some NotApproved
  | MustBeGroupMember | NewHostMustBeMember => Some NotGroupMember
  | GroupNameTaken => Some DuplicateName
  | NotAMember => Some NotMember
  | LastLeaderCannotLeave => Some LastLeader
  | _ => None
  end.

(** How a handler ends: it returns after sending messages, or an
    exception propagates out of it. *)
Inductive outcome : Type :=
  | Replied (sent : list reply)
  | Raised (e : exn).

(** The handler ended by reporting the failure [f] and nothing else. *)
Definition fails_with (f : failure) (o : outcome) : Prop :=
  exists r, o = Replied [r] /\ failure_of r = Some f.

(** Reading the dictionary of arguments. *)

(** Truth value of [args.get(k)]. *)
Definition given (args : gmap string string) (k : string) : bool :=
  match args !! k with
  | Some v => truthy v
  | None => false
  end.

(** [args[k]], for a key that is present. *)
Definition item (args : gmap string string) (k : string) : string :=
  default EmptyString (args !! k).

(** [args.get(k, d)] *)
Definition get_or (args : gmap string string) (k d : string) : string :=
  default d (args !! k).

(** [k in args] *)
Definition has (args : gmap string string) (k : string) : bool :=
  bool_decide (is_Some (args !! k)).

(** [get_event_from_thread] *)
Definition get_event_from_thread (ctx : context) (db : database) : option event_row :=
  if channel_is_thread ctx then event_of_thread db (channel ctx) else None.

(** [get_group_from_channel] *)
Definition get_group_from_channel (ctx : context) (db : database) : option group_row :=
  group_of_channel db (channel ctx).

(** The rows with a given status, as the list comprehensions of the
    handlers select them. *)
Definition with_status (s : rsvp) (l : list attendee_row) : list attendee_row :=
  filter (fun a => rsvp_status a = s) l.

End Bot.

(** ** Event commands ([irlcord/cogs/events.py]) *)

Module Events.
Import Py Parser Datetime Db Bot.

(** [event_create].  [now] is the value [datetime.datetime.now()]
    returns at the check; [thread] is what [get_or_create_thread]
    returns. *)
Definition event_create (ctx : context) (now : datetime) (thread : option string)
    (db : database) : outcome * database :=
  match get_group_from_channel ctx db with
  | None => (Replied [MustBeInGroupChannel], db)
  | Some group =>
    if negb (new_members_can_create_events group)
       && negb (is_group_leader db (group_id group) (author ctx))
    then (Replied [OnlyLeadersCreateEvents], db)
    else
      let args := parse_command_args (content ctx) in
      if negb (given args "name") then (Replied [EventNameMissing], db)
      else if negb (given args "date") || negb (given args "time")
      then (Replied [DateOrTimeMissing], db)
      else
        match strptime_date_time (item args "date" +:+ " " +:+ item args "time") with
        | None => (Replied [BadDateOrTimeFormat], db)
        | Some dt =>
          if ltb dt now then (Replied [MustBeInTheFuture], db)
          else
            match (if given args "max" then Some <$> int (item args "max")
                   else Some None) with
            | None => (Raised ValueError, db)
            | Some cap =>
              let data eid :=
                {| event_id := eid;
                   event_group := group_id group;
                   host_id := author ctx;
                   event_name := item args "name";
                   date_time := dt;
                   location_name := get_or args "location" EmptyString;
                   location_address := get_or args "address" EmptyString;
                   event_description := get_or args "description" EmptyString;
                   max_attendees := cap;
                   is_public := bool_decide (lower (get_or args "public" "true") = "true");
                   status := if bool_decide (event_approval_mode group ≠ "none")
                             then pending else approved;
                   thread_id := None |} in
              let '(eid, db1) := create_event db data in
              if bool_decide (eid = 0) then (Replied [EventCreateFailed], db1)
              else
                match thread with
                | None => (Replied [ThreadCreateFailed], db1)
                | Some th =>
                  let db2 := (update_event db1 eid (thread_update th)).2 in
                  let db3 := add_event_attendee db2 eid (author ctx) ATTENDING in
                  let attendees := get_event_attendees db3 eid in
                  (Replied [EventAnnounced attendees; EventCreated th], db3)
                end
            end
        end
  end.

(** The [date] branch of [event_modify]: the date of the argument
    replaces the date of [current]; [None] is the [ValueError] of
    [strptime]. *)
Definition merge_date (args : gmap string string) (current : datetime)
  : option datetime :=
  match args !! "date" with
  | Some date_str =>
      new_date ← strptime_date date_str;
      Some (replace_date current (year new_date) (month new_date) (day new_date))
  | None => Some current
  end.

(** The [time] branch of [event_modify]. *)
Definition merge_time (args : gmap string string) (current : datetime)
  : option datetime :=
  match args !! "time" with
  | Some time_str =>
      new_time ← strptime_time time_str;
      Some (replace_time current (hour new_time) (minute new_time))
  | None => Some current
  end.

(** The dictionary [update_data] before the [max], [date] and [time]
    arguments are looked at. *)
Definition text_updates (args : gmap string string) : event_update :=
  {| set_name := args !! "name";
     set_description := args !! "description";
     set_location_name := args !! "location";
     set_location_address := args !! "address";
     set_max_attendees := None;
     set_date_time := None;
     set_host_id := None;
     set_thread_id := None |}.

Definition put_max (u : event_update) (n : Z) : event_update :=
  mk_update (set_name u) (set_description u) (set_location_name u)
    (set_location_address u) (Some n) (set_date_time u) (set_host_id u)
    (set_thread_id u).

Definition put_date_time (u : event_update) (d : datetime) : event_update :=
  mk_update (set_name u) (set_description u) (set_location_name u)
    (set_location_address u) (set_max_attendees u) (Some d) (set_host_id u)
    (set_thread_id u).

(** The end of [event_modify], from [if update_data:] on. *)
Definition finish_modify (event : event_row) (u : event_update) (db : database)
  : outcome * database :=
  if has_keys u then
    let '(success, db1) := update_event db (event_id event) u in
    if success then
      (Replied [EventUpdated (get_event_attendees db1 (event_id event))], db1)
    else (Replied [EventUpdateFailed], db1)
  else (Replied [NoValidSettings], db).

(** The [date]/[time] block of [event_modify] and what follows it. *)
Definition modify_date_time (event : event_row) (args : gmap string string)
    (now : datetime) (u : event_update) (db : database) : outcome * database :=
  if has args "date" || has args "time" then
    match merge_date args (date_time event) ≫= merge_time args with
    | None => (Replied [BadDateOrTimeFormat], db)
    | Some current_date =>
        if ltb current_date now then (Replied [MustBeInTheFuture], db)
        else finish_modify event (put_date_time u current_date) db
    end
  else finish_modify event u db.

(** [event_modify] *)
Definition event_modify (ctx : context) (now : datetime) (db : database)
  : outcome * database :=
  match get_event_from_thread ctx db with
  | None => (Replied [MustBeInEventThread], db)
  | Some event =>
    match get_group db (event_group event) with
    | None => (Raised TypeError, db)
    | Some group =>
      if bool_decide (author ctx ≠ host_id event)
         && negb (is_group_leader db (group_id group) (author ctx))
      then (Replied [OnlyHostOrLeaderModifies], db)
      else
        let args := parse_command_args (content ctx) in
        if bool_decide (args = ∅) then (Replied [NoSettingsGiven], db)
        else
          let u := text_updates args in
          match args !! "max" with
          | Some s =>
              match int s with
              | None => (Replied [MaxMustBeNumber], db)
              | Some n => modify_date_time event args now (put_max u n) db
              end
          | None => modify_date_time event args now u db
          end
    end
  end.

(** Truth value of [event["max_attendees"] and len(attending) >=
    event["max_attendees"]]. *)
Definition is_full (event : event_row) (attending : list attendee_row) : bool :=
  match max_attendees event with
  | None => false
  | Some cap => negb (cap =? 0) && (cap <=? Z.of_nat (length attending))
  end.

(** [event_confirm] *)
Definition event_confirm (ctx : context) (db : database) : outcome * database :=
  match get_event_from_thread ctx db with
  | None => (Replied [MustBeInEventThread], db)
  | Some event =>
    if bool_decide (status event ≠ approved) then (Replied [NotApprovedYet], db)
    else
      match get_group db (event_group event) with
      | None => (Raised TypeError, db)
      | Some group =>
        if negb (is_group_member db (group_id group) (author ctx))
        then (Replied [MustBeGroupMember], db)
        else
          let attendees := get_event_attendees db (event_id event) in
          let attending := with_status ATTENDING attendees in
          if is_full event attending then
            let db1 := add_event_attendee db (event_id event) (author ctx) WAITLIST in
            (Replied [EventFullWaitlisted;
                      EventEmbed (get_event_attendees db1 (event_id event))], db1)
          else
            let db1 := add_event_attendee db (event_id event) (author ctx) ATTENDING in
            (Replied [NowAttending;
                      EventEmbed (get_event_attendees db1 (event_id event))], db1)
      end
  end.

(** [event_unconfirm] *)
Definition event_unconfirm (ctx : context) (db : database) : outcome * database :=
  match get_event_from_thread ctx db with
  | None => (Replied [MustBeInEventThread], db)
  | Some event =>
    let db1 := remove_event_attendee db (event_id event) (author ctx) in
    let attendees := get_event_attendees db1 (event_id event) in
    match with_status WAITLIST attendees with
    | first :: _ =>
        let db2 := add_event_attendee db1 (event_id event) (attendee_user first) ATTENDING in
        (Replied [MovedFromWaitlist (attendee_user first); NoLongerAttending;
                  EventEmbed (get_event_attendees db2 (event_id event))], db2)
    | [] =>
        (Replied [NoLongerAttending;
                  EventEmbed (get_event_attendees db1 (event_id event))], db1)
    end
  end.

(** [event_change_host] *)
Definition event_change_host (ctx : context) (db : database) : outcome * database :=
  match get_event_from_thread ctx db with
  | None => (Replied [MustBeInEventThread], db)
  | Some event =>
    match get_group db (event_group event) with
    | None => (Raised TypeError, db)
    | Some group =>
      if bool_decide (author ctx ≠ host_id event)
         && negb (is_group_leader db (group_id group) (author ctx))
      then (Replied [OnlyHostOrLeaderChangesHost], db)
      else
        let args := parse_command_args (content ctx) in
        if negb (given args "user") then (Replied [NewHostMissing], db)
        else
          match first_digit_run (item args "user") with
          | None => (Raised IndexError, db)
          | Some new_host =>
            if negb (is_group_member db (group_id group) new_host)
            then (Replied [NewHostMustBeMember], db)
            else
              let '(success, db1) :=
                update_event db (event_id event) (host_update new_host) in
              if success then (Replied [HostChanged new_host], db1)
              else (Replied [HostChangeFailed], db1)
          end
    end
  end.

End Events.

(** ** Group commands ([irlcord/cogs/groups.py]) *)

Module Groups.
Import Py Parser Datetime Db Bot.

(** [group_create].  [admin_ids] is the configured list of
    administrators.  [new_channel] is the id of the channel when
    [create_text_channel] and the [set_permissions] that follows it
    return, and [None] when one of them raises [discord.HTTPException].
    [welcomed] tells whether the calls to Discord that follow the two
    writes ([channel.send], [pin], [set_permissions], [ctx.send]) all
    return; they stand in the same [try], so when one of them raises
    [discord.HTTPException] the handler sends the message of the channel
    failure, with the two rows written. *)
Definition group_create (ctx : context) (admin_ids : list string)
    (new_channel : option string) (welcomed : bool) (db : database)
  : outcome * database :=
  if negb (bool_decide (author ctx ∈ admin_ids))
  then (Replied [OnlyAdminsCreateGroups], db)
  else
    let args := parse_command_args (content ctx) in
    if negb (given args "name") then (Replied [GroupNameMissing], db)
    else
      match get_group_by_name db (item args "name") with
      | Some _ => (Replied [GroupNameTaken], db)
      | None =>
        match new_channel with
        | None => (Replied [GroupChannelFailed], db)
        | Some ch =>
          match (if given args "contributor_events_required"
                 then Some <$> int (item args "contributor_events_required")
                 else Some None) with
          | None => (Raised ValueError, db)
          | Some required =>
            let data gid :=
              {| group_id := gid;
                 group_name := item args "name";
                 group_description := get_or args "description" EmptyString;
                 is_open := bool_decide (lower (get_or args "is_open" "true") = "true");
                 channel_id := ch;
                 new_members_can_create_events :=
                   bool_decide
                     (lower (get_or args "new_members_can_create_events" "true") = "true");
                 event_approval_mode := get_or args "event_approval_mode" "public";
                 event_attendee_management_mode :=
                   get_or args "event_attendee_management_mode" "host";
                 contributor_events_required := required |} in
            let '(gid, db1) := create_group db data in
            if bool_decide (gid = 0) then (Replied [GroupCreateFailed], db1)
            else
              let db2 := add_group_member db1 gid (author ctx) true in
              if welcomed then (Replied [GroupCreated ch], db2)
              else (Replied [GroupChannelFailed], db2)
          end
        end
      end.

(** [group_leave] *)
Definition group_leave (ctx : context) (db : database) : outcome * database :=
  match get_group_from_channel ctx db with
  | None => (Replied [MustBeInGroupChannel], db)
  | Some group =>
    if negb (is_group_member db (group_id group) (author ctx))
    then (Replied [NotAMember], db)
    else if is_group_leader db (group_id group) (author ctx)
            && bool_decide (length (group_leaders db (group_id group)) = 1%nat)
    then (Replied [LastLeaderCannotLeave], db)
    else
      (Replied [LeftGroup], remove_group_member db (group_id group) (author ctx))
  end.

End Groups.

(** ** Vocabulary of the properties *)

Module Props.
Import Py Parser Datetime Db Bot Events Groups.

(** The number of attendees with status [ATTENDING] that a handler
    counts for an event: it counts in the list [get_event_attendees]
    returns. *)
Definition attending_count (db : database) (eid : Z) : nat :=
  length (with_status ATTENDING (get_event_attendees db eid)).

(** The waitlisted attendees of an event in retrieval order. *)
Definition waitlist (db : database) (eid : Z) : list attendee_row :=
  with_status WAITLIST (get_event_attendees db eid).

(** The status an RSVP records according to the wording of the
    specification: [WAITLIST] when a cap is set and the count of
    attending members has reached it, [ATTENDING] otherwise. *)
Definition stated_rsvp_status (cap : option Z) (attending : nat) : rsvp :=
  match cap with
  | Some c => if c <=? Z.of_nat attending then WAITLIST else ATTENDING
  | None => ATTENDING
  end.

(** The value of the last pair of [ms] whose key is [k] once put in
    lower case. *)
Fixpoint last_value (k : string) (ms : list (string * string)) : option string :=
  match ms with
  | [] => None
  | m :: rest =>
      match last_value k rest with
      | Some v => Some v
      | None => if bool_decide (lower m.1 = k) then Some m.2 else None
      end
  end.

(** Every character of [s] satisfies [p]. *)
Fixpoint every (p : ascii -> bool) (s : string) : bool :=
  match s with
  | EmptyString => true
  | String c s' => p c && every p s'
  end.

(** The handler returned after sending messages none of which reports a
    failure. *)
Definition succeeds (o : outcome) : Prop :=
  exists msgs, o = Replied msgs /\ Forall (fun r => failure_of r = None) msgs.

(** The row of [EventAttendees] is one [get_event_attendees] lists for
    the event: it belongs to the event and its user has a row in
    [Users]. *)
Definition listed (db : database) (eid : Z) (a : attendee_row) : Prop :=
  attendee_event a = eid /\ attendee_user a ∈ user_id <$> Users db.

#[global] Instance listed_dec db eid a : Decision (listed db eid a).
Proof. unfold listed. apply _. Defined.

(** The event row [e] with another host and nothing else changed. *)
Definition with_host (h : string) (e : event_row) : event_row :=
  mk_event (event_id e) (event_group e) h (event_name e) (date_time e)
    (location_name e) (location_address e) (event_description e)
    (max_attendees e) (is_public e) (status e) (thread_id e).

(** The number of leaders of a group. *)
Definition leader_count (db : database) (gid : Z) : nat :=
  length (group_leaders db gid).

End Props.

(** ** A small community, used to run the handlers *)

Module Sample.
Import Py Parser Datetime Db Bot Events Groups Props.

Definition quote : string := String dquote EmptyString.

(** The text of a quoted argument: the key, an equals sign and the value
    between double quotes. *)
Definition quoted (k v : string) : string := k +:+ "=" +:+ quote +:+ v +:+ quote.

Definition alice : string := "1001".
Definition bob : string := "1002".
Definition carol : string := "1003".
Definition dave : string := "1004".

Definition hikers : group_row :=
  mk_group 1 "Hiking" "Weekend walks" true "500" true "none" "host" None.

Definition walk_time : datetime := mk_datetime 2031 5 5 9 30 0 0.

(** An event of the hikers, hosted by alice and discussed in thread
    900. *)
Definition walk (cap : option Z) (st : event_status) : event_row :=
  mk_event 7 1 alice "Walk" walk_time "Ridge" "1 Hill Rd" "Bring water"
    cap true st (Some "900").

(** alice leads the hikers, bob may lead them too, carol is a member;
    dave is known to the store but belongs to no group. *)
Definition community (bob_leads : bool) (ev : event_row)
    (attendees : list attendee_row) : database :=
  mk_db [mk_user alice; mk_user bob; mk_user carol; mk_user dave]
        [hikers]
        [mk_member 1 alice true; mk_member 1 bob bob_leads; mk_member 1 carol false]
        [ev]
        attendees.

(** A message in the channel of the hikers. *)
Definition in_channel (who text : string) : context :=
  mk_context who "500" false text.

(** A message in the thread of the walk. *)
Definition in_thread (who text : string) : context :=
  mk_context who "900" true text.

(** Wall-clock readings that fall on the start of a minute. *)
Definition ten_o_clock : datetime := mk_datetime 2030 1 1 10 0 0 0.
Definition walk_day_at_eleven : datetime := mk_datetime 2031 5 5 11 0 0 0.

End Sample.

(** ** More of the store ([irlcord/utils/db.py], [irlcord/cogs/groups.py]) *)

Module Store.
Import Py Datetime Db.

Definition with_Users (db : database) (t : list user_row) : database :=
  mk_db t (Groups db) (GroupMembers db) (Events db) (EventAttendees db).


(** [create_user]: [INSERT INTO Users ... ON CONFLICT DO NOTHING]. *)
Definition create_user (db : database) (uid : string) : database :=
  if bool_decide (uid ∈ user_id <$> Users db) then db
  else with_Users db (Users db ++ [mk_user uid]).

(** The dictionary handed to [update_group]. *)
Record group_update : Type := mk_group_update {
  put_name : option string;
  put_description : option string;
  put_is_open : option bool;
  put_new_members_can_create_events : option bool;
  put_event_approval_mode : option string;
  put_event_attendee_management_mode : option string;
  put_contributor_events_required : option Z
}.

Definition no_group_update : group_update :=
  mk_group_update None None None None None None None.

#[global] Instance group_update_eq_dec : EqDecision group_update.
Proof. solve_decision. Defined.

Definition apply_group_update (u : group_update) (g : group_row) : group_row :=
  {| group_id := group_id g;
     group_name := default (group_name g) (put_name u);
     group_description := default (group_description g) (put_description u);
     is_open := default (is_open g) (put_is_open u);
     channel_id := channel_id g;
     new_members_can_create_events :=
       default (new_members_can_create_events g) (put_new_members_can_create_events u);
     event_approval_mode :=
       default (event_approval_mode g) (put_event_approval_mode u);
     event_attendee_management_mode :=
       default (event_attendee_management_mode g) (put_event_attendee_management_mode u);
     contributor_events_required :=
       match put_contributor_events_required u with
       | Some n => Some n
       | None => contributor_events_required g
       end |}.

(** [update_group]: nothing is done, and [False] returned, for an empty
    dictionary; otherwise [UPDATE Groups SET ... WHERE group_id = ?]. *)
Definition update_group (db : database) (gid : Z) (u : group_update)
  : bool * database :=
  if bool_decide (u ≠ no_group_update) then
    (true,
     with_Groups db
       ((fun g => if bool_decide (group_id g = gid) then apply_group_update u g else g)
          <$> Groups db))
  else (false, db).

(** [get_event_attendees] with its optional status: with a status the
    query has the further condition [ea.rsvp_status = ?]. *)
Definition get_event_attendees_by (db : database) (eid : Z) (s : option rsvp)
  : list attendee_row :=
  match s with
  | None => get_event_attendees db eid
  | Some st =>
      a ← EventAttendees db;
      if bool_decide (attendee_event a = eid /\ rsvp_status a = st)
      then (fun _ => a) <$> filter (fun u => user_id u = attendee_user a) (Users db)
      else []
  end.

(** [Groups.get_group_members]: the member rows of the group joined with
    [Users] on the user id. *)
Definition get_group_members (db : database) (gid : Z) : list member_row :=
  m ← GroupMembers db;
  if bool_decide (member_group m = gid)
  then (fun _ => m) <$> filter (fun u => user_id u = member_user m) (Users db)
  else [].

(** The query of [on_member_remove]: the groups joined with the member
    rows of the user. *)
Definition groups_of_user (db : database) (uid : string) : list group_row :=
  g ← Groups db;
  (fun _ => g)
    <$> filter (fun m => member_group m = group_id g /\ member_user m = uid)
          (GroupMembers db).

(** *** Bills

    The bill operations read and write the table [Bills] and read
    [Users]; the table is kept beside the other tables.  The amount is
    stored and returned as it is given, so its type is left open. *)

Record bill_row (A : Type) : Type := mk_bill {
  bill_id : Z;
  bill_event : Z;
  bill_user : string;
  amount : A;
  paid : bool
}.
Arguments mk_bill {A} _ _ _ _ _.
Arguments bill_id {A} _.
Arguments bill_event {A} _.
Arguments bill_user {A} _.
Arguments amount {A} _.
Arguments paid {A} _.

(** [create_bill]: the inserted bill is unpaid; its id is returned. *)
Definition create_bill {A} (bills : list (bill_row A)) (eid : Z) (uid : string) (x : A)
  : Z * list (bill_row A) :=
  let bid := fresh_id (bill_id <$> bills) in
  (bid, bills ++ [mk_bill bid eid uid x false]).

(** [update_bill_status]: [UPDATE Bills SET paid = ? WHERE bill_id = ?]. *)
Definition update_bill_status {A} (bills : list (bill_row A)) (bid : Z) (p : bool)
  : list (bill_row A) :=
  (fun b => if bool_decide (bill_id b = bid)
            then mk_bill (bill_id b) (bill_event b) (bill_user b) (amount b) p
            else b) <$> bills.

(** [get_event_bills]: the bills of the event joined with [Users]. *)
Definition get_event_bills {A} (db : database) (bills : list (bill_row A)) (eid : Z)
  : list (bill_row A) :=
  b ← bills;
  if bool_decide (bill_event b = eid)
  then (fun _ => b) <$> filter (fun u => user_id u = bill_user b) (Users db)
  else [].

End Store.

(** ** The other commands and the dispatch of messages *)

Module Commands.
Import Py Parser Datetime Db Bot Events Groups Store.

(** The messages of the handlers of this part.  A message whose text a
    handler of the first part sends as well is that [reply]. *)
Inductive notice : Type :=
  | Said (r : reply)
  | MembersOnlyOnWaitlist
  | AddedToWaitlist
  | InvalidEventId
  | NoEventFound
  | EventShown (event : event_row) (attendees : list attendee_row)
  | JoinNameMissing
  | NoGroupOfThatName
  | GroupNotOpen
  | AlreadyAMember
  | JoinedGroup (group : group_row)
  | WelcomedInChannel
  | NeedChannelOrName
  | GroupShown (group : group_row) (members : list member_row)
  | OnlyLeadersModifyGroup
  | NoGroupSettingsGiven
  | BadApprovalMode
  | BadAttendeeMode
  | RequiredMustBeNumber
  | GroupUpdated (group : option group_row) (members : list member_row)
  | GroupUpdateFailed
  | NoValidGroupSettings
  | RemovedFromGroup (group : group_row).

(** How a handler of this part ends. *)
Inductive result : Type :=
  | Sent (msgs : list notice)
  | Thrown (e : exn).

(** [event_waitlist] *)
Definition event_waitlist (ctx : context) (db : database) : result * database :=
  match get_event_from_thread ctx db with
  | None => (Sent [Said MustBeInEventThread], db)
  | Some event =>
    if bool_decide (status event ≠ approved) then (Sent [Said NotApprovedYet], db)
    else
      match get_group db (event_group event) with
      | None => (Thrown TypeError, db)
      | Some group =>
        if negb (is_group_member db (group_id group) (author ctx))
        then (Sent [MembersOnlyOnWaitlist], db)
        else
          let db1 := add_event_attendee db (event_id event) (author ctx) WAITLIST in
          (Sent [AddedToWaitlist;
                 Said (EventEmbed (get_event_attendees db1 (event_id event)))], db1)
      end
  end.

(** [event_info] *)
Definition event_info (ctx : context) (db : database) : result * database :=
  let args := parse_command_args (content ctx) in
  let shown (found : option event_row) :=
    match found with
    | None => (Sent [NoEventFound], db)
    | Some event =>
        (Sent [EventShown event (get_event_attendees db (event_id event))], db)
    end in
  if given args "id" then
    match int (item args "id") with
    | None => (Sent [InvalidEventId], db)
    | Some eid => shown (get_event db eid)
    end
  else shown (get_event_from_thread ctx db).

(** [group_join].  [channel_exists] tells whether [guild.get_channel]
    finds the channel of an id. *)
Definition group_join (ctx : context) (channel_exists : Z -> bool) (db : database)
  : result * database :=
  let args := parse_command_args (content ctx) in
  if negb (given args "name") then (Sent [JoinNameMissing], db)
  else
    match get_group_by_name db (item args "name") with
    | None => (Sent [NoGroupOfThatName], db)
    | Some group =>
      if negb (is_open group) then (Sent [GroupNotOpen], db)
      else if is_group_member db (group_id group) (author ctx)
      then (Sent [AlreadyAMember], db)
      else
        let db1 := add_group_member db (group_id group) (author ctx) false in
        match int (channel_id group) with
        | None => (Thrown ValueError, db1)
        | Some ch =>
            let db2 := create_user db1 (author ctx) in
            (Sent (JoinedGroup group
                     :: if channel_exists ch then [WelcomedInChannel] else []),
             db2)
        end
    end.

(** [group_info] *)
Definition group_info (ctx : context) (db : database) : result * database :=
  let args := parse_command_args (content ctx) in
  let shown (group : group_row) :=
    (Sent [GroupShown group (get_group_members db (group_id group))], db) in
  if given args "name" then
    match get_group_by_name db (item args "name") with
    | None => (Sent [NoGroupOfThatName], db)
    | Some group => shown group
    end
  else
    match get_group_from_channel ctx db with
    | None => (Sent [NeedChannelOrName], db)
    | Some group => shown group
    end.

(** The check of a mode argument of [group_modify]: the outer [None] is
    a value outside the valid ones; an absent argument sets nothing; a
    valid one is stored in lower case. *)
Definition checked_mode (valid : list string) (v : option string)
  : option (option string) :=
  match v with
  | None => Some None
  | Some s => if bool_decide (lower s ∈ valid) then Some (Some (lower s)) else None
  end.

(** The flag arguments of [group_modify] are true for the text [true]
    in any case and false for every other text. *)
Definition flag (v : option string) : option bool :=
  (fun s => bool_decide (lower s = "true")) <$> v.

(** [group_modify] *)
Definition group_modify (ctx : context) (db : database) : result * database :=
  match get_group_from_channel ctx db with
  | None => (Sent [Said MustBeInGroupChannel], db)
  | Some group =>
    if negb (is_group_leader db (group_id group) (author ctx))
    then (Sent [OnlyLeadersModifyGroup], db)
    else
      let args := parse_command_args (content ctx) in
      if bool_decide (args = ∅) then (Sent [NoGroupSettingsGiven], db)
      else
        match checked_mode ["none"; "public"; "all"] (args !! "event_approval_mode") with
        | None => (Sent [BadApprovalMode], db)
        | Some approval =>
          match checked_mode ["host"; "self"]
                  (args !! "event_attendee_management_mode") with
          | None => (Sent [BadAttendeeMode], db)
          | Some management =>
            match (match args !! "contributor_events_required" with
                   | Some s => Some <$> int s
                   | None => Some None
                   end) with
            | None => (Sent [RequiredMustBeNumber], db)
            | Some required =>
              let u :=
                {| put_name := args !! "name";
                   put_description := args !! "description";
                   put_is_open := flag (args !! "is_open");
                   put_new_members_can_create_events :=
                     flag (args !! "new_members_can_create_events");
                   put_event_approval_mode := approval;
                   put_event_attendee_management_mode := management;
                   put_contributor_events_required := required |} in
              if bool_decide (u ≠ no_group_update) then
                let '(success, db1) := update_group db (group_id group) u in
                if success then
                  (Sent [GroupUpdated (get_group db1 (group_id group))
                           (get_group_members db1 (group_id group))], db1)
                else (Sent [GroupUpdateFailed], db1)
              else (Sent [NoValidGroupSettings], db)
            end
          end
        end
  end.

(** The loop of [on_member_remove] over the groups of the user. *)
Fixpoint remove_from_groups (channel_exists : Z -> bool) (uid : string)
    (groups : list group_row) (sent : list notice) (db : database)
  : result * database :=
  match groups with
  | [] => (Sent sent, db)
  | group :: rest =>
      let db1 := remove_group_member db (group_id group) uid in
      match int (channel_id group) with
      | None => (Thrown ValueError, db1)
      | Some ch =>
          remove_from_groups channel_exists uid rest
            (sent ++ if channel_exists ch then [RemovedFromGroup group] else [])
            db1
      end
  end.

(** [on_member_remove], for the member of id [uid]. *)
Definition on_member_remove (uid : string) (channel_exists : Z -> bool)
    (db : database) : result * database :=
  remove_from_groups channel_exists uid (groups_of_user db uid) [] db.

(** *** Dispatch

    [commands] is the dictionary of command phrases of the
    configuration. *)

Inductive event_command : Type :=
  | DoCreate | DoModify | DoConfirm | DoUnconfirm | DoWaitlist | DoInfo | DoChangeHost.

Inductive group_command : Type :=
  | DoGroupCreate | DoGroupJoin | DoGroupLeave | DoGroupInfo | DoGroupModify.

(** The chain of tests of [Events.on_message] on the content in lower
    case. *)
Definition event_route (commands : gmap string string) (content : string)
  : option event_command :=
  let content_lower := lower content in
  if startswith (get_or commands "event_create" "event new") content_lower
  then Some DoCreate
  else if startswith (get_or commands "event_modify" "event modify") content_lower
  then Some DoModify
  else if startswith (get_or commands "event_confirm" "event confirm") content_lower
  then Some DoConfirm
  else if startswith (get_or commands "event_unconfirm" "event unconfirm") content_lower
  then Some DoUnconfirm
  else if startswith (get_or commands "event_waitlist" "event waitlist") content_lower
  then Some DoWaitlist
  else if startswith (get_or commands "event_info" "event info") content_lower
  then Some DoInfo
  else if startswith (get_or commands "event_change_host" "event change host")
            content_lower
  then Some DoChangeHost
  else None.

(** The chain of tests of [Groups.on_message]. *)
Definition group_route (commands : gmap string string) (content : string)
  : option group_command :=
  let content_lower := lower content in
  if startswith (get_or commands "group_create" "circle new") content_lower
  then Some DoGroupCreate
  else if startswith (get_or commands "group_join" "circle join") content_lower
  then Some DoGroupJoin
  else if startswith (get_or commands "group_leave" "circle leave") content_lower
  then Some DoGroupLeave
  else if startswith (get_or commands "group_info" "circle info") content_lower
  then Some DoGroupInfo
  else if startswith (get_or commands "group_modify" "circle modify") content_lower
  then Some DoGroupModify
  else None.

(** A message: whether its author is a bot, and the context made from
    it. *)
Record message : Type := mk_message {
  from_bot : bool;
  context_of : context
}.

(** What the values outside the store are when a message is handled. *)
Record surroundings : Type := mk_surroundings {
  clock : datetime;
  new_thread : option string;
  admin_user_ids : list string;
  new_channel : option string;
  channel_exists : Z -> bool;
  welcomed : bool
}.

(** What a listener did with a message. *)
Inductive handled : Type :=
  | Ignored
  | Answered (o : outcome)
  | Responded (r : result).

(** [Events.on_message] *)
Definition events_on_message (commands : gmap string string) (w : surroundings)
    (m : message) (db : database) : handled * database :=
  let ctx := context_of m in
  if from_bot m || is_empty (content ctx) then (Ignored, db)
  else
    match event_route commands (content ctx) with
    | Some DoCreate =>
        let r := event_create ctx (clock w) (new_thread w) db in (Answered r.1, r.2)
    | Some DoModify =>
        let r := event_modify ctx (clock w) db in (Answered r.1, r.2)
    | Some DoConfirm => let r := event_confirm ctx db in (Answered r.1, r.2)
    | Some DoUnconfirm => let r := event_unconfirm ctx db in (Answered r.1, r.2)
    | Some DoWaitlist => let r := event_waitlist ctx db in (Responded r.1, r.2)
    | Some DoInfo => let r := event_info ctx db in (Responded r.1, r.2)
    | Some DoChangeHost => let r := event_change_host ctx db in (Answered r.1, r.2)
    | None => (Ignored, db)
    end.

(** [Groups.on_message] *)
Definition groups_on_message (commands : gmap string string) (w : surroundings)
    (m : message) (db : database) : handled * database :=
  let ctx := context_of m in
  if from_bot m || is_empty (content ctx) then (Ignored, db)
  else
    match group_route commands (content ctx) with
    | Some DoGroupCreate =>
        let r := group_create ctx (admin_user_ids w) (new_channel w) (welcomed w) db in
        (Answered r.1, r.2)
    | Some DoGroupJoin =>
        let r := group_join ctx (channel_exists w) db in (Responded r.1, r.2)
    | Some DoGroupLeave => let r := group_leave ctx db in (Answered r.1, r.2)
    | Some DoGroupInfo => let r := group_info ctx db in (Responded r.1, r.2)
    | Some DoGroupModify => let r := group_modify ctx db in (Responded r.1, r.2)
    | None => (Ignored, db)
    end.

End Commands.

(** ** Vocabulary of the further properties *)

Module Terms.
Import Py Parser Datetime Db Bot Events Groups Props Store Commands.

(** A date-time of the calendar at the start of a minute. *)
Definition whole_minute (d : datetime) : Prop :=
  valid_date (year d) (month d) (day d) = true
  /\ 0 <= hour d <= 23 /\ 0 <= minute d <= 59
  /\ second d = 0 /\ microsecond d = 0.

(** The handler ended on an exception or on one message that reports a
    failure. *)
Definition is_failure (o : outcome) : Prop :=
  match o with
  | Raised _ => True
  | Replied [r] => is_Some (failure_of r)
  | Replied _ => False
  end.

(** The columns of an event that [event_modify] has no argument for. *)
Definition fixed_columns (e : event_row)
  : Z * Z * string * event_status * option string * bool :=
  (event_id e, event_group e, host_id e, status e, thread_id e, is_public e).

(** The store [db'] differs from [db] at most in the row of the event
    [eid], and there in no column that [event_modify] has no argument
    for. *)
Definition modified_only (eid : Z) (db db' : database) : Prop :=
  Users db' = Users db /\ Groups db' = Groups db
  /\ GroupMembers db' = GroupMembers db
  /\ EventAttendees db' = EventAttendees db
  /\ fixed_columns <$> Events db' = fixed_columns <$> Events db
  /\ filter (fun e => event_id e <> eid) (Events db')
     = filter (fun e => event_id e <> eid) (Events db).

(** The channel id of every group reads as a number. *)
Definition numeric_channels (db : database) : Prop :=
  Forall (fun g => is_Some (int (channel_id g))) (Groups db).

(** The modes of the group are among the ones [group_modify] accepts. *)
Definition modes_valid (g : group_row) : Prop :=
  event_approval_mode g ∈ ["none"; "public"; "all"]
  /\ event_attendee_management_mode g ∈ ["host"; "self"].

(** Every member row belongs to a group of the store. *)
Definition members_have_groups (db : database) : Prop :=
  Forall (fun m => member_group m ∈ group_id <$> Groups db) (GroupMembers db).

(** The member rows of the users other than [uid]. *)
Definition rows_of_others (uid : string) (db : database) : list member_row :=
  filter (fun m => member_user m <> uid) (GroupMembers db).

(** The phrase [Events.on_message] tests for a command. *)
Definition event_phrase (commands : gmap string string) (c : event_command) : string :=
  match c with
  | DoCreate => get_or commands "event_create" "event new"
  | DoModify => get_or commands "event_modify" "event modify"
  | DoConfirm => get_or commands "event_confirm" "event confirm"
  | DoUnconfirm => get_or commands "event_unconfirm" "event unconfirm"
  | DoWaitlist => get_or commands "event_waitlist" "event waitlist"
  | DoInfo => get_or commands "event_info" "event info"
  | DoChangeHost => get_or commands "event_change_host" "event change host"
  end.

(** The phrase [Groups.on_message] tests for a command. *)
Definition group_phrase (commands : gmap string string) (c : group_command) : string :=
  match c with
  | DoGroupCreate => get_or commands "group_create" "circle new"
  | DoGroupJoin => get_or commands "group_join" "circle join"
  | DoGroupLeave => get_or commands "group_leave" "circle leave"
  | DoGroupInfo => get_or commands "group_info" "circle info"
  | DoGroupModify => get_or commands "group_modify" "circle modify"
  end.

(** The number of rows of [EventAttendees] of an event with status
    [ATTENDING]. *)
Definition attending_records (db : database) (eid : Z) : nat :=
  length (filter (fun a => attendee_event a = eid /\ rsvp_status a = ATTENDING)
            (EventAttendees db)).

(** The rows of [EventAttendees] of an event with status [WAITLIST]. *)
Definition waitlist_records (db : database) (eid : Z) : list attendee_row :=
  filter (fun a => attendee_event a = eid /\ rsvp_status a = WAITLIST)
    (EventAttendees db).

(** Every row of [EventAttendees] of the event belongs to a user with a
    row in [Users]. *)
Definition attendees_known (db : database) (eid : Z) : Prop :=
  Forall (fun a => attendee_event a = eid -> attendee_user a ∈ user_id <$> Users db)
    (EventAttendees db).

(** The id of an event with its approval status. *)
Definition approval (e : event_row) : Z * event_status := (event_id e, status e).

(** The stores reached from [db] by handling messages and departures of
    members, one after the other. *)
Inductive reachable (commands : gmap string string) (db : database)
  : database -> Prop :=
  | reached_start : reachable commands db db
  | reached_event_message w m db' :
      reachable commands db db' ->
      reachable commands db (events_on_message commands w m db').2
  | reached_group_message w m db' :
      reachable commands db db' ->
      reachable commands db (groups_on_message commands w m db').2
  | reached_member_removed uid present db' :
      reachable commands db db' ->
      reachable commands db (on_member_remove uid present db').2.

End Terms.

(** ** Command lines

    The shape of the messages the examples of the handlers show: a
    command word and, after it, items separated by single blanks. *)

Module Lines.
Import Py Parser Props.

Inductive line_item : Type :=
  | Word (w : string)
  | Unquoted (k v : string)
  | Quoted (k v : string).

(** The text of an item. *)
Definition seg (it : line_item) : string :=
  match it with
  | Word w => w
  | Unquoted k v => k +:+ String "=" v
  | Quoted k v => group0 k v
  end.

(** The items, a blank before each. *)
Fixpoint follow (items : list line_item) : string :=
  match items with
  | [] => EmptyString
  | it :: rest => String " " (seg it +:+ follow rest)
  end.

(** The items joined by single blanks. *)
Definition render (items : list line_item) : string :=
  match items with
  | [] => EmptyString
  | it :: rest => seg it +:+ follow rest
  end.

(** The last character of [s] is an equals sign. *)
Fixpoint ends_with_equals (s : string) : bool :=
  match s with
  | EmptyString => false
  | String c EmptyString => is_equals c
  | String _ s' => ends_with_equals s'
  end.

(** A character of a plain word: no white space, no equals sign, no
    double quote. *)
Definition is_plain (c : ascii) : bool :=
  negb (is_space c) && negb (is_equals c) && negb (is_dquote c).

(** A character of an unquoted value: no white space, no double quote. *)
Definition is_bare (c : ascii) : bool := negb (is_space c) && negb (is_dquote c).

(** The items of a line as a user writes them: a plain word; a key of
    word characters, an equals sign and a bare value; a key of word
    characters and a value between double quotes, which holds no double
    quote and does not end with an equals sign. *)
Definition well_formed_item (it : line_item) : bool :=
  match it with
  | Word w => truthy w && every is_plain w
  | Unquoted k v => truthy k && every is_word k && truthy v && every is_bare v
  | Quoted k v =>
      truthy k && every is_word k && every (fun c => negb (is_dquote c)) v
      && negb (ends_with_equals v)
  end.

Definition unquoted_pairs (items : list line_item) : list (string * string) :=
  omap (fun it => match it with Unquoted k v => Some (k, v) | _ => None end) items.

Definition quoted_pairs (items : list line_item) : list (string * string) :=
  omap (fun it => match it with Quoted k v => Some (k, v) | _ => None end) items.

(** The value of a key in lower case on a line: the value of the last
    unquoted pair of the key, and without one the value of the last
    quoted pair of the key. *)
Definition line_value (items : list line_item) (k : string) : option string :=
  match last_value k (unquoted_pairs items) with
  | Some u => Some u
  | None => last_value k (quoted_pairs items)
  end.

(** What the deletion of the text of the quoted pair [k], [v] leaves of
    a key [k'] that ends with [k]: the characters before that end. *)
Fixpoint residue (k k' : string) : option string :=
  if bool_decide (k' = k) then Some EmptyString
  else
    match k' with
    | String c r => String c <$> residue k r
    | EmptyString => None
    end.

(** What the deletion of the text of the quoted pair [k], [v] leaves of
    an item: a quoted pair with the same value whose key ends with [k]
    loses its text from there on. *)
Definition strike (k v : string) (it : line_item) : line_item :=
  match it with
  | Quoted k' v' =>
      if bool_decide (v' = v) then
        match residue k k' with
        | Some p => Word p
        | None => it
        end
      else it
  | _ => it
  end.

(** The items of the working copy of the argument text: as on the line,
    but a word may be what a deletion left, and so be empty. *)
Definition settled (it : line_item) : bool :=
  match it with
  | Word w => every is_plain w
  | _ => well_formed_item it
  end.

(** The working copy of an item after the deletions of the quoted pairs
    [ms], in their order. *)
Definition struck (ms : list (string * string)) (it : line_item) : line_item :=
  fold_left (fun i m => strike m.1 m.2 i) ms it.

End Lines.

(** ** From an empty store

    alice, an administrator, founds the hikers with events that need
    no approval; bob joins them; alice plans a walk for two; bob
    confirms; alice moves to the waitlist of her walk. *)

Module Story.
Import Py Parser Datetime Db Bot Events Groups Props Sample Store Commands.

Definition nobody : database := mk_db [] [] [] [] [].

Definition founded : database :=
  (group_create
     (mk_context alice "10" false "circle new name=Hiking event_approval_mode=none")
     [alice] (Some "500") true nobody).2.

Definition joined : database :=
  (group_join (mk_context bob "10" false "circle join name=Hiking") (fun _ => true)
     founded).2.

Definition planned : database :=
  (event_create (in_channel alice "event new name=Walk date=2031-05-05 time=09:30 max=2")
     ten_o_clock (Some "900") joined).2.

Definition bob_attends : database :=
  (event_confirm (in_thread bob "event confirm") planned).2.

Definition alice_waits : database :=
  (event_waitlist (in_thread alice "event waitlist") bob_attends).2.

End Story.

(** * Properties *)

(** ** Lists of rows *)

Lemma filter_none {A} (P : A -> Prop) `{forall x, Decision (P x)} (l : list A) :
  Forall (fun x => ~ P x) l -> filter P l = [].
Proof.
  induction 1 as [|b l Hb _ IH]; [reflexivity|].
  by rewrite filter_cons_False.
Qed.

Lemma filter_all {A} (P : A -> Prop) `{forall x, Decision (P x)} (l : list A) :
  Forall P l -> filter P l = l.
Proof.
  induction 1 as [|b l Hb _ IH]; [reflexivity|].
  by rewrite filter_cons_True, IH.
Qed.

Lemma filter_iff_in {A} (P Q : A -> Prop) `{forall x, Decision (P x)}
    `{forall x, Decision (Q x)} (l : list A) :
  (forall x, x ∈ l -> P x <-> Q x) -> filter P l = filter Q l.
Proof.
  intros Hiff. induction l as [|a l IH]; [done|].
  rewrite !filter_cons, IH by (intros x Hx; apply Hiff; by right).
  destruct (decide (P a)) as [Hp|Hp], (decide (Q a)) as [Hq|Hq]; try done.
  - exfalso. apply Hq, Hiff; [by left|done].
  - exfalso. apply Hp, Hiff; [by left|done].
Qed.

Section keyed.
Context {A K : Type} `{EqDecision K} (key : A -> K).
Implicit Types (l : list A) (a : A) (k : K).

(** A row of a table with unique keys splits the table into rows of
    other keys. *)
Lemma keyed_split l a :
  NoDup (key <$> l) -> a ∈ l ->
  exists l1 l2, l = l1 ++ a :: l2 /\ Forall (fun b => key b <> key a) (l1 ++ l2).
Proof.
  intros Hnd Hin.
  destruct (list_elem_of_split _ _ Hin) as (l1 & l2 & ->).
  exists l1, l2. split; [reflexivity|].
  rewrite fmap_app, fmap_cons in Hnd.
  apply NoDup_app in Hnd as (_ & Hdisj & Hnd2).
  apply NoDup_cons in Hnd2 as [Hnotin _].
  apply Forall_app. split; apply Forall_forall; intros b Hb Heq.
  - apply (Hdisj (key b)); [by apply list_elem_of_fmap_2|].
    rewrite Heq. apply list_elem_of_here.
  - apply Hnotin. rewrite <- Heq. by apply list_elem_of_fmap_2.
Qed.

Lemma filter_key_none l k :
  Forall (fun b => key b <> k) l -> filter (fun b => key b = k) l = [].
Proof. apply filter_none. Qed.

(** Rewriting the rows of one key leaves the rows of other keys alone. *)
Lemma fmap_key_none (f : A -> A) l k :
  (forall b, key b <> k -> f b = b) ->
  Forall (fun b => key b <> k) l -> f <$> l = l.
Proof.
  intros Hf. induction 1 as [|b l Hb _ IH]; [reflexivity|].
  rewrite fmap_cons, IH, Hf; done.
Qed.

Lemma keyed_update (f : A -> A) l a :
  NoDup (key <$> l) -> a ∈ l ->
  (forall b, key b <> key a -> f b = b) ->
  exists l1 l2, l = l1 ++ a :: l2 /\ f <$> l = l1 ++ f a :: l2
                /\ Forall (fun b => key b <> key a) (l1 ++ l2).
Proof.
  intros Hnd Hin Hf.
  destruct (keyed_split l a Hnd Hin) as (l1 & l2 & -> & Hother).
  exists l1, l2. repeat split; [|done].
  apply Forall_app in Hother as [H1 H2].
  rewrite fmap_app, fmap_cons.
  by rewrite (fmap_key_none f l1 (key a)), (fmap_key_none f l2 (key a)).
Qed.
End keyed.

(** ** The store *)

Module DbFacts.
Import Db Props.

Lemma attendee_matches_key eid uid a :
  attendee_matches eid uid a <-> attendee_key a = (eid, uid).
Proof.
  unfold attendee_matches, attendee_key.
  rewrite andb_True, !bool_decide_spec. split; [intros [-> ->]; done | by inversion 1].
Qed.

Lemma member_matches_key gid uid m :
  member_matches gid uid m <-> member_key m = (gid, uid).
Proof.
  unfold member_matches, member_key.
  rewrite andb_True, !bool_decide_spec. split; [intros [-> ->]; done | by inversion 1].
Qed.

Lemma records_of_alt db eid uid :
  records_of db eid uid = filter (fun a => attendee_key a = (eid, uid)) (EventAttendees db).
Proof. apply list_filter_iff. intros a. apply attendee_matches_key. Qed.

Lemma existsb_attendee db eid uid :
  existsb (attendee_matches eid uid) (EventAttendees db) = true
  <-> exists a, a ∈ EventAttendees db /\ attendee_key a = (eid, uid).
Proof.
  rewrite existsb_exists. split; intros (a & Hin & Hm); exists a.
  - split; [by apply list_elem_of_In|]. apply attendee_matches_key. by rewrite Hm.
  - split; [by apply list_elem_of_In|]. apply Is_true_true, attendee_matches_key, Hm.
Qed.

Lemma records_of_nil db eid uid :
  records_of db eid uid = []
  <-> existsb (attendee_matches eid uid) (EventAttendees db) = false.
Proof.
  rewrite <- not_true_iff_false, existsb_attendee, records_of_alt. split.
  - intros Hnil (a & Hin & Hk).
    assert (a ∈ filter (fun a => attendee_key a = (eid, uid)) (EventAttendees db)) as Ha
      by (by apply list_elem_of_filter).
    rewrite Hnil in Ha. by apply not_elem_of_nil in Ha.
  - intros Hno. apply filter_key_none, Forall_forall. intros a Hin Hk. apply Hno. eauto.
Qed.

Lemma set_status_key eid uid s a : attendee_key (set_status eid uid s a) = attendee_key a.
Proof.
  unfold set_status. destruct (attendee_matches eid uid a) eqn:E; [|done].
  apply Is_true_true, attendee_matches_key in E. by rewrite E.
Qed.

Lemma set_status_other eid uid s a :
  attendee_key a <> (eid, uid) -> set_status eid uid s a = a.
Proof.
  intros Hk. unfold set_status. destruct (attendee_matches eid uid a) eqn:E; [|done].
  apply Is_true_true, attendee_matches_key in E. done.
Qed.

Lemma set_status_same eid uid s a :
  attendee_key a = (eid, uid) -> set_status eid uid s a = mk_attendee eid uid s.
Proof.
  intros Hk. unfold set_status.
  apply attendee_matches_key, Is_true_true in Hk. by rewrite Hk.
Qed.

(** On a conflict the one row of the key is rewritten in place. *)
Lemma add_event_attendee_existing db eid uid s a :
  well_formed db -> a ∈ EventAttendees db -> attendee_key a = (eid, uid) ->
  exists l1 l2,
    EventAttendees db = l1 ++ a :: l2
    /\ EventAttendees (add_event_attendee db eid uid s) = l1 ++ mk_attendee eid uid s :: l2
    /\ Forall (fun b => attendee_key b <> (eid, uid)) (l1 ++ l2).
Proof.
  intros Hwf Hin Hk.
  destruct (keyed_update attendee_key (set_status eid uid s) _ a
              (attendee_keys_unique _ Hwf) Hin) as (l1 & l2 & Hl & Hmap & Hother).
  { intros b Hb. apply set_status_other. by rewrite <- Hk. }
  exists l1, l2. rewrite Hk in Hother. repeat split; [done| |done].
  unfold add_event_attendee; simpl.
  assert (existsb (attendee_matches eid uid) (EventAttendees db) = true) as ->
    by (apply existsb_attendee; eauto).
  rewrite Hmap. by rewrite (set_status_same _ _ _ a).
Qed.

(** Without a conflict the row is inserted after the others. *)
Lemma add_event_attendee_new db eid uid s :
  records_of db eid uid = [] ->
  EventAttendees (add_event_attendee db eid uid s)
  = EventAttendees db ++ [mk_attendee eid uid s].
Proof.
  intros Hnil. apply records_of_nil in Hnil.
  unfold add_event_attendee; simpl. by rewrite Hnil.
Qed.

Lemma add_event_attendee_keys_present db eid uid s :
  existsb (attendee_matches eid uid) (EventAttendees db) = true ->
  attendee_key <$> EventAttendees (add_event_attendee db eid uid s)
  = attendee_key <$> EventAttendees db.
Proof.
  intros Hex. unfold add_event_attendee; simpl. rewrite Hex.
  rewrite <- list_fmap_compose.
  apply list_fmap_ext. intros _ a _. apply set_status_key.
Qed.

(** The operations on attendees keep the keys unique. *)
Lemma add_event_attendee_well_formed db eid uid s :
  well_formed db -> well_formed (add_event_attendee db eid uid s).
Proof.
  intros [Ha Hm Hu]. split; [|done|done].
  destruct (existsb (attendee_matches eid uid) (EventAttendees db)) eqn:Hex.
  - by rewrite add_event_attendee_keys_present.
  - rewrite add_event_attendee_new by (by apply records_of_nil).
    rewrite fmap_app. apply NoDup_app. split; [done|]. split; [|apply NoDup_singleton].
    intros k Hk Hk'. apply list_elem_of_singleton in Hk'. subst k.
    apply list_elem_of_fmap in Hk as (a & Hka & Hin).
    apply not_true_iff_false in Hex. apply Hex, existsb_attendee. eauto.
Qed.

(** After [add_event_attendee] the pair has exactly one row, with the
    status given. *)
Lemma add_event_attendee_records db eid uid s :
  well_formed db ->
  records_of (add_event_attendee db eid uid s) eid uid = [mk_attendee eid uid s].
Proof.
  intros Hwf. rewrite records_of_alt.
  destruct (existsb (attendee_matches eid uid) (EventAttendees db)) eqn:Hex.
  - apply existsb_attendee in Hex as (a & Hin & Hk).
    destruct (add_event_attendee_existing db eid uid s a Hwf Hin Hk)
      as (l1 & l2 & _ & -> & Hother).
    apply Forall_app in Hother as [H1 H2].
    rewrite filter_app, filter_cons_True by done.
    by rewrite !filter_key_none.
  - rewrite add_event_attendee_new by (by apply records_of_nil).
    rewrite filter_app, filter_cons_True, filter_nil by done.
    apply records_of_nil in Hex. rewrite records_of_alt in Hex. by rewrite Hex.
Qed.

(** The rows of other pairs are the ones there were. *)
Lemma add_event_attendee_others db eid uid s eid' uid' :
  (eid', uid') <> (eid, uid) ->
  records_of (add_event_attendee db eid uid s) eid' uid' = records_of db eid' uid'.
Proof.
  intros Hne. rewrite !records_of_alt. unfold add_event_attendee; simpl.
  destruct (existsb _ _).
  - induction (EventAttendees db) as [|a l IH]; [done|].
    rewrite fmap_cons, !filter_cons, set_status_key, IH.
    destruct (decide (attendee_key a = (eid', uid'))) as [Hk|]; [|done].
    rewrite set_status_other; [done|]. by rewrite Hk.
  - rewrite filter_app, filter_cons_False, filter_nil, app_nil_r; [done|].
    simpl. unfold attendee_key; simpl. congruence.
Qed.

Lemma remove_event_attendee_records db eid uid :
  records_of (remove_event_attendee db eid uid) eid uid = [].
Proof.
  unfold records_of, remove_event_attendee; simpl.
  rewrite list_filter_filter. apply filter_none, Forall_forall. tauto.
Qed.

(** Deleting the rows of a pair that has none changes nothing. *)
Lemma remove_event_attendee_absent db eid uid :
  records_of db eid uid = [] -> remove_event_attendee db eid uid = db.
Proof.
  intros Hnil. destruct db as [us gs ms es ats].
  unfold remove_event_attendee, with_EventAttendees; simpl. f_equal.
  unfold records_of in Hnil; simpl in Hnil.
  induction ats as [|a l IH]; [done|].
  rewrite filter_cons in Hnil. rewrite filter_cons.
  destruct (decide (attendee_matches eid uid a)); [done|].
  rewrite decide_True by done. f_equal. by apply IH.
Qed.

Lemma remove_event_attendee_well_formed db eid uid :
  well_formed db -> well_formed (remove_event_attendee db eid uid).
Proof.
  intros [Ha Hm Hu]. split; [|done|done]. simpl.
  induction (EventAttendees db) as [|a l IH]; [done|].
  rewrite fmap_cons in Ha. apply NoDup_cons in Ha as [Hnotin Hnd].
  rewrite filter_cons. destruct (decide _); [|by apply IH].
  rewrite fmap_cons. apply NoDup_cons. split; [|by apply IH].
  intros Hin. apply Hnotin. apply list_elem_of_fmap in Hin as (b & -> & Hb).
  apply list_elem_of_filter in Hb as [_ Hb]. by apply list_elem_of_fmap_2.
Qed.

(** Membership in the list [get_event_attendees] returns. *)
Lemma elem_of_get_event_attendees db eid a :
  a ∈ get_event_attendees db eid <-> a ∈ EventAttendees db /\ listed db eid a.
Proof.
  unfold get_event_attendees, listed. rewrite list_elem_of_bind. split.
  - intros (b & Hin & Hb). case_bool_decide; [|by apply not_elem_of_nil in Hin].
    apply list_elem_of_fmap in Hin as (u & -> & Hu).
    apply list_elem_of_filter in Hu as [Hu Hin]. repeat split; [done..|].
    rewrite <- Hu. by apply list_elem_of_fmap_2.
  - intros (Hin & He & Hu). exists a. split; [|done].
    rewrite bool_decide_true by done.
    apply list_elem_of_fmap in Hu as (u & Hu & Hin').
    apply list_elem_of_fmap. exists u. split; [done|]. by apply list_elem_of_filter.
Qed.

Lemma filter_user_unique (us : list user_row) (uid : string) :
  NoDup (user_id <$> us) -> uid ∈ user_id <$> us ->
  exists u, filter (fun u => user_id u = uid) us = [u].
Proof.
  intros Hnd Hin. apply list_elem_of_fmap in Hin as (u & -> & Hin).
  destruct (keyed_split user_id us u Hnd Hin) as (l1 & l2 & -> & Hother).
  apply Forall_app in Hother as [H1 H2]. exists u.
  rewrite filter_app, filter_cons_True by done.
  by rewrite !filter_key_none.
Qed.

(** With unique user ids the join is a selection of attendee rows. *)
Lemma get_event_attendees_filter db eid :
  well_formed db ->
  get_event_attendees db eid = filter (listed db eid) (EventAttendees db).
Proof.
  intros Hwf. unfold get_event_attendees.
  induction (EventAttendees db) as [|a l IH]; [done|].
  rewrite bind_cons, IH, filter_cons.
  destruct (decide (listed db eid a)) as [[He Hu]|Hno].
  - rewrite bool_decide_true by done.
    by destruct (filter_user_unique _ _ (user_ids_unique _ Hwf) Hu) as (u & ->).
  - case_bool_decide as He; [|done].
    replace (filter _ (Users db)) with (@nil user_row); [done|].
    symmetry. apply filter_key_none, Forall_forall. intros u Hin Heq.
    apply Hno. split; [done|]. rewrite <- Heq. by apply list_elem_of_fmap_2.
Qed.

(** When every attendee is a user the store knows, the join returns the
    rows of the event. *)
Lemma get_event_attendees_known db eid :
  well_formed db ->
  Forall (fun a => attendee_user a ∈ user_id <$> Users db) (EventAttendees db) ->
  get_event_attendees db eid
  = filter (fun a => attendee_event a = eid) (EventAttendees db).
Proof.
  intros Hwf Hknown. rewrite get_event_attendees_filter by done.
  revert Hknown. generalize (EventAttendees db). intros l.
  induction 1 as [|a l Ha _ IH]; [done|].
  rewrite !filter_cons, IH.
  destruct (decide (attendee_event a = eid)) as [He|He].
  - by rewrite decide_True by (by split).
  - by rewrite decide_False by (intros [? _]; done).
Qed.

Lemma filter_listed_add db eid uid s eid' (l : list attendee_row) :
  filter (listed (add_event_attendee db eid uid s) eid') l = filter (listed db eid') l.
Proof. by apply list_filter_iff. Qed.

End DbFacts.

(** ** The argument parser *)

Module ParserFacts.
Import Py Parser Props.

(** The dictionary after a loop of insertions: the last insertion for a
    key decides its value. *)
Lemma fold_unquoted_lookup ms (m : gmap string string) k :
  fold_left unquoted_step ms m !! k
  = match last_value k ms with Some v => Some v | None => m !! k end.
Proof.
  revert m. induction ms as [|[k' v] ms IH]; intros m; simpl; [done|].
  rewrite IH. destruct (last_value k ms); [done|].
  unfold unquoted_step; simpl. case_bool_decide as Hk.
  - subst k. apply lookup_insert_eq.
  - by apply lookup_insert_ne.
Qed.

Lemma fold_quoted_args ms st :
  (fold_left quoted_step ms st).1 = fold_left unquoted_step ms st.1.
Proof. revert st. induction ms as [|m ms IH]; intros st; simpl; [done|]. by rewrite IH. Qed.

(** The result of the two passes, key by key. *)
Lemma parse_args_text_lookup text k :
  parse_args_text text !! k
  = match last_value k (finditer unquoted_at (quoted_pass text).2) with
    | Some u => Some u
    | None => last_value k (finditer quoted_at text)
    end.
Proof.
  unfold parse_args_text. rewrite fold_unquoted_lookup.
  destruct (last_value k (finditer unquoted_at _)); [done|].
  unfold quoted_pass. rewrite fold_quoted_args, fold_unquoted_lookup. simpl.
  by destruct (last_value k _).
Qed.

Lemma take_while_app p s c r :
  every p s = true -> p c = false -> take_while p (s +:+ String c r) = s.
Proof.
  intros Hs Hc. induction s as [|a s IH]; simpl in *; [by rewrite Hc|].
  apply andb_true_iff in Hs as [-> Hs]. by rewrite IH.
Qed.

Lemma drop_while_app p s c r :
  every p s = true -> p c = false -> drop_while p (s +:+ String c r) = String c r.
Proof.
  intros Hs Hc. induction s as [|a s IH]; simpl in *; [by rewrite Hc|].
  apply andb_true_iff in Hs as [-> Hs]. by rewrite IH.
Qed.

Lemma length_append (s t : string) :
  String.length (s +:+ t) = (String.length s + String.length t)%nat.
Proof. induction s as [|a s IH]; simpl; [done|]. by rewrite IH. Qed.

(** Nothing is found in the characters a match still covers. *)
Lemma finditer_from_short at_ n s :
  (String.length s <= n)%nat -> finditer_from at_ n s = [].
Proof.
  revert n. induction s as [|c s IH]; intros n Hn; simpl in *; [done|].
  destruct n as [|n]; [lia|]. apply IH. lia.
Qed.

Lemma delete_from_short old n s :
  (String.length s <= n)%nat -> delete_from old n s = EmptyString.
Proof.
  revert n. induction s as [|c s IH]; intros n Hn; simpl in *; [done|].
  destruct n as [|n]; [lia|]. apply IH. lia.
Qed.

Lemma startswith_refl s : startswith s s = true.
Proof. induction s as [|c s IH]; simpl; [done|]. by rewrite Ascii.eqb_refl. Qed.

Lemma word_not_space c : is_word c = true -> is_space c = false.
Proof. destruct c as [[] [] [] [] [] [] [] []]; vm_compute; congruence. Qed.

(** The quoted pattern matches a quoted token at its start, with the key
    and the value of the token. *)
Lemma quoted_at_token k v rest :
  is_empty k = false -> every is_word k = true ->
  every (fun c => negb (is_dquote c)) v = true ->
  quoted_at (k +:+ String "=" (String dquote (v +:+ String dquote rest)))
  = Some (k, v, (String.length k + 2 + String.length v + 1)%nat).
Proof.
  intros Hk Hw Hv. unfold quoted_at.
  rewrite take_while_app, drop_while_app by done. rewrite Hk.
  replace (is_equals "=" && is_dquote dquote) with true by done.
  rewrite take_while_app, drop_while_app by done. done.
Qed.

Lemma group0_length k v :
  String.length (group0 k v) = (String.length k + 2 + String.length v + 1)%nat.
Proof. unfold group0. rewrite length_append. simpl. rewrite length_append. simpl. lia. Qed.

Lemma finditer_quoted_token k v :
  is_empty k = false -> every is_word k = true ->
  every (fun c => negb (is_dquote c)) v = true ->
  finditer quoted_at (group0 k v) = [(k, v)].
Proof.
  intros Hk Hw Hv.
  pose proof (quoted_at_token k v EmptyString Hk Hw Hv) as Hat.
  pose proof (group0_length k v) as Hlen.
  fold (group0 k v) in Hat. unfold finditer.
  destruct (group0 k v) as [|c s] eqn:Hg.
  { destruct k; simpl in *; done. }
  simpl. rewrite Hat. f_equal. apply finditer_from_short. simpl in Hlen. lia.
Qed.

(** Deleting a token from itself leaves the empty text. *)
Lemma replace_token_by_itself k v :
  is_empty k = false ->
  replace_with_empty (group0 k v) (group0 k v) = EmptyString.
Proof.
  intros Hk. unfold replace_with_empty.
  destruct (group0 k v) as [|c s] eqn:Hg.
  { destruct k; simpl in *; done. }
  simpl. rewrite Ascii.eqb_refl, startswith_refl. simpl.
  apply delete_from_short. lia.
Qed.

Lemma parse_single_token k v :
  is_empty k = false -> every is_word k = true ->
  every (fun c => negb (is_dquote c)) v = true ->
  parse_args_text (group0 k v) = {[lower k := v]}.
Proof.
  intros Hk Hw Hv. unfold parse_args_text, quoted_pass.
  rewrite finditer_quoted_token by done. simpl.
  rewrite replace_token_by_itself by done. done.
Qed.

Lemma split_command_token cmd k v :
  is_empty cmd = false -> every (fun c => negb (is_space c)) cmd = true ->
  is_empty k = false -> every is_word k = true ->
  split_maxsplit1 (cmd +:+ String " " (group0 k v)) = [cmd; group0 k v].
Proof.
  intros Hc Hns Hk Hw. unfold split_maxsplit1.
  assert (drop_while is_space (cmd +:+ String " " (group0 k v))
          = cmd +:+ String " " (group0 k v)) as ->.
  { destruct cmd as [|c cmd]; [done|]. simpl in *.
    apply andb_true_iff in Hns as [Hc' _]. apply negb_true_iff in Hc'. by rewrite Hc'. }
  assert (is_empty (cmd +:+ String " " (group0 k v)) = false) as ->
    by (by destruct cmd).
  rewrite take_while_app, drop_while_app by done.
  assert (drop_while is_space (String " " (group0 k v)) = group0 k v) as ->.
  { destruct k as [|c k]; [done|]. simpl in *.
    apply andb_true_iff in Hw as [Hc' _]. by rewrite (word_not_space c). }
  by destruct k.
Qed.

End ParserFacts.

(** ** Confirming and unconfirming *)

Module RsvpFacts.
Import Py Parser Datetime Db Bot Events Groups Props DbFacts.

(** What [event_confirm] does once its three checks have passed. *)
Lemma event_confirm_after_checks ctx db event group :
  get_event_from_thread ctx db = Some event ->
  status event = approved ->
  get_group db (event_group event) = Some group ->
  is_group_member db (group_id group) (author ctx) = true ->
  (event_confirm ctx db).2
  = add_event_attendee db (event_id event) (author ctx)
      (if is_full event (with_status ATTENDING (get_event_attendees db (event_id event)))
       then WAITLIST else ATTENDING).
Proof.
  intros Hev Hst Hg Hm. unfold event_confirm.
  rewrite Hev, Hst, Hg, Hm. simpl.
  by destruct (is_full _ _).
Qed.

(** The capacity test holds when a cap other than zero is stored and
    the count has reached it. *)
Lemma is_full_spec event attending :
  is_full event attending = true
  <-> exists cap, max_attendees event = Some cap /\ cap <> 0
                  /\ cap <= Z.of_nat (length attending).
Proof.
  unfold is_full. destruct (max_attendees event) as [cap|].
  - rewrite andb_true_iff, negb_true_iff, Z.eqb_neq, Z.leb_le.
    split; [intros []; eauto | intros (c & [= <-] & ? & ?); done].
  - split; [done | intros (c & [=] & _)].
Qed.

(** Every row of the waitlist is a waitlisted row of the table that the
    join lists for the event. *)
Lemma waitlist_elem db eid a :
  a ∈ waitlist db eid ->
  a ∈ EventAttendees db /\ rsvp_status a = WAITLIST /\ listed db eid a.
Proof.
  unfold waitlist, with_status. rewrite list_elem_of_filter, elem_of_get_event_attendees.
  tauto.
Qed.

(** Promotion of the first waitlisted row: exactly that row changes. *)
Lemma promote_first db eid first rest :
  well_formed db ->
  waitlist db eid = first :: rest ->
  exists l1 l2,
    EventAttendees db = l1 ++ first :: l2
    /\ rsvp_status first = WAITLIST
    /\ listed db eid first
    /\ EventAttendees (add_event_attendee db eid (attendee_user first) ATTENDING)
       = l1 ++ mk_attendee eid (attendee_user first) ATTENDING :: l2
    /\ Forall (fun b => attendee_key b <> (eid, attendee_user first)) (l1 ++ l2).
Proof.
  intros Hwf Hw.
  assert (first ∈ waitlist db eid) as Hin by (rewrite Hw; apply list_elem_of_here).
  apply waitlist_elem in Hin as (Hin & Hs & He & Hu).
  destruct (add_event_attendee_existing db eid (attendee_user first) ATTENDING first)
    as (l1 & l2 & Hl & Hl' & Hother); [done|done|by unfold attendee_key; rewrite He|].
  exists l1, l2. done.
Qed.

(** [event_unconfirm] in an event thread. *)
Lemma event_unconfirm_unfold ctx db event :
  get_event_from_thread ctx db = Some event ->
  let eid := event_id event in
  let db1 := remove_event_attendee db eid (author ctx) in
  event_unconfirm ctx db
  = match waitlist db1 eid with
    | first :: _ =>
        let db2 := add_event_attendee db1 eid (attendee_user first) ATTENDING in
        (Replied [MovedFromWaitlist (attendee_user first); NoLongerAttending;
                  EventEmbed (get_event_attendees db2 eid)], db2)
    | [] => (Replied [NoLongerAttending; EventEmbed (get_event_attendees db1 eid)], db1)
    end.
Proof. intros Hev. unfold event_unconfirm. by rewrite Hev. Qed.

(** In an event thread [event_unconfirm] reports no failure, whoever
    asks and whatever the state of the event. *)
Lemma event_unconfirm_succeeds ctx db event :
  get_event_from_thread ctx db = Some event ->
  succeeds (event_unconfirm ctx db).1.
Proof.
  intros Hev. rewrite (event_unconfirm_unfold ctx db event Hev).
  destruct (waitlist _ _); eexists; (split; [done|]); by repeat constructor.
Qed.

(** Promotion makes the count of attending members one larger. *)
Lemma promote_first_count db eid first rest :
  well_formed db ->
  waitlist db eid = first :: rest ->
  attending_count (add_event_attendee db eid (attendee_user first) ATTENDING) eid
  = S (attending_count db eid).
Proof.
  intros Hwf Hw.
  destruct (promote_first db eid first rest Hwf Hw)
    as (l1 & l2 & Hl & Hs & [He Hu] & Hl' & _).
  unfold attending_count, with_status.
  rewrite !get_event_attendees_filter
    by (done || by apply add_event_attendee_well_formed).
  rewrite Hl', Hl. rewrite !filter_app, !length_app.
  rewrite (filter_cons_True (listed _ _) (mk_attendee _ _ _)) by done.
  rewrite (filter_cons_True (listed _ _) first) by done.
  rewrite filter_cons_True by done. rewrite filter_cons_False by (rewrite Hs; done).
  rewrite !filter_listed_add. simpl. lia.
Qed.

(** A first record for a user the store knows adds one to the count of
    attending members. *)
Lemma first_attendance_count db eid uid :
  well_formed db ->
  records_of db eid uid = [] -> uid ∈ user_id <$> Users db ->
  attending_count (add_event_attendee db eid uid ATTENDING) eid
  = S (attending_count db eid).
Proof.
  intros Hwf Hnone Hu. unfold attending_count, with_status.
  rewrite !get_event_attendees_filter
    by (done || by apply add_event_attendee_well_formed).
  rewrite add_event_attendee_new by done.
  rewrite filter_app, filter_listed_add, filter_cons_True by done.
  rewrite filter_nil, filter_app, filter_cons_True, length_app by done.
  simpl. lia.
Qed.

(** A member without a record who confirms when one place is left
    takes it; confirming again, the member is counted among the
    attending members and moved to the waitlist. *)
Lemma confirm_twice_on_last_place ctx db event group cap :
  well_formed db ->
  get_event_from_thread ctx db = Some event ->
  status event = approved ->
  get_group db (event_group event) = Some group ->
  is_group_member db (group_id group) (author ctx) = true ->
  records_of db (event_id event) (author ctx) = [] ->
  author ctx ∈ user_id <$> Users db ->
  max_attendees event = Some cap ->
  Z.of_nat (attending_count db (event_id event)) + 1 = cap ->
  let eid := event_id event in
  let once := (event_confirm ctx db).2 in
  records_of once eid (author ctx) = [mk_attendee eid (author ctx) ATTENDING]
  /\ records_of (event_confirm ctx once).2 eid (author ctx)
     = [mk_attendee eid (author ctx) WAITLIST].
Proof.
  intros Hwf Hev Hst Hg Hm Hnone Hu Hcap Hlast eid once.
  assert (once = add_event_attendee db eid (author ctx) ATTENDING) as Honce.
  { subst once. rewrite (event_confirm_after_checks ctx db event group) by done.
    destruct (is_full _ _) eqn:Hf; [|done].
    apply is_full_spec in Hf as (c & Hc & _ & Hle).
    rewrite Hcap in Hc. injection Hc as <-.
    fold (attending_count db (event_id event)) in Hle. lia. }
  clearbody once. subst once.
  assert (well_formed (add_event_attendee db eid (author ctx) ATTENDING)) as Hwf1
    by (by apply add_event_attendee_well_formed).
  split; [by apply add_event_attendee_records|].
  rewrite (event_confirm_after_checks ctx _ event group) by done.
  rewrite add_event_attendee_records by done.
  replace (is_full _ _) with true; [done|].
  symmetry. apply is_full_spec. exists cap. split; [done|].
  fold eid.
  fold (attending_count (add_event_attendee db eid (author ctx) ATTENDING) eid).
  rewrite first_attendance_count by done. subst eid. split; lia.
Qed.

(** Recording a user as attending adds at most one to the count of
    attending members. *)
Lemma attendance_count_bound db eid uid :
  well_formed db ->
  (attending_count (add_event_attendee db eid uid ATTENDING) eid
   <= S (attending_count db eid))%nat.
Proof.
  intros Hwf. unfold attending_count, with_status.
  rewrite !get_event_attendees_filter
    by (done || by apply add_event_attendee_well_formed).
  destruct (existsb (attendee_matches eid uid) (EventAttendees db)) eqn:Hex.
  - apply existsb_attendee in Hex as (a & Hin & Hk).
    destruct (add_event_attendee_existing db eid uid ATTENDING a Hwf Hin Hk)
      as (l1 & l2 & -> & -> & _).
    rewrite !filter_app, !filter_cons, !filter_listed_add.
    repeat (case_decide; simpl); rewrite ?filter_app, ?filter_cons, ?length_app;
      repeat (case_decide; simpl); rewrite ?length_app; simpl; lia.
  - apply records_of_nil in Hex. rewrite add_event_attendee_new by done.
    rewrite filter_app, filter_listed_add, filter_cons, filter_nil.
    case_decide; rewrite ?app_nil_r; [|lia].
    rewrite filter_app, length_app, filter_cons, filter_nil.
    case_decide; simpl; lia.
Qed.

(** Confirming twice leaves the one record with status [ATTENDING] when
    the event has no cap, a cap of zero, or room for one more than the
    members attending before the first call. *)
Lemma confirm_twice_with_room ctx db event group :
  well_formed db ->
  get_event_from_thread ctx db = Some event ->
  status event = approved ->
  get_group db (event_group event) = Some group ->
  is_group_member db (group_id group) (author ctx) = true ->
  max_attendees event = None \/ max_attendees event = Some 0
    \/ (exists cap, max_attendees event = Some cap
                    /\ Z.of_nat (attending_count db (event_id event)) + 1 < cap) ->
  let eid := event_id event in
  let once := (event_confirm ctx db).2 in
  records_of once eid (author ctx) = [mk_attendee eid (author ctx) ATTENDING]
  /\ records_of (event_confirm ctx once).2 eid (author ctx)
     = [mk_attendee eid (author ctx) ATTENDING].
Proof.
  intros Hwf Hev Hst Hg Hm Hroom eid once.
  assert (once = add_event_attendee db eid (author ctx) ATTENDING) as Honce.
  { subst once. rewrite (event_confirm_after_checks ctx db event group) by done.
    destruct (is_full _ _) eqn:Hf; [|done].
    apply is_full_spec in Hf as (c & Hc & Hnz & Hle).
    fold (attending_count db (event_id event)) in Hle.
    destruct Hroom as [Hn|[Hz|(cap & Hcap & Hlt)]]; [congruence..|].
    rewrite Hcap in Hc. injection Hc as <-. lia. }
  clearbody once. subst once.
  assert (well_formed (add_event_attendee db eid (author ctx) ATTENDING)) as Hwf1
    by (by apply add_event_attendee_well_formed).
  split; [by apply add_event_attendee_records|].
  rewrite (event_confirm_after_checks ctx _ event group) by done.
  rewrite add_event_attendee_records by done.
  destruct (is_full _ _) eqn:Hf; [|done].
  apply is_full_spec in Hf as (c & Hc & Hnz & Hle).
  fold eid in Hle.
  fold (attending_count (add_event_attendee db eid (author ctx) ATTENDING) eid) in Hle.
  pose proof (attendance_count_bound db eid (author ctx) Hwf) as Hbound.
  destruct Hroom as [Hn|[Hz|(cap & Hcap & Hlt)]]; [congruence..|].
  rewrite Hcap in Hc. injection Hc as <-. subst eid. lia.
Qed.

End RsvpFacts.

(** ** Leaving a group *)

Module GroupFacts.
Import Py Parser Datetime Db Bot Events Groups Props DbFacts.

Lemma is_group_leader_row db gid uid :
  is_group_leader db gid uid = true
  <-> exists m, m ∈ GroupMembers db /\ member_key m = (gid, uid) /\ is_leader m = true.
Proof.
  unfold is_group_leader. rewrite existsb_exists. split.
  - intros (m & Hin & Hm). apply andb_true_iff in Hm as [Hm Hl].
    exists m. split; [by apply list_elem_of_In|]. split; [|done].
    apply member_matches_key. by rewrite Hm.
  - intros (m & Hin & Hk & Hl). exists m. split; [by apply list_elem_of_In|].
    apply member_matches_key, Is_true_true in Hk. by rewrite Hk, Hl.
Qed.

Lemma is_group_leader_member db gid uid :
  is_group_leader db gid uid = true -> is_group_member db gid uid = true.
Proof.
  rewrite is_group_leader_row. intros (m & Hin & Hk & _).
  unfold is_group_member. apply existsb_exists. exists m.
  split; [by apply list_elem_of_In|]. by apply Is_true_true, member_matches_key.
Qed.

(** A leader who leaves takes exactly one row out of the table, a
    leader's row of the group. *)
Lemma remove_leader db gid uid :
  well_formed db -> is_group_leader db gid uid = true ->
  is_group_member (remove_group_member db gid uid) gid uid = false
  /\ S (leader_count (remove_group_member db gid uid) gid) = leader_count db gid.
Proof.
  intros Hwf Hl. apply is_group_leader_row in Hl as (m & Hin & Hk & Hl).
  destruct (keyed_split member_key _ m (member_keys_unique _ Hwf) Hin)
    as (l1 & l2 & Hsplit & Hother).
  rewrite Hk in Hother.
  assert (GroupMembers (remove_group_member db gid uid) = l1 ++ l2) as Hrem.
  { unfold remove_group_member; simpl. rewrite Hsplit.
    apply Forall_app in Hother as [H1 H2].
    rewrite filter_app, filter_cons_False
      by (intros Hn; apply Hn, member_matches_key, Hk).
    rewrite !filter_all; [done| |].
    - eapply Forall_impl; [exact H2|]. intros b Hb Hm. by apply Hb, member_matches_key.
    - eapply Forall_impl; [exact H1|]. intros b Hb Hm. by apply Hb, member_matches_key. }
  split.
  - unfold is_group_member. rewrite Hrem. apply not_true_iff_false.
    rewrite existsb_exists. intros (b & Hb & Hm).
    apply list_elem_of_In in Hb. rewrite Forall_forall in Hother.
    apply (Hother b Hb). apply member_matches_key. by rewrite Hm.
  - unfold leader_count, group_leaders. rewrite Hrem, Hsplit.
    rewrite !filter_app, filter_cons_True, !length_app; [simpl; lia|].
    split; [|done]. unfold member_key in Hk. congruence.
Qed.

(** A member who is not a leader leaves the leaders as they are. *)
Lemma remove_non_leader db gid uid :
  is_group_leader db gid uid = false ->
  group_leaders (remove_group_member db gid uid) gid = group_leaders db gid.
Proof.
  intros Hl. unfold group_leaders, remove_group_member; simpl.
  assert (Forall (fun m => member_matches gid uid m -> is_leader m = false)
            (GroupMembers db)) as Hrows.
  { apply Forall_forall. intros m Hin Hm.
    destruct (is_leader m) eqn:Hlead; [|done].
    apply not_true_iff_false in Hl. exfalso. apply Hl.
    apply is_group_leader_row. exists m. split; [done|].
    split; [by apply member_matches_key|done]. }
  revert Hrows. generalize (GroupMembers db). intros l.
  induction 1 as [|m l Hm _ IH]; [done|].
  rewrite !filter_cons.
  destruct (decide (¬ member_matches gid uid m)) as [Hno|Hyes].
  - by rewrite filter_cons, IH.
  - rewrite IH. rewrite decide_False; [done|].
    intros [_ Hlead]. apply dec_stable in Hyes. by rewrite Hm in Hlead.
Qed.

(** A leader's row counts among the leaders. *)
Lemma leader_counted db gid uid :
  is_group_leader db gid uid = true -> (1 <= leader_count db gid)%nat.
Proof.
  rewrite is_group_leader_row. intros (m & Hin & Hk & Hl).
  assert (m ∈ group_leaders db gid) as Hm.
  { apply list_elem_of_filter. split; [|done]. split; [|done].
    unfold member_key in Hk. congruence. }
  unfold leader_count. destruct (group_leaders db gid); [|simpl; lia].
  by apply not_elem_of_nil in Hm.
Qed.

End GroupFacts.

(** ** Changing the host *)

Module HostFacts.
Import Py Parser Datetime Db Bot Events Groups Props DbFacts.

(** [update_event] with the one key [host_id] rewrites the host of the
    rows of the event and nothing else. *)
Lemma update_event_host db eid h :
  update_event db eid (host_update h)
  = (true, with_Events db
             ((fun e => if bool_decide (event_id e = eid) then with_host h e else e)
                <$> Events db)).
Proof. done. Qed.

End HostFacts.

(** ** Dates of events *)

Module DateFacts.
Import Py Parser Datetime Db Bot Events Groups Props DbFacts.

Lemma ltb_irrefl d : ltb d d = false.
Proof. unfold ltb, compare. by rewrite !Z.compare_refl. Qed.

(** A date and a time that read as an instant before the clock make
    [event_create] end in one failure message, whatever else the
    message holds, and nothing is stored. *)
Lemma event_create_in_the_past ctx now thread db dt :
  let args := parse_command_args (content ctx) in
  strptime_date_time (item args "date" +:+ " " +:+ item args "time") = Some dt ->
  ltb dt now = true ->
  let res := event_create ctx now thread db in
  res.2 = db /\ exists r f, res.1 = Replied [r] /\ failure_of r = Some f.
Proof.
  intros args Hdt Hlt res. subst res args. unfold event_create.
  destruct (get_group_from_channel ctx db) as [group|]; [|by eauto].
  destruct (_ && _); [by eauto|].
  destruct (negb (given _ "name")); [by eauto|].
  destruct (_ || _); [by eauto|].
  rewrite Hdt, Hlt. by eauto.
Qed.

(** With the group found, the right to create and the three mandatory
    arguments given, that failure is the one of the date check. *)
Lemma event_create_past_invalid ctx now thread db group dt :
  let args := parse_command_args (content ctx) in
  get_group_from_channel ctx db = Some group ->
  new_members_can_create_events group = true
    \/ is_group_leader db (group_id group) (author ctx) = true ->
  given args "name" = true -> given args "date" = true -> given args "time" = true ->
  strptime_date_time (item args "date" +:+ " " +:+ item args "time") = Some dt ->
  ltb dt now = true ->
  event_create ctx now thread db = (Replied [MustBeInTheFuture], db).
Proof.
  intros args Hg Hperm Hn Hd Ht Hdt Hlt. subst args. unfold event_create.
  rewrite Hg.
  replace (negb (new_members_can_create_events group) && _) with false
    by (destruct Hperm as [-> | ->]; by rewrite ?andb_false_r).
  rewrite Hn, Hd, Ht. simpl. by rewrite Hdt, Hlt.
Qed.

(** A [date] argument alone replaces the date and keeps the time of day
    of the stored instant. *)
Lemma merge_date_only args current merged :
  args !! "time" = None ->
  merge_date args current ≫= merge_time args = Some merged ->
  hour merged = hour current /\ minute merged = minute current
  /\ second merged = second current /\ microsecond merged = microsecond current
  /\ forall s, args !! "date" = Some s ->
       exists d, strptime_date s = Some d
         /\ year merged = year d /\ month merged = month d /\ day merged = day d.
Proof.
  intros Ht. unfold merge_date, merge_time. rewrite Ht.
  destruct (args !! "date") as [s|] eqn:Hd; simpl.
  - destruct (strptime_date s) as [d|] eqn:Hp; simpl; [|done].
    intros [= <-]. do 4 (split; [done|]). intros s' [= <-]. by exists d.
  - intros [= <-]. by do 4 (split; [done|]).
Qed.

(** A [time] argument alone replaces hour and minute and keeps the date
    of the stored instant, with its seconds. *)
Lemma merge_time_only args current merged :
  args !! "date" = None ->
  merge_date args current ≫= merge_time args = Some merged ->
  year merged = year current /\ month merged = month current
  /\ day merged = day current
  /\ second merged = second current /\ microsecond merged = microsecond current
  /\ forall s, args !! "time" = Some s ->
       exists t, strptime_time s = Some t
         /\ hour merged = hour t /\ minute merged = minute t.
Proof.
  intros Hd. unfold merge_date, merge_time. rewrite Hd. simpl.
  destruct (args !! "time") as [s|] eqn:Ht; simpl.
  - destruct (strptime_time s) as [t|] eqn:Hp; simpl; [|done].
    intros [= <-]. do 5 (split; [done|]). intros s' [= <-]. by exists t.
  - intros [= <-]. by do 5 (split; [done|]).
Qed.

(** [event_modify] up to the parsing of the arguments. *)
Lemma event_modify_permitted ctx now db event group :
  get_event_from_thread ctx db = Some event ->
  get_group db (event_group event) = Some group ->
  author ctx = host_id event
    \/ is_group_leader db (group_id group) (author ctx) = true ->
  let args := parse_command_args (content ctx) in
  event_modify ctx now db
  = if bool_decide (args = ∅) then (Replied [NoSettingsGiven], db)
    else match args !! "max" with
         | Some s =>
             match int s with
             | None => (Replied [MaxMustBeNumber], db)
             | Some n => modify_date_time event args now (put_max (text_updates args) n) db
             end
         | None => modify_date_time event args now (text_updates args) db
         end.
Proof.
  intros Hev Hg Hperm args. subst args. unfold event_modify. rewrite Hev, Hg.
  replace (bool_decide (author ctx ≠ host_id event) && _) with false; [done|].
  destruct Hperm as [-> | ->]; [|by rewrite andb_false_r].
  by rewrite bool_decide_false by (intros H; by apply H).
Qed.

(** A [max] argument that is not a number ends [event_modify] with that
    failure before anything is written, whatever the other arguments. *)
Lemma event_modify_bad_number ctx now db event group s :
  get_event_from_thread ctx db = Some event ->
  get_group db (event_group event) = Some group ->
  author ctx = host_id event
    \/ is_group_leader db (group_id group) (author ctx) = true ->
  parse_command_args (content ctx) !! "max" = Some s ->
  int s = None ->
  event_modify ctx now db = (Replied [MaxMustBeNumber], db).
Proof.
  intros Hev Hg Hperm Hmax Hint.
  rewrite (event_modify_permitted ctx now db event group) by done.
  rewrite bool_decide_false by (intros Hempty; by rewrite Hempty in Hmax).
  by rewrite Hmax, Hint.
Qed.

Lemma has_keys_put_date_time u d : has_keys (put_date_time u d) = true.
Proof. by apply bool_decide_eq_true_2. Qed.

(** The date block of [event_modify] checks the merged instant: one
    that is before the clock is refused and nothing is written; any
    other is written to the rows of the event. *)
Lemma modify_date_time_checks_merged event args now u db merged :
  has args "date" || has args "time" = true ->
  merge_date args (date_time event) ≫= merge_time args = Some merged ->
  modify_date_time event args now u db
  = if ltb merged now then (Replied [MustBeInTheFuture], db)
    else
      let db1 := with_Events db
        ((fun e => if bool_decide (event_id e = event_id event)
                   then apply_update (put_date_time u merged) e else e)
           <$> Events db) in
      (Replied [EventUpdated (get_event_attendees db1 (event_id event))], db1).
Proof.
  intros Hhas Hm. unfold modify_date_time. rewrite Hhas, Hm.
  destruct (ltb merged now); [done|].
  unfold finish_modify, update_event. by rewrite has_keys_put_date_time.
Qed.

End DateFacts.

(** ** Arguments that make a handler raise *)

Module RaiseFacts.
Import Py Parser Datetime Db Bot Events Groups Props DbFacts.

(** A [max] argument that is not a number, on a request that passes
    every check before it, takes [event_create] out by [ValueError]. *)
Lemma event_create_bad_number ctx now thread db group dt :
  let args := parse_command_args (content ctx) in
  get_group_from_channel ctx db = Some group ->
  new_members_can_create_events group = true
    \/ is_group_leader db (group_id group) (author ctx) = true ->
  given args "name" = true -> given args "date" = true -> given args "time" = true ->
  strptime_date_time (item args "date" +:+ " " +:+ item args "time") = Some dt ->
  ltb dt now = false ->
  given args "max" = true -> int (item args "max") = None ->
  event_create ctx now thread db = (Raised ValueError, db).
Proof.
  intros args Hg Hperm Hn Hd Ht Hdt Hlt Hmax Hint. subst args. unfold event_create.
  rewrite Hg.
  replace (negb (new_members_can_create_events group) && _) with false
    by (destruct Hperm as [-> | ->]; by rewrite ?andb_false_r).
  rewrite Hn, Hd, Ht. simpl. by rewrite Hdt, Hlt, Hmax, Hint.
Qed.

(** A [user] argument without a digit, on a request by the host or a
    leader, takes [event_change_host] out by [IndexError]. *)
Lemma event_change_host_no_digit ctx db event group :
  let args := parse_command_args (content ctx) in
  get_event_from_thread ctx db = Some event ->
  get_group db (event_group event) = Some group ->
  author ctx = host_id event
    \/ is_group_leader db (group_id group) (author ctx) = true ->
  given args "user" = true -> first_digit_run (item args "user") = None ->
  event_change_host ctx db = (Raised IndexError, db).
Proof.
  intros args Hev Hg Hperm Hu Hnone. subst args. unfold event_change_host.
  rewrite Hev, Hg.
  replace (bool_decide (author ctx ≠ host_id event) && _) with false.
  - by rewrite Hu, Hnone.
  - destruct Hperm as [-> | ->]; [|by rewrite andb_false_r].
    by rewrite bool_decide_false by (intros H; by apply H).
Qed.

(** A [contributor_events_required] argument that is not a number, on
    a request by an administrator for a new name, takes [group_create]
    out by [ValueError] once the channel exists. *)
Lemma group_create_bad_number ctx admin_ids ch welcomed db :
  let args := parse_command_args (content ctx) in
  author ctx ∈ admin_ids ->
  given args "name" = true ->
  get_group_by_name db (item args "name") = None ->
  given args "contributor_events_required" = true ->
  int (item args "contributor_events_required") = None ->
  group_create ctx admin_ids (Some ch) welcomed db = (Raised ValueError, db).
Proof.
  intros args Hadmin Hn Hfree Hreq Hint. subst args. unfold group_create.
  rewrite bool_decide_true by done. simpl.
  by rewrite Hn, Hfree, Hreq, Hint.
Qed.

End RaiseFacts.

(** ** Counting records *)

Module CountFacts.
Import Py Parser Datetime Db Bot Events Groups Props Terms DbFacts.

(** When the users of the rows of an event all have a row in [Users],
    the join returns the rows of the event. *)
Lemma retrieved_when_known db eid :
  well_formed db -> attendees_known db eid ->
  get_event_attendees db eid
  = filter (fun a => attendee_event a = eid) (EventAttendees db).
Proof.
  intros Hwf Hknown. rewrite get_event_attendees_filter by done.
  apply filter_iff_in. intros a Ha. unfold listed.
  unfold attendees_known in Hknown. rewrite Forall_forall in Hknown.
  split; [tauto|]. intros He. split; [done|]. by apply Hknown.
Qed.

Lemma attending_count_records db eid :
  well_formed db -> attendees_known db eid ->
  attending_count db eid = attending_records db eid.
Proof.
  intros Hwf Hknown. unfold attending_count, with_status, attending_records.
  rewrite retrieved_when_known, list_filter_filter by done.
  f_equal. apply list_filter_iff. tauto.
Qed.

End CountFacts.

(** ** Command lines *)

Module LineFacts.
Import Py Parser Props Lines ParserFacts.

(** *** Characters *)

Lemma word_char c :
  is_word c = true -> is_space c = false /\ is_equals c = false /\ is_dquote c = false.
Proof. destruct c as [[] [] [] [] [] [] [] []]; vm_compute; intuition congruence. Qed.

Lemma word_is_plain c : is_word c = true -> is_plain c = true.
Proof. intros (Hs & He & Hq)%word_char. unfold is_plain. by rewrite Hs, He, Hq. Qed.

Lemma eqb_equals c : Ascii.eqb "=" c = is_equals c.
Proof. destruct c as [[] [] [] [] [] [] [] []]; vm_compute; reflexivity. Qed.

Lemma eqb_dquote c : Ascii.eqb dquote c = is_dquote c.
Proof. destruct c as [[] [] [] [] [] [] [] []]; vm_compute; reflexivity. Qed.

Lemma eqb_word_other a c : is_word a = true -> is_word c = false -> Ascii.eqb a c = false.
Proof.
  intros Ha Hc. destruct (Ascii.eqb a c) eqn:E; [|done].
  apply Ascii.eqb_eq in E. congruence.
Qed.

(** *** Texts *)

Lemma append_cons x (a b : string) : String x a +:+ b = String x (a +:+ b).
Proof. reflexivity. Qed.

Lemma append_nil (b : string) : EmptyString +:+ b = b.
Proof. reflexivity. Qed.

Lemma append_assoc (a b c : string) : (a +:+ b) +:+ c = a +:+ (b +:+ c).
Proof.
  induction a as [|x a IH]; [done|]. by rewrite !append_cons, IH.
Qed.

Lemma append_empty (a : string) : a +:+ EmptyString = a.
Proof. induction a as [|x a IH]; [done|]. by rewrite append_cons, IH. Qed.

Lemma every_impl (p q : ascii -> bool) s :
  (forall c, p c = true -> q c = true) -> every p s = true -> every q s = true.
Proof.
  intros Hpq. induction s as [|c s IH]; simpl; [done|].
  intros [Hc Hs]%andb_true_iff. by rewrite (Hpq c Hc), IH.
Qed.

Lemma take_while_all p s : every p s = true -> take_while p s = s.
Proof.
  induction s as [|c s IH]; simpl; [done|].
  intros [-> Hs]%andb_true_iff. by rewrite IH.
Qed.

Lemma drop_while_all p s : every p s = true -> drop_while p s = EmptyString.
Proof.
  induction s as [|c s IH]; simpl; [done|].
  intros [-> Hs]%andb_true_iff. by rewrite IH.
Qed.

(** What follows an item on a line is the end of the text or a blank. *)
Lemma follow_cases rest :
  follow rest = EmptyString \/ exists t, follow rest = String " " t.
Proof. destruct rest as [|it rest]; simpl; eauto. Qed.

(** *** Passing over a match *)

Lemma finditer_from_skip at_ s t :
  finditer_from at_ (String.length s) (s +:+ t) = finditer_from at_ O t.
Proof.
  induction s as [|c s IH]; [by destruct t|].
  rewrite append_cons. exact IH.
Qed.

Lemma delete_from_skip old s t :
  delete_from old (String.length s) (s +:+ t) = delete_from old O t.
Proof.
  induction s as [|c s IH]; [by destruct t|].
  rewrite append_cons. exact IH.
Qed.

Lemma every_append p s t : every p (s +:+ t) = every p s && every p t.
Proof.
  induction s as [|c s IH]; [done|]. rewrite append_cons. simpl.
  by rewrite IH, andb_assoc.
Qed.

Lemma group0_append k v t :
  group0 k v +:+ t = k +:+ String "=" (String dquote (v +:+ String dquote t)).
Proof.
  unfold group0. rewrite append_assoc, !append_cons, append_assoc, append_cons.
  by rewrite append_nil.
Qed.

Lemma group0_cons c k v : group0 (String c k) v = String c (group0 k v).
Proof. reflexivity. Qed.

(** The text of a well-formed item that is no quoted pair holds no
    double quote. *)
Lemma seg_no_dquote it :
  settled it = true -> (forall k v, it <> Quoted k v) ->
  every (fun c => negb (is_dquote c)) (seg it) = true.
Proof.
  destruct it as [w|k v|k v]; simpl; intros Hwf Hq.
  - eapply every_impl; [|exact Hwf]. unfold is_plain. intros c.
    rewrite !andb_true_iff. tauto.
  - apply andb_true_iff in Hwf as [[[_ Hk]%andb_true_iff _]%andb_true_iff Hv].
    rewrite every_append. simpl. apply andb_true_iff. split.
    + eapply every_impl; [|exact Hk]. intros c (_ & _ & ->)%word_char. done.
    + eapply every_impl; [|exact Hv]. unfold is_bare. intros c.
      rewrite !andb_true_iff. tauto.
  - by destruct (Hq k v).
Qed.

Lemma well_formed_settled it : well_formed_item it = true -> settled it = true.
Proof.
  destruct it as [w|k v|k v]; simpl; [|done..].
  by intros [_ ?]%andb_true_iff.
Qed.

(** *** The quoted pattern on a line *)

Lemma after_key_quiet s t :
  every (fun c => negb (is_dquote c)) s = true ->
  t = EmptyString \/ (exists t', t = String " " t') ->
  match drop_while is_word (s +:+ t) with
  | String e (String q r) => is_equals e && is_dquote q = false
  | _ => True
  end.
Proof.
  intros Hs Ht. induction s as [|c s IH].
  - rewrite append_nil. destruct Ht as [->|[t' ->]]; [done|].
    simpl. by destruct t'.
  - rewrite append_cons. simpl in *. apply andb_true_iff in Hs as [Hc Hs].
    destruct (is_word c); [by apply IH|].
    destruct s as [|q s].
    + rewrite append_nil. destruct Ht as [->|[t' ->]]; [done|].
      by rewrite andb_false_r.
    + rewrite append_cons. simpl in Hs. apply andb_true_iff in Hs as [Hq _].
      apply negb_true_iff in Hq. by rewrite Hq, andb_false_r.
Qed.

Lemma quoted_at_quiet s rest :
  every (fun c => negb (is_dquote c)) s = true ->
  quoted_at (s +:+ follow rest) = None.
Proof.
  intros Hs. unfold quoted_at.
  destruct (is_empty _); [done|].
  pose proof (after_key_quiet s (follow rest) Hs (follow_cases rest)) as H.
  destruct (drop_while _ _) as [|e [|q r]]; [done..|]. by rewrite H.
Qed.

Lemma finditer_quoted_quiet s rest :
  every (fun c => negb (is_dquote c)) s = true ->
  finditer_from quoted_at O (s +:+ follow rest) = finditer_from quoted_at O (follow rest).
Proof.
  intros Hs. induction s as [|c s IH]; [done|].
  pose proof (quoted_at_quiet (String c s) rest Hs) as Hnone.
  rewrite append_cons in *. simpl in Hs. apply andb_true_iff in Hs as [_ Hs].
  simpl. rewrite Hnone. by apply IH.
Qed.

Lemma finditer_quoted_blank t :
  finditer_from quoted_at O (String " " t) = finditer_from quoted_at O t.
Proof. done. Qed.

Lemma finditer_quoted_pair k v t :
  is_empty k = false -> every is_word k = true ->
  every (fun c => negb (is_dquote c)) v = true ->
  finditer_from quoted_at O (group0 k v +:+ t) = (k, v) :: finditer_from quoted_at O t.
Proof.
  intros Hk Hw Hv.
  pose proof (quoted_at_token k v t Hk Hw Hv) as Hat.
  rewrite <- group0_append in Hat.
  pose proof (group0_length k v) as Hlen.
  destruct k as [|c k]; [done|].
  rewrite group0_cons, append_cons in *. simpl. rewrite Hat. f_equal.
  simpl in Hlen. injection Hlen as Hlen.
  match goal with
  | |- finditer_from _ ?n _ = _ =>
      replace n with (String.length (group0 k v)) by (simpl; lia)
  end.
  apply finditer_from_skip.
Qed.

Lemma finditer_quoted_item it rest :
  settled it = true ->
  finditer_from quoted_at O (seg it +:+ follow rest)
  = quoted_pairs [it] ++ finditer_from quoted_at O (follow rest).
Proof.
  intros Hwf. destruct it as [w|k v|k v].
  - apply finditer_quoted_quiet. by apply (seg_no_dquote (Word w)).
  - apply finditer_quoted_quiet. by apply (seg_no_dquote (Unquoted k v)).
  - simpl in Hwf.
    apply andb_true_iff in Hwf as [[[Hk Hw]%andb_true_iff Hv]%andb_true_iff _].
    apply negb_true_iff in Hk. by apply finditer_quoted_pair.
Qed.

Lemma finditer_quoted_follow items :
  Forall (fun it => settled it = true) items ->
  finditer_from quoted_at O (follow items) = quoted_pairs items.
Proof.
  induction 1 as [|it rest Hit _ IH]; [done|].
  simpl follow. rewrite finditer_quoted_blank, finditer_quoted_item by done.
  rewrite IH. by destruct it.
Qed.

Lemma finditer_quoted_render items :
  Forall (fun it => settled it = true) items ->
  finditer quoted_at (render items) = quoted_pairs items.
Proof.
  intros Hall. destruct items as [|it rest]; [done|].
  apply Forall_cons in Hall as [Hit Hrest]. unfold finditer. simpl render.
  rewrite finditer_quoted_item, finditer_quoted_follow by done. by destruct it.
Qed.

(** *** The unquoted pattern on what the deletions leave *)

Lemma after_key_no_equals s t :
  every (fun c => negb (is_equals c)) s = true ->
  t = EmptyString \/ (exists t', t = String " " t') ->
  match drop_while is_word (s +:+ t) with
  | String e r => is_equals e = false
  | EmptyString => True
  end.
Proof.
  intros Hs Ht. induction s as [|c s IH].
  - rewrite append_nil. by destruct Ht as [->|[t' ->]].
  - rewrite append_cons. simpl in *. apply andb_true_iff in Hs as [Hc Hs].
    destruct (is_word c); [by apply IH|]. by apply negb_true_iff.
Qed.

Lemma unquoted_at_quiet s rest :
  every (fun c => negb (is_equals c)) s = true ->
  unquoted_at (s +:+ follow rest) = None.
Proof.
  intros Hs. unfold unquoted_at.
  destruct (is_empty _); [done|].
  pose proof (after_key_no_equals s (follow rest) Hs (follow_cases rest)) as H.
  destruct (drop_while _ _) as [|e r]; [done|]. by rewrite H.
Qed.

Lemma finditer_unquoted_quiet s rest :
  every (fun c => negb (is_equals c)) s = true ->
  finditer_from unquoted_at O (s +:+ follow rest)
  = finditer_from unquoted_at O (follow rest).
Proof.
  intros Hs. induction s as [|c s IH]; [done|].
  pose proof (unquoted_at_quiet (String c s) rest Hs) as Hnone.
  rewrite append_cons in *. simpl in Hs. apply andb_true_iff in Hs as [_ Hs].
  simpl. rewrite Hnone. by apply IH.
Qed.

Lemma finditer_unquoted_blank t :
  finditer_from unquoted_at O (String " " t) = finditer_from unquoted_at O t.
Proof. done. Qed.

Lemma take_while_bare v rest :
  every is_bare v = true ->
  take_while (fun c => negb (is_space c)) (v +:+ follow rest) = v.
Proof.
  intros Hv.
  assert (every (fun c => negb (is_space c)) v = true) as Hns.
  { eapply every_impl; [|exact Hv]. unfold is_bare. intros c.
    rewrite andb_true_iff. tauto. }
  destruct (follow_cases rest) as [->|[t ->]].
  - rewrite append_empty. by apply take_while_all.
  - by apply take_while_app.
Qed.

Lemma unquoted_at_pair k v rest :
  is_empty k = false -> every is_word k = true ->
  is_empty v = false -> every is_bare v = true ->
  unquoted_at ((k +:+ String "=" v) +:+ follow rest)
  = Some (k, v, (String.length k + 1 + String.length v)%nat).
Proof.
  intros Hk Hw Hv Hb. unfold unquoted_at.
  rewrite append_assoc, append_cons.
  rewrite take_while_app, drop_while_app by done. rewrite Hk.
  replace (is_equals "=") with true by done.
  rewrite take_while_bare by done. by rewrite Hv.
Qed.

Lemma finditer_unquoted_pair k v rest :
  is_empty k = false -> every is_word k = true ->
  is_empty v = false -> every is_bare v = true ->
  finditer_from unquoted_at O ((k +:+ String "=" v) +:+ follow rest)
  = (k, v) :: finditer_from unquoted_at O (follow rest).
Proof.
  intros Hk Hw Hv Hb.
  pose proof (unquoted_at_pair k v rest Hk Hw Hv Hb) as Hat.
  destruct k as [|c k]; [done|].
  rewrite !append_cons in *. simpl. rewrite Hat. f_equal.
  match goal with
  | |- finditer_from _ ?n _ = _ =>
      replace n with (String.length (k +:+ String "=" v))
        by (rewrite length_append; simpl; lia)
  end.
  apply finditer_from_skip.
Qed.

Lemma finditer_unquoted_item it rest :
  settled it = true -> (forall k v, it <> Quoted k v) ->
  finditer_from unquoted_at O (seg it +:+ follow rest)
  = unquoted_pairs [it] ++ finditer_from unquoted_at O (follow rest).
Proof.
  intros Hwf Hq. destruct it as [w|k v|k v].
  - apply finditer_unquoted_quiet. simpl in *.
    eapply every_impl; [|exact Hwf]. unfold is_plain. intros c.
    rewrite !andb_true_iff. tauto.
  - simpl in Hwf.
    apply andb_true_iff in Hwf as [[[Hk Hw]%andb_true_iff Hv]%andb_true_iff Hb].
    apply negb_true_iff in Hk, Hv. by apply finditer_unquoted_pair.
  - by destruct (Hq k v).
Qed.

Lemma finditer_unquoted_follow items :
  Forall (fun it => settled it = true /\ forall k v, it <> Quoted k v) items ->
  finditer_from unquoted_at O (follow items) = unquoted_pairs items.
Proof.
  induction 1 as [|it rest [Hit Hq] _ IH]; [done|].
  simpl follow. rewrite finditer_unquoted_blank, finditer_unquoted_item by done.
  rewrite IH. by destruct it.
Qed.

Lemma finditer_unquoted_render items :
  Forall (fun it => settled it = true /\ forall k v, it <> Quoted k v) items ->
  finditer unquoted_at (render items) = unquoted_pairs items.
Proof.
  intros Hall. destruct items as [|it rest]; [done|].
  apply Forall_cons in Hall as [[Hit Hq] Hrest]. unfold finditer. simpl render.
  rewrite finditer_unquoted_item, finditer_unquoted_follow by done. by destruct it.
Qed.

(** *** Deleting the text of a quoted pair *)

Lemma startswith_cons a p b s :
  startswith (String a p) (String b s) = Ascii.eqb a b && startswith p s.
Proof. reflexivity. Qed.

Lemma every_cons p c s : every p (String c s) = p c && every p s.
Proof. reflexivity. Qed.

Lemma delete_from_cons old c s :
  delete_from old O (String c s)
  = if startswith old (String c s)
    then delete_from old (String.length old - 1) s
    else String c (delete_from old O s).
Proof. reflexivity. Qed.

Lemma eqb_no_dquote c : is_dquote c = false -> Ascii.eqb c dquote = false.
Proof. rewrite Ascii.eqb_sym. by rewrite eqb_dquote. Qed.

Lemma eqb_no_equals c : is_equals c = false -> Ascii.eqb c "=" = false.
Proof. rewrite Ascii.eqb_sym. by rewrite eqb_equals. Qed.

(** The text of a quoted pair does not start a text whose first
    character is no word character. *)
Lemma startswith_other_head k v c t :
  is_empty k = false -> every is_word k = true -> is_word c = false ->
  startswith (group0 k v) (String c t) = false.
Proof.
  intros Hk Hw Hc. destruct k as [|a k]; [done|].
  rewrite group0_cons, startswith_cons. rewrite every_cons in Hw.
  apply andb_true_iff in Hw as [Ha _]. by rewrite (eqb_word_other a c).
Qed.

(** A key, an equals sign and a double quote do not start a text that
    holds no double quote. *)
Lemma startswith_key_quiet k tail s t :
  every is_word k = true ->
  every (fun c => negb (is_dquote c)) s = true ->
  t = EmptyString \/ (exists t', t = String " " t') ->
  startswith (k +:+ String "=" (String dquote tail)) (s +:+ t) = false.
Proof.
  intros Hw. revert s. induction k as [|a k IH]; intros s Hs Ht.
  - rewrite append_nil. destruct s as [|c s].
    + rewrite append_nil. by destruct Ht as [->|[t' ->]].
    + rewrite append_cons, startswith_cons. rewrite every_cons in Hs.
      apply andb_true_iff in Hs as [_ Hs].
      destruct s as [|c' s].
      * rewrite append_nil. destruct Ht as [->|[t' ->]]; by rewrite andb_false_r.
      * rewrite append_cons, startswith_cons. rewrite every_cons in Hs.
        apply andb_true_iff in Hs as [Hc' _].
        apply negb_true_iff in Hc'. by rewrite eqb_dquote, Hc', andb_false_r.
  - rewrite append_cons. rewrite every_cons in Hw. apply andb_true_iff in Hw as [Ha Hw].
    destruct s as [|c s].
    + rewrite append_nil. destruct Ht as [->|[t' ->]]; [done|].
      rewrite startswith_cons. by rewrite (eqb_word_other a " ").
    + rewrite append_cons, startswith_cons. rewrite every_cons in Hs.
      apply andb_true_iff in Hs as [_ Hs].
      by rewrite IH, andb_false_r.
Qed.

Lemma group0_shape k v :
  group0 k v = k +:+ String "=" (String dquote (v +:+ String dquote EmptyString)).
Proof. reflexivity. Qed.

Lemma delete_quiet k v s rest :
  every is_word k = true ->
  every (fun c => negb (is_dquote c)) s = true ->
  delete_from (group0 k v) O (s +:+ follow rest)
  = s +:+ delete_from (group0 k v) O (follow rest).
Proof.
  intros Hw Hs. induction s as [|c s IH]; [done|].
  pose proof (startswith_key_quiet k (v +:+ String dquote EmptyString) (String c s)
                (follow rest) Hw Hs (follow_cases rest)) as Hno.
  rewrite <- group0_shape in Hno.
  rewrite !append_cons in *. rewrite every_cons in Hs.
  apply andb_true_iff in Hs as [_ Hs].
  rewrite delete_from_cons, Hno. by rewrite IH.
Qed.

Lemma delete_other_head k v c t :
  is_empty k = false -> every is_word k = true -> is_word c = false ->
  delete_from (group0 k v) O (String c t) = String c (delete_from (group0 k v) O t).
Proof.
  intros Hk Hw Hc. by rewrite delete_from_cons, startswith_other_head.
Qed.

(** Two values between double quotes. *)
Lemma startswith_value v v' t :
  every (fun c => negb (is_dquote c)) v = true ->
  every (fun c => negb (is_dquote c)) v' = true ->
  startswith (v +:+ String dquote EmptyString) (v' +:+ String dquote t) = true
  <-> v' = v.
Proof.
  revert v'. induction v as [|a v IH]; intros v' Hv Hv'.
  - rewrite append_nil. destruct v' as [|c v'].
    + rewrite append_nil, startswith_cons. by rewrite Ascii.eqb_refl.
    + rewrite append_cons, startswith_cons. rewrite every_cons in Hv'.
      apply andb_true_iff in Hv' as [Hc _].
      apply negb_true_iff in Hc. rewrite eqb_dquote, Hc. done.
  - rewrite append_cons. rewrite every_cons in Hv. apply andb_true_iff in Hv as [Ha Hv].
    apply negb_true_iff in Ha. destruct v' as [|c v'].
    + rewrite append_nil, startswith_cons. rewrite (eqb_no_dquote a Ha). done.
    + rewrite append_cons, startswith_cons. rewrite every_cons in Hv'.
      apply andb_true_iff in Hv' as [_ Hv'].
      rewrite andb_true_iff, Ascii.eqb_eq, (IH v' Hv Hv').
      split; [intros [-> ->]; done | intros [= -> ->]; done].
Qed.

(** The text of one quoted pair starts the text of another exactly
    when they are the same pair. *)
Lemma startswith_pair k v k' v' t :
  every is_word k = true -> every is_word k' = true ->
  every (fun c => negb (is_dquote c)) v = true ->
  every (fun c => negb (is_dquote c)) v' = true ->
  startswith (group0 k v) (group0 k' v' +:+ t) = true <-> k' = k /\ v' = v.
Proof.
  intros Hk Hk' Hv Hv'. revert k' Hk'. induction k as [|a k IH]; intros k' Hk'.
  - destruct k' as [|b k'].
    + rewrite group0_append, append_nil. unfold group0. rewrite append_nil.
      rewrite !startswith_cons, !Ascii.eqb_refl. simpl andb.
      rewrite (startswith_value v v' t Hv Hv'). tauto.
    + rewrite group0_cons, append_cons. unfold group0 at 1. rewrite append_nil.
      rewrite startswith_cons. rewrite every_cons in Hk'.
      apply andb_true_iff in Hk' as [Hb _].
      destruct (word_char b Hb) as (_ & He & _). rewrite eqb_equals, He.
      split; [done|]. by intros [[=] _].
  - rewrite every_cons in Hk. apply andb_true_iff in Hk as [Ha Hk].
    rewrite group0_cons.
    destruct k' as [|b k'].
    + rewrite group0_append, append_nil, startswith_cons.
      destruct (word_char a Ha) as (_ & He & _).
      rewrite (eqb_no_equals a He). split; [done|]. by intros [[=] _].
    + rewrite group0_cons, append_cons, startswith_cons. rewrite every_cons in Hk'.
      apply andb_true_iff in Hk' as [_ Hk'].
      rewrite andb_true_iff, Ascii.eqb_eq, (IH Hk k' Hk').
      split; [intros [-> [-> ->]]; done | intros [[= -> ->] ->]; done].
Qed.

Lemma ends_with_equals_cons c s :
  ends_with_equals (String c s) = false ->
  (s = EmptyString -> is_equals c = false) /\ ends_with_equals s = false.
Proof. destruct s as [|c' s]; simpl; [by intros ->|done]. Qed.

(** A key, an equals sign and a double quote do not start inside a
    quoted value that does not end with an equals sign. *)
Lemma startswith_in_value k tail x t :
  every is_word k = true ->
  every (fun c => negb (is_dquote c)) x = true ->
  ends_with_equals x = false ->
  startswith (k +:+ String "=" (String dquote tail)) (x +:+ String dquote t) = false.
Proof.
  intros Hw. revert x. induction k as [|a k IH]; intros x Hx He.
  - rewrite append_nil. destruct x as [|c x].
    + by rewrite append_nil.
    + rewrite append_cons, startswith_cons. rewrite every_cons in Hx.
      apply andb_true_iff in Hx as [_ Hx].
      apply ends_with_equals_cons in He as [Hlast _].
      destruct x as [|c' x].
      * by rewrite eqb_equals, Hlast.
      * rewrite append_cons, startswith_cons. rewrite every_cons in Hx.
        apply andb_true_iff in Hx as [Hc' _].
        apply negb_true_iff in Hc'. by rewrite (eqb_dquote c'), Hc', andb_false_r.
  - rewrite append_cons. rewrite every_cons in Hw. apply andb_true_iff in Hw as [Ha Hw].
    destruct x as [|c x].
    + rewrite append_nil, startswith_cons.
      destruct (word_char a Ha) as (_ & _ & Hq). by rewrite (eqb_no_dquote a Hq).
    + rewrite append_cons, startswith_cons. rewrite every_cons in Hx.
      apply andb_true_iff in Hx as [_ Hx].
      apply ends_with_equals_cons in He as [_ He].
      by rewrite IH, andb_false_r.
Qed.

Lemma delete_in_value k v x t :
  is_empty k = false -> every is_word k = true ->
  every (fun c => negb (is_dquote c)) x = true ->
  ends_with_equals x = false ->
  delete_from (group0 k v) O (x +:+ String dquote t)
  = x +:+ String dquote (delete_from (group0 k v) O t).
Proof.
  intros Hk Hw Hx He. induction x as [|c x IH].
  - rewrite !append_nil. by apply delete_other_head.
  - pose proof (startswith_in_value k (v +:+ String dquote EmptyString) (String c x) t
                  Hw Hx He) as Hno.
    rewrite <- group0_shape in Hno.
    rewrite !append_cons in *. rewrite every_cons in Hx.
    apply andb_true_iff in Hx as [_ Hx].
    apply ends_with_equals_cons in He as [_ He].
    rewrite delete_from_cons, Hno. by rewrite IH.
Qed.

Lemma residue_eq k k' :
  residue k k'
  = if bool_decide (k' = k) then Some EmptyString
    else match k' with
         | String c r => String c <$> residue k r
         | EmptyString => None
         end.
Proof. by destruct k'. Qed.

Lemma residue_self k : residue k k = Some EmptyString.
Proof. by rewrite residue_eq, bool_decide_true. Qed.

Lemma residue_nil k : is_empty k = false -> residue k EmptyString = None.
Proof.
  intros Hk. rewrite residue_eq. rewrite bool_decide_false; [done|]. by intros <-.
Qed.

Lemma residue_cons k c r :
  String c r <> k -> residue k (String c r) = String c <$> residue k r.
Proof. intros Hne. by rewrite residue_eq, bool_decide_false. Qed.

Lemma strike_eq k v k' v' :
  strike k v (Quoted k' v')
  = if bool_decide (v' = v) then
      match residue k k' with
      | Some p => Word p
      | None => Quoted k' v'
      end
    else Quoted k' v'.
Proof. reflexivity. Qed.

(** What a deletion leaves of a quoted pair. *)
Lemma delete_quoted k v k' v' t :
  is_empty k = false -> every is_word k = true ->
  every (fun c => negb (is_dquote c)) v = true ->
  every is_word k' = true ->
  every (fun c => negb (is_dquote c)) v' = true ->
  ends_with_equals v' = false ->
  delete_from (group0 k v) O (group0 k' v' +:+ t)
  = seg (strike k v (Quoted k' v')) +:+ delete_from (group0 k v) O t.
Proof.
  intros Hk Hw Hv Hw' Hv' He. induction k' as [|c r IH].
  - assert (strike k v (Quoted EmptyString v') = Quoted EmptyString v') as ->.
    { unfold strike. rewrite residue_nil by done. by case_bool_decide. }
    simpl seg. rewrite !group0_append, !append_nil.
    rewrite delete_other_head by done. rewrite delete_other_head by done.
    by rewrite delete_in_value.
  - rewrite every_cons in Hw'. apply andb_true_iff in Hw' as [Hc Hr].
    specialize (IH Hr).
    pose proof (startswith_pair k v (String c r) v' t Hw) as Hsame.
    rewrite every_cons, Hc, Hr in Hsame. specialize (Hsame eq_refl Hv Hv').
    rewrite group0_cons, append_cons in *. rewrite delete_from_cons.
    destruct (startswith (group0 k v) _) eqn:Hst.
    + destruct (proj1 Hsame eq_refl) as [<- <-].
      replace (String.length (group0 (String c r) v') - 1)%nat
        with (String.length (group0 r v')) by (rewrite group0_cons; simpl; lia).
      rewrite delete_from_skip, strike_eq, residue_self.
      by rewrite bool_decide_true.
    + rewrite IH.
      assert (~ (String c r = k /\ v' = v)) as Hne
        by (intros H; apply Hsame in H; congruence).
      rewrite !strike_eq. case_bool_decide as Hvv; [|done].
      rewrite residue_cons by tauto.
      destruct (residue k r) as [p|]; done.
Qed.

Lemma delete_item k v it rest :
  is_empty k = false -> every is_word k = true ->
  every (fun c => negb (is_dquote c)) v = true ->
  settled it = true ->
  delete_from (group0 k v) O (seg it +:+ follow rest)
  = seg (strike k v it) +:+ delete_from (group0 k v) O (follow rest).
Proof.
  intros Hk Hw Hv Hit. destruct it as [w|k' v'|k' v'].
  - apply delete_quiet; [done|]. by apply (seg_no_dquote (Word w)).
  - apply delete_quiet; [done|]. by apply (seg_no_dquote (Unquoted k' v')).
  - simpl in Hit.
    apply andb_true_iff in Hit as [[[_ Hw']%andb_true_iff Hv']%andb_true_iff He].
    apply negb_true_iff in He. by apply delete_quoted.
Qed.

Lemma delete_follow k v items :
  is_empty k = false -> every is_word k = true ->
  every (fun c => negb (is_dquote c)) v = true ->
  Forall (fun it => settled it = true) items ->
  delete_from (group0 k v) O (follow items) = follow (strike k v <$> items).
Proof.
  intros Hk Hw Hv. induction 1 as [|it rest Hit _ IH]; [done|].
  rewrite fmap_cons. simpl follow.
  rewrite delete_other_head, delete_item by done. by rewrite IH.
Qed.

Lemma delete_render k v items :
  is_empty k = false -> every is_word k = true ->
  every (fun c => negb (is_dquote c)) v = true ->
  Forall (fun it => settled it = true) items ->
  delete_from (group0 k v) O (render items) = render (strike k v <$> items).
Proof.
  intros Hk Hw Hv Hall. destruct items as [|it rest]; [done|].
  apply Forall_cons in Hall as [Hit Hrest].
  rewrite fmap_cons. simpl render.
  rewrite delete_item, delete_follow by done. done.
Qed.

Lemma group0_not_empty k v : is_empty (group0 k v) = false.
Proof. by destruct k. Qed.

Lemma replace_render k v items :
  is_empty k = false -> every is_word k = true ->
  every (fun c => negb (is_dquote c)) v = true ->
  Forall (fun it => settled it = true) items ->
  replace_with_empty (group0 k v) (render items) = render (strike k v <$> items).
Proof.
  intros. unfold replace_with_empty. rewrite group0_not_empty.
  by apply delete_render.
Qed.

(** *** The items after the deletions *)

Lemma residue_word k k' p :
  every is_word k' = true -> residue k k' = Some p -> every is_word p = true.
Proof.
  revert p. induction k' as [|c r IH]; intros p Hw; rewrite residue_eq.
  - case_bool_decide; [by intros [= <-]|done].
  - case_bool_decide; [by intros [= <-]|].
    rewrite every_cons in Hw. apply andb_true_iff in Hw as [Hc Hr].
    destruct (residue k r) as [q|]; [|done]. intros [= <-].
    rewrite every_cons, Hc. by apply IH.
Qed.

Lemma strike_settled k v it : settled it = true -> settled (strike k v it) = true.
Proof.
  destruct it as [w|k' v'|k' v']; [done..|]. intros Hit. rewrite strike_eq.
  case_bool_decide; [|done].
  destruct (residue k k') as [p|] eqn:Hp; [|done].
  simpl in Hit.
  apply andb_true_iff in Hit as [[[_ Hw']%andb_true_iff _]%andb_true_iff _].
  simpl. eapply every_impl; [apply word_is_plain|]. by eapply residue_word.
Qed.

Lemma struck_cons m ms it : struck (m :: ms) it = struck ms (strike m.1 m.2 it).
Proof. reflexivity. Qed.

Lemma struck_settled ms it : settled it = true -> settled (struck ms it) = true.
Proof.
  revert it. induction ms as [|m ms IH]; intros it Hit; [done|].
  rewrite struck_cons. by apply IH, strike_settled.
Qed.

Lemma struck_other ms it : (forall k v, it <> Quoted k v) -> struck ms it = it.
Proof.
  intros Hq. induction ms as [|m ms IH]; [done|].
  rewrite struck_cons. destruct it as [w|k v|k v]; [done..|]. by destruct (Hq k v).
Qed.

(** A quoted pair does not survive its own deletion. *)
Lemma struck_quoted ms k v :
  (k, v) ∈ ms -> forall k' v', struck ms (Quoted k v) <> Quoted k' v'.
Proof.
  induction ms as [|m ms IH]; [by intros ?%not_elem_of_nil|].
  intros Hin k' v'. rewrite struck_cons.
  destruct (decide (m = (k, v))) as [->|Hne].
  - simpl fst. simpl snd. rewrite strike_eq, bool_decide_true, residue_self by done.
    by rewrite struck_other.
  - apply elem_of_cons in Hin as [Heq|Hin]; [congruence|].
    rewrite strike_eq. case_bool_decide; [|by apply IH].
    destruct (residue m.1 k) as [p|]; [|by apply IH].
    by rewrite struck_other.
Qed.

Lemma struck_unquoted_pairs ms it :
  unquoted_pairs [struck ms it] = unquoted_pairs [it].
Proof.
  destruct it as [w|k v|k v].
  - by rewrite struck_other.
  - by rewrite struck_other.
  - revert k. induction ms as [|m ms IH]; intros k; [done|].
    rewrite struck_cons, strike_eq. case_bool_decide; [|by apply IH].
    destruct (residue m.1 k) as [p|]; [|by apply IH].
    by rewrite struck_other.
Qed.

Lemma unquoted_pairs_cons it items :
  unquoted_pairs (it :: items) = unquoted_pairs [it] ++ unquoted_pairs items.
Proof. by destruct it. Qed.

Lemma struck_all_unquoted_pairs ms items :
  unquoted_pairs (struck ms <$> items) = unquoted_pairs items.
Proof.
  induction items as [|it items IH]; [done|].
  rewrite fmap_cons, unquoted_pairs_cons, struck_unquoted_pairs, IH.
  by rewrite <- unquoted_pairs_cons.
Qed.

Lemma elem_of_quoted_pairs items k v : Quoted k v ∈ items -> (k, v) ∈ quoted_pairs items.
Proof.
  intros Hin. unfold quoted_pairs. apply list_elem_of_omap. exists (Quoted k v). done.
Qed.

(** The pairs of the quoted items of a line. *)
Lemma quoted_pairs_well_formed items :
  Forall (fun it => well_formed_item it = true) items ->
  Forall (fun m => is_empty m.1 = false /\ every is_word m.1 = true
                   /\ every (fun c => negb (is_dquote c)) m.2 = true)
    (quoted_pairs items).
Proof.
  induction 1 as [|it items Hit _ IH]; [constructor|].
  destruct it as [w|k v|k v]; [done..|].
  change (quoted_pairs (Quoted k v :: items)) with ((k, v) :: quoted_pairs items).
  constructor; [|done]. simpl in *.
  apply andb_true_iff in Hit as [[[Hk Hw]%andb_true_iff Hv]%andb_true_iff _].
  apply negb_true_iff in Hk. done.
Qed.

(** The text the first loop leaves. *)
Lemma quoted_pass_render ms cur args :
  Forall (fun m => is_empty m.1 = false /\ every is_word m.1 = true
                   /\ every (fun c => negb (is_dquote c)) m.2 = true) ms ->
  Forall (fun it => settled it = true) cur ->
  (fold_left quoted_step ms (args, render cur)).2 = render (struck ms <$> cur).
Proof.
  intros Hms. revert cur args.
  induction Hms as [|m ms (Hk & Hw & Hv) _ IH]; intros cur args Hcur.
  - simpl. by rewrite list_fmap_id.
  - simpl fold_left. unfold quoted_step at 2. simpl fst. simpl snd.
    rewrite replace_render by done. rewrite IH.
    + by rewrite <- list_fmap_compose.
    + apply Forall_fmap. eapply Forall_impl; [exact Hcur|].
      intros it Hit. by apply strike_settled.
Qed.

(** The result for a line, key by key. *)
Lemma parse_args_text_render items k :
  Forall (fun it => well_formed_item it = true) items ->
  parse_args_text (render items) !! k = line_value items k.
Proof.
  intros Hwf.
  assert (Forall (fun it => settled it = true) items) as Hset.
  { eapply Forall_impl; [exact Hwf|]. apply well_formed_settled. }
  rewrite parse_args_text_lookup. unfold line_value.
  rewrite finditer_quoted_render by done.
  unfold quoted_pass. rewrite finditer_quoted_render by done.
  rewrite quoted_pass_render by (done || by apply quoted_pairs_well_formed).
  rewrite finditer_unquoted_render, struck_all_unquoted_pairs; [done|].
  apply Forall_fmap, Forall_forall. intros it Hin. simpl. split.
  - apply struck_settled. rewrite Forall_forall in Hset. by apply Hset.
  - destruct it as [w|a b|a b].
    + rewrite struck_other by done. done.
    + rewrite struck_other by done. done.
    + apply struck_quoted. by apply elem_of_quoted_pairs.
Qed.

(** *** The command word *)

Lemma split_command_line cmd text :
  is_empty cmd = false -> every (fun c => negb (is_space c)) cmd = true ->
  text = EmptyString \/ (exists c r, text = String c r /\ is_space c = false) ->
  split_maxsplit1 (cmd +:+ String " " text)
  = if is_empty text then [cmd] else [cmd; text].
Proof.
  intros Hc Hns Ht. unfold split_maxsplit1.
  assert (drop_while is_space (cmd +:+ String " " text) = cmd +:+ String " " text) as ->.
  { destruct cmd as [|c cmd]; [done|]. rewrite append_cons. rewrite every_cons in Hns.
    apply andb_true_iff in Hns as [Hc' _]. apply negb_true_iff in Hc'.
    simpl. by rewrite Hc'. }
  assert (is_empty (cmd +:+ String " " text) = false) as -> by (by destruct cmd).
  rewrite take_while_app, drop_while_app by done.
  assert (drop_while is_space (String " " text) = text) as ->.
  { destruct Ht as [->|(c & r & -> & Hs)]; [done|]. simpl. by rewrite Hs. }
  done.
Qed.

Lemma render_head items :
  Forall (fun it => well_formed_item it = true) items ->
  render items = EmptyString
  \/ (exists c r, render items = String c r /\ is_space c = false).
Proof.
  intros Hwf. destruct items as [|it rest]; [by left|]. right.
  apply Forall_cons in Hwf as [Hit _]. simpl render.
  assert (exists c r, seg it = String c r /\ is_space c = false) as (c & r & -> & Hc).
  { destruct it as [[|c w]|[|c k] v|[|c k] v]; try done; simpl in Hit.
    - exists c, w. split; [done|]. unfold is_plain in Hit.
      apply andb_true_iff in Hit as [[[Hs _]%andb_true_iff _]%andb_true_iff _].
      by apply negb_true_iff.
    - exists c, (k +:+ String "=" v). split; [done|].
      apply andb_true_iff in Hit as [[[Hw _]%andb_true_iff _]%andb_true_iff _].
      by apply word_not_space.
    - exists c, (group0 k v). split; [done|].
      apply andb_true_iff in Hit as [[[Hw _]%andb_true_iff _]%andb_true_iff _].
      by apply word_not_space. }
  rewrite append_cons. eauto.
Qed.

End LineFacts.

(** * The claims of the specification *)

Import Py Parser Datetime Db Bot Events Groups Props Sample.
Import Store Commands Terms Lines Story.
Import DbFacts ParserFacts RsvpFacts GroupFacts HostFacts DateFacts RaiseFacts.
Import CountFacts LineFacts.

(** Keys of a concrete store are checked by evaluation. *)
Ltac sample_well_formed :=
  split; (apply (bool_decide_unpack _); vm_compute; exact I).

(** ** Malformed arguments *)

(** C1.  The claim is that a handler given malformed arguments always
    ends in a failure message and never lets an exception out.  The
    handlers break it at the three inputs the claim names: a [max] that
    is not a number makes [event_create] raise [ValueError], a
    [contributor_events_required] that is not a number makes
    [group_create] raise [ValueError], and a [user] without a digit
    makes [event_change_host] raise [IndexError]; the store is left as
    it was.  [event_modify], the sibling of [event_create], catches the
    same malformed [max] and answers with a failure. *)
Theorem malformed_arguments_raise :
  let db := community false (walk None approved) [] in
  event_create
    (in_channel alice "event new name=Picnic date=2031-06-01 time=12:00 max=lots")
    ten_o_clock (Some "901") db
  = (Raised ValueError, db)
  /\ (forall welcomed,
        group_create
          (in_channel alice "circle new name=Chess contributor_events_required=many")
          [alice] (Some "600") welcomed db
        = (Raised ValueError, db))
  /\ event_change_host (in_thread alice "event change host user=@bob") db
     = (Raised IndexError, db)
  /\ event_modify (in_thread alice "event modify max=lots") ten_o_clock db
     = (Replied [MaxMustBeNumber], db).
Proof. vm_compute. by repeat split. Qed.

(** ** Dates in the future *)

(** C2.  The claim is that creating or modifying an event fails with
    [InvalidDateTime] whenever the resulting instant is not strictly
    after the wall clock.  An instant equal to the clock reading is not
    strictly after it, yet both handlers accept it: the comparison
    refuses only the instants before the clock.  Here the clock reads
    10:00:00 sharp and the event is set to 10:00 of the same day;
    [event_create] stores the event and [event_modify] stores the new
    instant. *)
Theorem event_at_the_clock_reading_is_accepted :
  let db := community false (walk None approved) [] in
  let created :=
    event_create (in_channel alice "event new name=Picnic date=2030-01-01 time=10:00")
      ten_o_clock (Some "901") db in
  let modified :=
    event_modify (in_thread alice "event modify date=2030-01-01 time=10:00")
      ten_o_clock db in
  strptime_date_time "2030-01-01 10:00" = Some ten_o_clock
  /\ ltb ten_o_clock ten_o_clock = false
  /\ created.1 = Replied [EventAnnounced [mk_attendee 8 alice ATTENDING];
                          EventCreated "901"]
  /\ date_time <$> Events created.2 = [walk_time; ten_o_clock]
  /\ modified.1 = Replied [EventUpdated []]
  /\ date_time <$> Events modified.2 = [ten_o_clock].
Proof. vm_compute. by repeat split. Qed.

(** ** Capacity *)

(** C3, as stated, fails on an event whose cap is zero.  The cap is set
    and the count of attending members, zero, has reached it, so the
    claim has bob waitlisted; the handler treats a cap of zero like no
    cap and records him as attending. *)
Lemma rsvp_with_cap_zero_attends :
  let ev := walk (Some 0) approved in
  let db := community false ev [] in
  let ctx := in_thread bob "event confirm" in
  get_event_from_thread ctx db = Some ev
  /\ status ev = approved
  /\ is_group_member db 1 bob = true
  /\ stated_rsvp_status (max_attendees ev) (attending_count db 7) = WAITLIST
  /\ records_of (event_confirm ctx db).2 7 bob = [mk_attendee 7 bob ATTENDING]
  /\ records_of (event_confirm ctx db).2 7 bob
     <> [mk_attendee 7 bob
           (stated_rsvp_status (max_attendees ev) (attending_count db 7))].
Proof. vm_compute. by repeat split. Qed.

(** C3 (amended).  For a confirmation by a group member on an approved
    event, in a store where every attendee row of the event belongs to
    a user with a row in [Users]: when the cap of the event is set, is
    not zero and the number of rows of the event with status
    [ATTENDING] has reached it, the one record of the requester for the
    event has status [WAITLIST]; when the event has no cap, or a cap of
    zero, or that number is below the cap, the record has status
    [ATTENDING].  In particular a cap of two with two [ATTENDING] rows
    leads to [WAITLIST].  Rows of users without a row in [Users] are
    left out: the handler does not count them, which is the defect
    shown under C4 and C10. *)
Theorem rsvp_records_by_capacity ctx db event group :
  well_formed db ->
  get_event_from_thread ctx db = Some event ->
  status event = approved ->
  get_group db (event_group event) = Some group ->
  is_group_member db (group_id group) (author ctx) = true ->
  attendees_known db (event_id event) ->
  let eid := event_id event in
  let n := Z.of_nat (attending_records db eid) in
  let recorded := records_of (event_confirm ctx db).2 eid (author ctx) in
  (forall cap, max_attendees event = Some cap -> cap <> 0 -> cap <= n ->
     recorded = [mk_attendee eid (author ctx) WAITLIST])
  /\ (max_attendees event = None \/ max_attendees event = Some 0
      \/ (exists cap, max_attendees event = Some cap /\ n < cap) ->
     recorded = [mk_attendee eid (author ctx) ATTENDING])
  /\ (max_attendees event = Some 2 -> attending_records db eid = 2%nat ->
     recorded = [mk_attendee eid (author ctx) WAITLIST]).
Proof.
  intros Hwf Hev Hst Hg Hm Hknown eid n recorded.
  assert (n = Z.of_nat (attending_count db eid)) as Hn
    by (unfold n; by rewrite attending_count_records).
  assert (forall cap, max_attendees event = Some cap -> cap <> 0 -> cap <= n ->
            recorded = [mk_attendee eid (author ctx) WAITLIST]) as Hfull.
  { intros cap Hcap Hnz Hle. subst recorded.
    rewrite (event_confirm_after_checks ctx db event group) by done.
    rewrite add_event_attendee_records by done.
    replace (is_full _ _) with true; [done|].
    symmetry. apply is_full_spec. exists cap. rewrite Hn in Hle. done. }
  split; [exact Hfull|]. split.
  - intros Hfree. subst recorded.
    rewrite (event_confirm_after_checks ctx db event group) by done.
    rewrite add_event_attendee_records by done.
    destruct (is_full _ _) eqn:Hf; [|done].
    apply is_full_spec in Hf as (cap & Hcap & Hnz & Hle).
    fold eid in Hle. fold (attending_count db eid) in Hle. rewrite <- Hn in Hle.
    destruct Hfree as [Hnone|[Hzero|(c & Hc & Hlt)]]; [congruence..|].
    rewrite Hcap in Hc. injection Hc as <-. lia.
  - intros Hcap Htwo. apply (Hfull 2); [done|done|]. unfold n. rewrite Htwo. lia.
Qed.

(** The third confirmation on a walk for two. *)
Lemma rsvp_records_by_capacity_witness :
  let ev := walk (Some 2) approved in
  let db := community false ev [mk_attendee 7 alice ATTENDING; mk_attendee 7 bob ATTENDING] in
  let ctx := in_thread carol "event confirm" in
  well_formed db
  /\ get_event_from_thread ctx db = Some ev
  /\ status ev = approved
  /\ get_group db (event_group ev) = Some hikers
  /\ is_group_member db (group_id hikers) (author ctx) = true
  /\ attendees_known db 7
  /\ attending_records db 7 = 2%nat
  /\ records_of (event_confirm ctx db).2 7 carol = [mk_attendee 7 carol WAITLIST].
Proof.
  intros ev db ctx.
  assert (well_formed db) as Hwf by sample_well_formed.
  assert (attendees_known db 7) as Hknown
    by (apply (bool_decide_unpack _); vm_compute; exact I).
  do 5 (split; [done|]). split; [exact Hknown|]. split; [reflexivity|].
  apply (rsvp_records_by_capacity ctx db ev hikers Hwf eq_refl eq_refl eq_refl eq_refl
           Hknown);
    reflexivity.
Defined.

(** Why the hypothesis on [Users] is there.  The founder of a group has
    no row in [Users]; the event she hosts holds her row with status
    [ATTENDING], the count the handler takes is zero, and on a walk for
    one the first confirmation is recorded as attending. *)
Example attending_founder_is_not_counted :
  let planned_for_one :=
    (event_create
       (in_channel alice "event new name=Walk date=2031-05-05 time=09:30 max=1")
       ten_o_clock (Some "900") joined).2 in
  let res := event_confirm (in_thread bob "event confirm") planned_for_one in
  max_attendees <$> Events planned_for_one = [Some 1]
  /\ EventAttendees planned_for_one = [mk_attendee 1 alice ATTENDING]
  /\ attending_records planned_for_one 1 = 1%nat
  /\ attending_count planned_for_one 1 = 0%nat
  /\ res.1 = Replied [NowAttending; EventEmbed [mk_attendee 1 bob ATTENDING]]
  /\ EventAttendees res.2
     = [mk_attendee 1 alice ATTENDING; mk_attendee 1 bob ATTENDING].
Proof. vm_compute. by repeat split. Qed.

(** ** Leaving an event *)

(** C4.  The claim is that [event_unconfirm] removes the record of the
    requester and then, if at least one [WAITLIST] record exists,
    promotes the first of them.  It is broken for the record of a user
    without a row in [Users]: the handler looks for the waitlist in the
    list [get_event_attendees] returns, a join with [Users], and
    [group_create] and [event_create] never create the row of the
    founder of a group, which [group_join] does for the member who
    joins.  From an empty store: alice founds the hikers and plans a
    walk for two, bob joins and confirms, alice moves to the waitlist;
    bob then unconfirms.  His record is removed, the record of alice is
    the one [WAITLIST] record of the walk, and it is not promoted. *)
Theorem waitlisted_founder_is_not_promoted :
  let res := event_unconfirm (in_thread bob "event unconfirm") alice_waits in
  Users alice_waits = [mk_user bob]
  /\ EventAttendees alice_waits
     = [mk_attendee 1 alice WAITLIST; mk_attendee 1 bob ATTENDING]
  /\ waitlist_records (remove_event_attendee alice_waits 1 bob) 1
     = [mk_attendee 1 alice WAITLIST]
  /\ res.1 = Replied [NoLongerAttending; EventEmbed []]
  /\ EventAttendees res.2 = [mk_attendee 1 alice WAITLIST].
Proof. vm_compute. by repeat split. Qed.

(** What holds of the promotion: in an event thread [event_unconfirm]
    reports no failure and leaves no record of the requester for the
    event.  It then looks at the waitlisted attendees the join with
    [Users] returns: when there is none the store is the one the
    deletion left; otherwise exactly one row of the table changes, the
    row of the first of them in retrieval order, from [WAITLIST] to
    [ATTENDING]. *)
Theorem unconfirm_removes_then_promotes_first ctx db event :
  well_formed db ->
  get_event_from_thread ctx db = Some event ->
  let eid := event_id event in
  let db1 := remove_event_attendee db eid (author ctx) in
  let res := event_unconfirm ctx db in
  succeeds res.1
  /\ records_of res.2 eid (author ctx) = []
  /\ match waitlist db1 eid with
     | [] => res.2 = db1
     | first :: _ =>
         exists l1 l2,
           EventAttendees db1 = l1 ++ first :: l2
           /\ rsvp_status first = WAITLIST
           /\ EventAttendees res.2
              = l1 ++ mk_attendee eid (attendee_user first) ATTENDING :: l2
     end.
Proof.
  intros Hwf Hev eid db1 res.
  assert (well_formed db1) as Hwf1 by (by apply remove_event_attendee_well_formed).
  split; [by apply (event_unconfirm_succeeds ctx db event)|].
  subst res. rewrite (event_unconfirm_unfold ctx db event Hev).
  fold eid db1. destruct (waitlist db1 eid) as [|first rest] eqn:Hw; simpl.
  - split; [apply remove_event_attendee_records | done].
  - destruct (promote_first db1 eid first rest Hwf1 Hw)
      as (l1 & l2 & Hl & Hs & [He Hu] & Hl' & Hother).
    split.
    + rewrite add_event_attendee_others; [apply remove_event_attendee_records|].
      intros [= Hau].
      assert (first ∈ records_of db1 eid (author ctx)) as Hin.
      { apply list_elem_of_filter. split.
        - apply attendee_matches_key. unfold attendee_key. by rewrite He, Hau.
        - rewrite Hl. apply elem_of_app. right. apply list_elem_of_here. }
      unfold db1 in Hin. rewrite remove_event_attendee_records in Hin.
      by apply not_elem_of_nil in Hin.
    + exists l1, l2. done.
Qed.

(** alice leaves a walk on which bob and carol wait, bob first. *)
Lemma unconfirm_removes_then_promotes_first_witness :
  let ev := walk (Some 1) approved in
  let db := community false ev
              [mk_attendee 7 alice ATTENDING; mk_attendee 7 bob WAITLIST;
               mk_attendee 7 carol WAITLIST] in
  let ctx := in_thread alice "event unconfirm" in
  well_formed db
  /\ get_event_from_thread ctx db = Some ev
  /\ succeeds (event_unconfirm ctx db).1
  /\ records_of (event_unconfirm ctx db).2 7 alice = []
  /\ exists l1 l2,
       EventAttendees (remove_event_attendee db 7 alice)
       = l1 ++ mk_attendee 7 bob WAITLIST :: l2
       /\ rsvp_status (mk_attendee 7 bob WAITLIST) = WAITLIST
       /\ EventAttendees (event_unconfirm ctx db).2
          = l1 ++ mk_attendee 7 bob ATTENDING :: l2.
Proof.
  intros ev db ctx.
  assert (well_formed db) as Hwf by sample_well_formed.
  do 2 (split; [done|]).
  exact (unconfirm_removes_then_promotes_first ctx db ev Hwf eq_refl).
Defined.

(** C10.  The claim is that [event_unconfirm] has no precondition
    beyond the event thread, and that the promotion fires whenever any
    [WAITLIST] record exists.  The first part holds; the second is
    broken by the defect shown under C4.  In the store of that example
    dave, who is no member of the hikers and has no record for the
    walk, unconfirms: the handler reports no failure, the record of
    alice is a [WAITLIST] record of the walk, and the store is left as
    it was, so nobody is promoted. *)
Theorem promotion_misses_a_waitlisted_founder :
  let res := event_unconfirm (in_thread dave "event unconfirm") alice_waits in
  is_group_member alice_waits 1 dave = false
  /\ records_of alice_waits 1 dave = []
  /\ waitlist_records alice_waits 1 = [mk_attendee 1 alice WAITLIST]
  /\ res.1 = Replied [NoLongerAttending; EventEmbed [mk_attendee 1 bob ATTENDING]]
  /\ res.2 = alice_waits
  /\ records_of res.2 1 alice = [mk_attendee 1 alice WAITLIST].
Proof. vm_compute. by repeat split. Qed.

(** What holds of C10: in an event thread [event_unconfirm] has no
    further precondition: for every requester, member of the group or
    not, and every status of the event it reports no failure.  When the
    requester has no record the deletion leaves the store as it is.
    Whenever the join with [Users] then returns a waitlisted attendee,
    the first one is recorded as attending, whether or not the
    requester was attending; when the requester had no record the count
    of attending members grows by one, so that on an event whose count
    had reached its cap the count ends above the cap. *)
Theorem unconfirm_has_no_precondition ctx db event :
  well_formed db ->
  get_event_from_thread ctx db = Some event ->
  let eid := event_id event in
  let db1 := remove_event_attendee db eid (author ctx) in
  let res := event_unconfirm ctx db in
  succeeds res.1
  /\ (records_of db eid (author ctx) = [] -> db1 = db)
  /\ (forall first rest, waitlist db1 eid = first :: rest ->
        records_of res.2 eid (attendee_user first)
        = [mk_attendee eid (attendee_user first) ATTENDING]
        /\ (records_of db eid (author ctx) = [] ->
            attending_count res.2 eid = S (attending_count db eid)
            /\ forall cap, max_attendees event = Some cap ->
                 cap <= Z.of_nat (attending_count db eid) ->
                 cap < Z.of_nat (attending_count res.2 eid))).
Proof.
  intros Hwf Hev eid db1 res.
  assert (well_formed db1) as Hwf1 by (by apply remove_event_attendee_well_formed).
  split; [|split].
  - by apply (event_unconfirm_succeeds ctx db event).
  - apply remove_event_attendee_absent.
  - intros first rest Hw. subst res.
    rewrite (event_unconfirm_unfold ctx db event Hev). fold eid db1. rewrite Hw. simpl.
    split; [by apply add_event_attendee_records|].
    intros Hnone.
    assert (db1 = db) as Hdb by (by apply remove_event_attendee_absent).
    rewrite Hdb in *.
    rewrite (promote_first_count db eid first rest) by done.
    split; [done|]. intros cap _ Hle. lia.
Qed.

(** dave, who is not one of the hikers and never answered, unconfirms
    on a walk for one that is still pending: carol is promoted and two
    members attend. *)
Lemma unconfirm_has_no_precondition_witness :
  let ev := walk (Some 1) pending in
  let db := community false ev
              [mk_attendee 7 alice ATTENDING; mk_attendee 7 carol WAITLIST] in
  let ctx := in_thread dave "event unconfirm" in
  well_formed db
  /\ get_event_from_thread ctx db = Some ev
  /\ is_group_member db 1 dave = false
  /\ succeeds (event_unconfirm ctx db).1
  /\ records_of (event_unconfirm ctx db).2 7 carol = [mk_attendee 7 carol ATTENDING]
  /\ attending_count (event_unconfirm ctx db).2 7 = S (attending_count db 7)
  /\ 1 < Z.of_nat (attending_count (event_unconfirm ctx db).2 7).
Proof.
  intros ev db ctx.
  assert (well_formed db) as Hwf by sample_well_formed.
  do 3 (split; [done|]).
  destruct (unconfirm_has_no_precondition ctx db ev Hwf eq_refl) as (Hok & _ & Hpromote).
  split; [exact Hok|].
  destruct (Hpromote (mk_attendee 7 carol WAITLIST) [] eq_refl) as [Hrec Hcount].
  split; [exact Hrec|].
  destruct (Hcount eq_refl) as [Hgrow Hcap].
  split; [exact Hgrow|].
  apply (Hcap 1 eq_refl). vm_compute. discriminate.
Defined.

(** ** Confirming twice *)

(** C5.  The claim is that two confirmations in a row by the same
    member on an event that is not full leave one record with status
    [ATTENDING].  It is broken when the first confirmation takes the
    last place: the second one counts the requester among the attending
    members, finds the event full and rewrites the record to
    [WAITLIST].  The walk is for two, alice attends, bob confirms
    twice. *)
Theorem second_rsvp_moves_to_waitlist :
  let ev := walk (Some 2) approved in
  let db := community false ev [mk_attendee 7 alice ATTENDING] in
  let ctx := in_thread bob "event confirm" in
  let once := event_confirm ctx db in
  let twice := event_confirm ctx once.2 in
  is_full ev (with_status ATTENDING (get_event_attendees db 7)) = false
  /\ records_of once.2 7 bob = [mk_attendee 7 bob ATTENDING]
  /\ twice.1 = Replied [EventFullWaitlisted;
                        EventEmbed [mk_attendee 7 alice ATTENDING;
                                    mk_attendee 7 bob WAITLIST]]
  /\ records_of twice.2 7 bob = [mk_attendee 7 bob WAITLIST].
Proof. vm_compute. by repeat split. Qed.

(** ** The argument parser *)

(** C6, as stated, fails when the key of a quoted token also occurs
    without quotes.  The argument text holds the quoted token for
    [name] with the value [Long walk], and the quoted pass finds it, but
    the unquoted pass runs later and writes [Stroll] over it. *)
Lemma unquoted_match_overrides_quoted :
  let text := "modify name=Stroll " +:+ quoted "name" "Long walk" in
  let content := "event " +:+ text in
  split_maxsplit1 content = ["event"; text]
  /\ finditer quoted_at text = [("name", "Long walk")]
  /\ parse_command_args content !! "name" = Some "Stroll"
  /\ parse_command_args content !! "name" <> Some "Long walk".
Proof. vm_compute. by repeat split. Qed.

(** Deleting a quoted token deletes its text wherever it occurs, which
    can cut another quoted token open; what is left of that token is
    then read by the unquoted pass. *)
Example deleted_text_exposes_a_quoted_token :
  let text := quoted "w" "q" +:+ " k=" +:+ quote +:+ "v " +:+ quoted "w" "q" in
  finditer quoted_at text = [("w", "q"); ("k", "v w=")]
  /\ (quoted_pass text).2 = " k=" +:+ quote +:+ "v "
  /\ parse_args_text text !! "k" = Some (quote +:+ "v").
Proof. vm_compute. by repeat split. Qed.

(** C6 (amended).  For an input made of a command word and, after it,
    items separated by single blanks, each item a plain word, an
    unquoted pair or a quoted pair whose value holds no double quote and
    does not end with an equals sign: the result holds, for a key in
    lower case, the value of the last unquoted pair of the key when
    there is one, and otherwise the value of the last quoted pair of
    the key; it holds nothing for the key of no pair.  So the value of
    a quoted pair is the result for its key when no unquoted pair and
    no later quoted pair has the key: no quoted pair is read again by
    the unquoted pass, a later quoted pair of the key replaces an
    earlier one, and an unquoted pair takes precedence over a quoted
    one, wherever it stands. *)
Theorem parse_of_a_command_line cmd items k :
  is_empty cmd = false ->
  every (fun c => negb (is_space c)) cmd = true ->
  Forall (fun it => well_formed_item it = true) items ->
  parse_command_args (cmd +:+ String " " (render items)) !! k = line_value items k.
Proof.
  intros Hc Hns Hwf. unfold parse_command_args.
  rewrite split_command_line by (done || by apply render_head).
  destruct (is_empty (render items)) eqn:He.
  - destruct items as [|it rest]; [done|]. exfalso.
    destruct (render_head _ Hwf) as [Hr|(c & r & Hr & _)]; rewrite Hr in He; [|done].
    apply Forall_cons in Hwf as [Hit _]. simpl render in Hr.
    destruct it as [[|c w]|[|c k'] v|[|c k'] v]; done.
  - by apply parse_args_text_render.
Qed.

(** The example of the specification with a second quoted pair for
    [name], written with a capital, and an unquoted pair for [date]
    before the quoted one. *)
Lemma parse_of_a_command_line_witness :
  let items :=
    [Word "new"; Quoted "name" "Game Night"; Unquoted "date" "2024-03-21";
     Quoted "date" "2024-03-20"; Quoted "Name" "Board games"; Unquoted "max" "6"] in
  let content := "event " +:+ render items in
  content
  = "event new " +:+ quoted "name" "Game Night" +:+ " date=2024-03-21 "
    +:+ quoted "date" "2024-03-20" +:+ " " +:+ quoted "Name" "Board games" +:+ " max=6"
  /\ Forall (fun it => well_formed_item it = true) items
  /\ parse_command_args content !! "name" = Some "Board games"
  /\ parse_command_args content !! "date" = Some "2024-03-21"
  /\ parse_command_args content !! "max" = Some "6"
  /\ parse_command_args content !! "new" = None.
Proof.
  intros items content. split; [reflexivity|].
  assert (Forall (fun it => well_formed_item it = true) items) as Hwf
    by (repeat constructor).
  split; [exact Hwf|].
  pose proof (fun k => parse_of_a_command_line "event" items k eq_refl eq_refl Hwf) as H.
  repeat split; apply H.
Defined.

(** ** Leaving a group *)

(** C7.  [group_leave] never takes the last leader away: a group of
    the channel that has a leader still has one afterwards, whoever
    asks.  When the requester is a leader of the group: if the group
    has exactly one leader the request fails with [LastLeader] and the
    store is unchanged; if the group has two leaders the request
    succeeds, the requester is no longer a member and one leader is
    left. *)
Theorem leave_keeps_a_leader ctx db group :
  well_formed db ->
  get_group_from_channel ctx db = Some group ->
  let gid := group_id group in
  let res := group_leave ctx db in
  ((1 <= leader_count db gid)%nat -> (1 <= leader_count res.2 gid)%nat)
  /\ (is_group_leader db gid (author ctx) = true ->
      (leader_count db gid = 1%nat ->
         fails_with LastLeader res.1 /\ res.2 = db)
      /\ (leader_count db gid = 2%nat ->
         res.1 = Replied [LeftGroup]
         /\ is_group_member res.2 gid (author ctx) = false
         /\ leader_count res.2 gid = 1%nat)).
Proof.
  intros Hwf Hg gid res. subst gid res. unfold group_leave. rewrite Hg.
  fold (leader_count db (group_id group)). split.
  - intros Hone.
    destruct (is_group_member _ _ _); [|done]. simpl.
    destruct (is_group_leader _ _ _) eqn:Hl; simpl.
    + case_bool_decide as Hn; [done|]. simpl.
      destruct (remove_leader db (group_id group) (author ctx) Hwf Hl) as [_ Hc].
      lia.
    + unfold leader_count. by rewrite remove_non_leader.
  - intros Hl. rewrite (is_group_leader_member _ _ _ Hl), Hl. simpl.
    split; intros Hn; rewrite Hn; simpl.
    + split; [|done]. by exists LastLeaderCannotLeave.
    + destruct (remove_leader db (group_id group) (author ctx) Hwf Hl) as [Hm Hc].
      split; [done|]. split; [done|]. lia.
Qed.

(** alice asks to leave the hikers, first as their only leader, then
    with bob leading too. *)
Lemma leave_keeps_a_leader_witness :
  let ctx := in_channel alice "circle leave" in
  let alone := community false (walk None approved) [] in
  let shared := community true (walk None approved) [] in
  (well_formed alone
   /\ get_group_from_channel ctx alone = Some hikers
   /\ is_group_leader alone 1 alice = true
   /\ leader_count alone 1 = 1%nat
   /\ fails_with LastLeader (group_leave ctx alone).1
   /\ (group_leave ctx alone).2 = alone)
  /\ (well_formed shared
      /\ get_group_from_channel ctx shared = Some hikers
      /\ is_group_leader shared 1 alice = true
      /\ leader_count shared 1 = 2%nat
      /\ (group_leave ctx shared).1 = Replied [LeftGroup]
      /\ is_group_member (group_leave ctx shared).2 1 alice = false
      /\ leader_count (group_leave ctx shared).2 1 = 1%nat).
Proof.
  intros ctx alone shared.
  assert (well_formed alone) as Hwf1 by sample_well_formed.
  assert (well_formed shared) as Hwf2 by sample_well_formed.
  split; do 4 (split; [done|]).
  - exact (proj1 (proj2 (leave_keeps_a_leader ctx alone hikers Hwf1 eq_refl) eq_refl)
             eq_refl).
  - exact (proj2 (proj2 (leave_keeps_a_leader ctx shared hikers Hwf2 eq_refl) eq_refl)
             eq_refl).
Defined.

(** ** Modifying an event *)

(** C8.  The claim holds for the merge of a lone [date] or [time]
    argument ([merge_date_only], [merge_time_only]), for the place of
    the date check, which reads the merged instant
    ([modify_date_time_checks_merged]), and for a [max] that is not a
    number ([event_modify_bad_number]).  The check itself is not the
    strict one the claim names: as in [event_create], a merged instant
    equal to the clock reading is accepted.  The walk is on the fifth
    of May at 9:30; at 11:00:00 sharp of that day its time is set to
    11:00 and the update is written. *)
Theorem modified_time_at_the_clock_reading_is_accepted :
  let ev := walk None approved in
  let db := community false ev [] in
  let ctx := in_thread alice "event modify time=11:00" in
  let res := event_modify ctx walk_day_at_eleven db in
  merge_date (parse_command_args (content ctx)) (date_time ev)
    ≫= merge_time (parse_command_args (content ctx)) = Some walk_day_at_eleven
  /\ ltb walk_day_at_eleven walk_day_at_eleven = false
  /\ res.1 = Replied [EventUpdated []]
  /\ date_time <$> Events res.2 = [walk_day_at_eleven].
Proof. vm_compute. by repeat split. Qed.

(** ** Changing the host *)

(** C9.  Whatever the outcome of [event_change_host], the tables of
    users and of attendees are the ones there were, and so is the list
    of attendees the store returns for any event; groups and members are
    untouched as well.  When the host is changed, the rows of the event
    take the new host and keep every other column, and the rows of other
    events are unchanged.  No assumption is made on the records of the
    new host. *)
Theorem change_host_leaves_attendees ctx db :
  let res := event_change_host ctx db in
  Users res.2 = Users db
  /\ EventAttendees res.2 = EventAttendees db
  /\ (forall eid, get_event_attendees res.2 eid = get_event_attendees db eid)
  /\ Groups res.2 = Groups db /\ GroupMembers res.2 = GroupMembers db
  /\ (forall new_host, res.1 = Replied [HostChanged new_host] ->
        exists event,
          get_event_from_thread ctx db = Some event
          /\ Events res.2
             = (fun e => if bool_decide (event_id e = event_id event)
                         then with_host new_host e else e) <$> Events db).
Proof.
  intros res. subst res. unfold event_change_host.
  destruct (get_event_from_thread ctx db) as [event|]; [|by repeat split].
  destruct (get_group db (event_group event)) as [group|]; [|by repeat split].
  destruct (_ && _); [by repeat split|].
  destruct (negb (given _ _)); [by repeat split|].
  destruct (first_digit_run _) as [new_host|]; [|by repeat split].
  destruct (negb (is_group_member _ _ _)); [by repeat split|].
  rewrite update_event_host. simpl.
  repeat split. intros h [= <-]. by exists event.
Qed.

(** alice hands the walk over to bob, who is on its waitlist. *)
Lemma change_host_leaves_attendees_witness :
  let ev := walk (Some 1) approved in
  let attendees := [mk_attendee 7 alice ATTENDING; mk_attendee 7 bob WAITLIST] in
  let db := community false ev attendees in
  let ctx := in_thread alice "event change host user=<@1002>" in
  (event_change_host ctx db).1 = Replied [HostChanged bob]
  /\ EventAttendees (event_change_host ctx db).2 = attendees
  /\ exists event,
       get_event_from_thread ctx db = Some event
       /\ Events (event_change_host ctx db).2
          = (fun e => if bool_decide (event_id e = event_id event)
                      then with_host bob e else e) <$> Events db.
Proof.
  intros ev attendees db ctx. split; [reflexivity|].
  destruct (change_host_leaves_attendees ctx db) as (_ & Hatt & _ & _ & _ & Hhost).
  split; [exact Hatt|]. exact (Hhost bob eq_refl).
Defined.
(** * Further properties of the code *)

(** ** Keys and texts without an equals sign *)

Module MoreParserFacts.
Import Py Parser Props ParserFacts.

Lemma lower_char_idem c : lower_char (lower_char c) = lower_char c.
Proof. destruct c as [[] [] [] [] [] [] [] []]; vm_compute; reflexivity. Qed.

Lemma lower_idem s : lower (lower s) = lower s.
Proof. induction s as [|c s IH]; simpl; [done|]. by rewrite lower_char_idem, IH. Qed.

Lemma last_value_key k ms v :
  last_value k ms = Some v -> exists m, m ∈ ms /\ lower m.1 = k /\ m.2 = v.
Proof.
  induction ms as [|m ms IH]; simpl; [done|].
  destruct (last_value k ms) as [u|].
  - intros [= <-]. destruct IH as (m' & Hin & Hk & Hv); [done|].
    exists m'. split; [by apply list_elem_of_further|done].
  - case_bool_decide; [|done]. intros [= <-]. exists m. split; [apply list_elem_of_here|done].
Qed.

Lemma every_drop_while p q s : every p s = true -> every p (drop_while q s) = true.
Proof.
  induction s as [|c s IH]; simpl; [done|]. intros H.
  destruct (q c); [apply IH; by apply andb_true_iff in H as [_ ?]|done].
Qed.

Lemma no_equals_quoted_at s :
  every (fun c => negb (is_equals c)) s = true -> quoted_at s = None.
Proof.
  intros H. unfold quoted_at. destruct (is_empty _); [done|].
  pose proof (every_drop_while _ is_word s H) as Hd.
  destruct (drop_while is_word s) as [|e [|q r]]; [done..|].
  simpl in Hd. apply andb_true_iff in Hd as [He _]. apply negb_true_iff in He.
  by rewrite He.
Qed.

Lemma no_equals_unquoted_at s :
  every (fun c => negb (is_equals c)) s = true -> unquoted_at s = None.
Proof.
  intros H. unfold unquoted_at. destruct (is_empty _); [done|].
  pose proof (every_drop_while _ is_word s H) as Hd.
  destruct (drop_while is_word s) as [|e r]; [done|].
  simpl in Hd. apply andb_true_iff in Hd as [He _]. apply negb_true_iff in He.
  by rewrite He.
Qed.

Lemma finditer_nothing at_ s :
  (forall t, every (fun c => negb (is_equals c)) t = true -> at_ t = None) ->
  every (fun c => negb (is_equals c)) s = true ->
  forall n, finditer_from at_ n s = [].
Proof.
  intros Hat. induction s as [|c s IH]; intros H n; [done|].
  simpl in H. pose proof H as H'. apply andb_true_iff in H as [Hc Hs].
  simpl. destruct n; [|by apply IH].
  rewrite Hat by (simpl; done). by apply IH.
Qed.

Lemma no_equals_parse_args_text text :
  every (fun c => negb (is_equals c)) text = true -> parse_args_text text = ∅.
Proof.
  intros H. unfold parse_args_text, quoted_pass, finditer.
  rewrite (finditer_nothing quoted_at text no_equals_quoted_at H). simpl.
  by rewrite (finditer_nothing unquoted_at text no_equals_unquoted_at H).
Qed.

End MoreParserFacts.

(** ** Fresh ids and rewritten tables *)

Module StoreFacts.
Import Py Datetime Db Props DbFacts Store.

(** A fresh id is larger than every id in use. *)
Lemma fresh_id_above ids i : i ∈ ids -> i < fresh_id ids.
Proof.
  unfold fresh_id. induction ids as [|j ids IH]; [by intros ?%not_elem_of_nil|].
  rewrite elem_of_cons. simpl. intros [->|Hin]; [lia|].
  specialize (IH Hin). lia.
Qed.

Lemma fresh_id_positive ids : 0 < fresh_id ids.
Proof. unfold fresh_id. induction ids as [|j ids IH]; simpl; lia. Qed.

Lemma head_filter_app_other {A} (P : A -> Prop) `{forall x, Decision (P x)}
    (l : list A) (x : A) :
  ~ P x -> head (filter P (l ++ [x])) = head (filter P l).
Proof.
  intros Hx. by rewrite filter_app, filter_cons_False, filter_nil, app_nil_r.
Qed.

(** The first row of a key in a table rewritten without touching the
    keys is the rewriting of the first row of the key. *)
Lemma head_filter_fmap {A K} `{EqDecision K} (key : A -> K) (f : A -> A)
    (l : list A) (k : K) :
  (forall a, key (f a) = key a) ->
  head (filter (fun a => key a = k) (f <$> l)) = f <$> head (filter (fun a => key a = k) l).
Proof.
  intros Hf. induction l as [|a l IH]; [done|].
  rewrite fmap_cons, !filter_cons, Hf.
  destruct (decide (key a = k)); [done|exact IH].
Qed.

Lemma set_status_twice eid uid s1 s2 a :
  set_status eid uid s2 (set_status eid uid s1 a) = set_status eid uid s2 a.
Proof.
  unfold set_status. destruct (attendee_matches eid uid a) eqn:E; [|by rewrite E].
  unfold attendee_matches; simpl. by rewrite !bool_decide_true.
Qed.

Lemma existsb_set_status eid uid s l :
  existsb (attendee_matches eid uid) (set_status eid uid s <$> l)
  = existsb (attendee_matches eid uid) l.
Proof.
  induction l as [|a l IH]; [done|]. rewrite fmap_cons. simpl. rewrite IH. f_equal.
  unfold set_status. destruct (attendee_matches eid uid a) eqn:E; [|done].
  unfold attendee_matches; simpl. by rewrite !bool_decide_true.
Qed.

Lemma attendee_matches_row eid uid s : attendee_matches eid uid (mk_attendee eid uid s) = true.
Proof. unfold attendee_matches; simpl. by rewrite !bool_decide_true. Qed.

Lemma existsb_app_true {A} (f : A -> bool) l x : f x = true -> existsb f (l ++ [x]) = true.
Proof. intros H. rewrite existsb_app. simpl. rewrite H. by rewrite orb_true_r. Qed.

Lemma fmap_set_status_none eid uid s l :
  existsb (attendee_matches eid uid) l = false -> set_status eid uid s <$> l = l.
Proof.
  induction l as [|a l IH]; [done|]. intros H. simpl in H.
  apply orb_false_iff in H as [Ha Hl]. rewrite fmap_cons, IH by done.
  unfold set_status. by rewrite Ha.
Qed.

End StoreFacts.

(** ** What the format of event_create reads *)

Module TimeFacts.
Import Py Datetime Terms.

Lemma between_value lo hi a :
  between lo hi a = true ->
  Z.of_N lo - 48 <= digit_value a <= Z.of_N hi - 48.
Proof.
  unfold between, digit_value. rewrite andb_true_iff, !N.leb_le. lia.
Qed.

Lemma is_code_value n a : is_code n a = true -> digit_value a = Z.of_N n - 48.
Proof. unfold is_code, digit_value. rewrite N.eqb_eq. intros ->. done. Qed.

Lemma is_digit_value a : is_digit a = true -> 0 <= digit_value a <= 9.
Proof. intros H. apply between_value in H. lia. Qed.

Lemma elem_of_one p v r s :
  (v, r) ∈ one p s -> exists a, p a = true /\ v = digit_value a.
Proof.
  unfold one. destruct s as [|a s]; [by intros ?%not_elem_of_nil|].
  destruct (p a) eqn:Hp; [|by intros ?%not_elem_of_nil].
  intros [= -> ->]%list_elem_of_singleton. eauto.
Qed.

Lemma elem_of_two p1 p2 v r s :
  (v, r) ∈ two p1 p2 s ->
  exists a b, p1 a = true /\ p2 b = true /\ v = 10 * digit_value a + digit_value b.
Proof.
  unfold two. destruct s as [|a [|b s]]; try by intros ?%not_elem_of_nil.
  destruct (p1 a && p2 b) eqn:Hp; [|by intros ?%not_elem_of_nil].
  apply andb_true_iff in Hp as [H1 H2].
  intros [= -> ->]%list_elem_of_singleton. eauto 6.
Qed.

Lemma re_H_range v r s : (v, r) ∈ re_H s -> 0 <= v <= 23.
Proof.
  unfold re_H, alt. rewrite !elem_of_app.
  intros [H|[H|H]].
  - apply elem_of_two in H as (a & b & Ha%is_code_value & Hb%between_value & ->). lia.
  - apply elem_of_two in H as (a & b & Ha%between_value & Hb%is_digit_value & ->). lia.
  - apply elem_of_one in H as (a & Ha%is_digit_value & ->). lia.
Qed.

Lemma re_M_range v r s : (v, r) ∈ re_M s -> 0 <= v <= 59.
Proof.
  unfold re_M, alt. rewrite !elem_of_app.
  intros [H|H].
  - apply elem_of_two in H as (a & b & Ha%between_value & Hb%is_digit_value & ->). lia.
  - apply elem_of_one in H as (a & Ha%is_digit_value & ->). lia.
Qed.

Lemma re_time_range h mi r s : ((h, mi), r) ∈ re_time s -> 0 <= h <= 23 /\ 0 <= mi <= 59.
Proof.
  unfold re_time. rewrite list_elem_of_bind. intros ([h' s1] & Hin & HH).
  apply list_elem_of_bind in Hin as ([[] s2] & Hin & _).
  apply list_elem_of_bind in Hin as ([mi' s3] & Hin & HM).
  apply list_elem_of_singleton in Hin. injection Hin as -> -> ->.
  split; [by eapply re_H_range | by eapply re_M_range].
Qed.

Lemma whole_elem {A} (ms : list (A * string)) a :
  whole ms = Some a -> (a, EmptyString) ∈ ms.
Proof.
  destruct ms as [|[a' [|]] ms]; try done. intros [= ->]. apply list_elem_of_here.
Qed.

(** What [strptime] reads with the format of [event_create] is a
    date-time of the calendar at the start of a minute. *)
Lemma strptime_date_time_whole_minute s d :
  strptime_date_time s = Some d -> whole_minute d.
Proof.
  unfold strptime_date_time. destruct (whole _) as [[[[y m] dd] [h mi]]|] eqn:Hw; [|done].
  simpl. destruct (valid_date y m dd) eqn:Hv; [|done]. intros [= <-].
  apply whole_elem in Hw.
  apply list_elem_of_bind in Hw as ([ymd s1] & Hin & _).
  apply list_elem_of_bind in Hin as ([[] s2] & Hin & _).
  apply list_elem_of_bind in Hin as ([hm s3] & Hin & Ht).
  apply list_elem_of_singleton in Hin. injection Hin as <- <- _.
  apply re_time_range in Ht.
  unfold whole_minute; simpl. tauto.
Qed.

End TimeFacts.

(** ** The writes of event_create *)

Module CreateFacts.
Import Py Parser Datetime Db Bot Events Groups Props Store Commands Terms.
Import DbFacts StoreFacts TimeFacts.

Lemma not_succeeds_raised e : ~ succeeds (Raised e).
Proof. by intros (msgs & [=] & _). Qed.

Lemma not_succeeds_failure r f : failure_of r = Some f -> ~ succeeds (Replied [r]).
Proof.
  intros Hf (msgs & [= <-] & Hall). apply Forall_cons in Hall as [Hr _]. congruence.
Qed.

(** No row of the table has the id a new row receives. *)
Lemma fresh_id_unused {A} (key : A -> Z) (l : list A) a :
  a ∈ l -> key a <> fresh_id (key <$> l).
Proof.
  intros Hin Heq. assert (key a ∈ key <$> l) as H by (apply list_elem_of_fmap; eauto).
  apply fresh_id_above in H. lia.
Qed.

Lemma fmap_unused_key {A} (key : A -> Z) (f : A -> A) (l : list A) k :
  (forall a, a ∈ l -> key a <> k) ->
  (fun a => if bool_decide (key a = k) then f a else a) <$> l = l.
Proof.
  intros H. induction l as [|a l IH]; [done|].
  rewrite fmap_cons, IH by (intros b Hb; apply H; by right).
  rewrite bool_decide_false by (apply H; by left). done.
Qed.

(** The two writes of [event_create] to [Events], when the thread was
    obtained: the new row is appended with its thread. *)
Lemma update_appended_event db e u :
  has_keys u = true ->
  event_id e = fresh_id (event_id <$> Events db) ->
  (update_event (with_Events db (Events db ++ [e])) (event_id e) u).2
  = with_Events db (Events db ++ [apply_update u e]).
Proof.
  intros Hu Hid. unfold update_event. rewrite Hu. unfold with_Events; simpl. f_equal.
  rewrite fmap_app, fmap_unused_key
    by (intros a Ha; rewrite Hid; by apply fresh_id_unused).
  simpl. by rewrite bool_decide_true.
Qed.

End CreateFacts.

(** ** Rows that the join with Users drops *)

Module JoinFacts.
Import Py Parser Datetime Db Bot Events Groups Props Store Commands Terms.
Import DbFacts StoreFacts.

Lemma no_user_row (us : list user_row) uid :
  uid ∉ user_id <$> us -> filter (fun u => user_id u = uid) us = [].
Proof.
  intros Hnot. apply filter_none, Forall_forall. intros u Hin Heq.
  apply Hnot, list_elem_of_fmap. eauto.
Qed.

(** A row of a user without a row in [Users] is not retrieved, whatever
    the row says. *)
Lemma get_event_attendees_unknown_user db e uid s eid :
  uid ∉ user_id <$> Users db ->
  get_event_attendees (add_event_attendee db e uid s) eid = get_event_attendees db eid.
Proof.
  intros Hnot. pose proof (no_user_row _ _ Hnot) as Hnone.
  unfold get_event_attendees, add_event_attendee; simpl.
  destruct (existsb _ _).
  - induction (EventAttendees db) as [|a l IH]; [done|].
    rewrite fmap_cons, !bind_cons, IH. f_equal.
    unfold set_status. destruct (attendee_matches e uid a) eqn:Hm; [|done].
    apply andb_true_iff in Hm as [_ Hu]. apply bool_decide_eq_true in Hu.
    simpl. rewrite Hu, Hnone. by repeat case_bool_decide.
  - rewrite bind_app, bind_cons. simpl. rewrite Hnone.
    case_bool_decide; by rewrite !app_nil_r.
Qed.

Lemma head_filter_app_found {A} (P : A -> Prop) `{forall x, Decision (P x)}
    (l l' : list A) (x : A) :
  head (filter P l) = Some x -> head (filter P (l ++ l')) = Some x.
Proof.
  intros Hx. rewrite filter_app. destruct (filter P l); [done|]. done.
Qed.

End JoinFacts.

(** ** Handlers that end on a failure *)

Module RefusalFacts.
Import Py Parser Datetime Db Bot Events Groups Props Store Commands Terms.
Import DbFacts StoreFacts.

Lemma update_event_true db eid u :
  has_keys u = true -> (update_event db eid u).1 = true.
Proof. intros H. unfold update_event. by rewrite H. Qed.

Lemma finish_modify_failure event u db :
  is_failure (finish_modify event u db).1 -> (finish_modify event u db).2 = db.
Proof.
  unfold finish_modify, update_event. destruct (has_keys u); simpl; [|done].
  by intros [].
Qed.

Lemma modify_date_time_failure event args now u db :
  is_failure (modify_date_time event args now u db).1 ->
  (modify_date_time event args now u db).2 = db.
Proof.
  unfold modify_date_time. repeat case_match; try done; apply finish_modify_failure.
Qed.

Lemma event_modify_failure ctx now db :
  is_failure (event_modify ctx now db).1 -> (event_modify ctx now db).2 = db.
Proof.
  unfold event_modify. repeat case_match; try done; apply modify_date_time_failure.
Qed.

Lemma event_confirm_failure ctx db :
  is_failure (event_confirm ctx db).1 -> (event_confirm ctx db).2 = db.
Proof. unfold event_confirm. repeat case_match; done. Qed.

Lemma event_unconfirm_failure ctx db :
  is_failure (event_unconfirm ctx db).1 -> (event_unconfirm ctx db).2 = db.
Proof. unfold event_unconfirm. repeat case_match; done. Qed.

Lemma event_change_host_failure ctx db :
  is_failure (event_change_host ctx db).1 -> (event_change_host ctx db).2 = db.
Proof.
  unfold event_change_host, update_event.
  repeat case_match; simplify_eq; try done.
  simpl. by intros [].
Qed.

Lemma event_create_failure ctx now thread db :
  is_failure (event_create ctx now thread db).1 ->
  (event_create ctx now thread db).1 <> Replied [ThreadCreateFailed] ->
  (event_create ctx now thread db).2 = db.
Proof.
  unfold event_create, create_event. cbv zeta.
  rewrite (bool_decide_false (fresh_id (event_id <$> Events db) = 0))
    by (pose proof (fresh_id_positive (event_id <$> Events db)); lia).
  repeat case_match; simplify_eq; try done.
Qed.

Lemma group_create_failure ctx admin_ids new_channel welcomed db :
  is_failure (group_create ctx admin_ids new_channel welcomed db).1 ->
  (group_create ctx admin_ids new_channel welcomed db).2 = db
  \/ ((group_create ctx admin_ids new_channel welcomed db).1 = Replied [GroupChannelFailed]
      /\ welcomed = false
      /\ exists g,
           group_id g = fresh_id (group_id <$> Groups db)
           /\ (group_create ctx admin_ids new_channel welcomed db).2
              = add_group_member (with_Groups db (Groups db ++ [g])) (group_id g)
                  (author ctx) true).
Proof.
  unfold group_create, create_group. cbv zeta.
  rewrite (bool_decide_false (fresh_id (group_id <$> Groups db) = 0))
    by (pose proof (fresh_id_positive (group_id <$> Groups db)); lia).
  repeat case_match; simplify_eq; try (by left).
  all: try (simpl; by intros []).
  all: intros _; right; do 2 (split; [done|]).
  all: match goal with |- context [Groups _ ++ [?g]] => exists g end.
  all: split; reflexivity.
Qed.

Lemma group_leave_failure ctx db :
  is_failure (group_leave ctx db).1 -> (group_leave ctx db).2 = db.
Proof. unfold group_leave. repeat case_match; try done. simpl. by intros []. Qed.

End RefusalFacts.

(** ** What event_modify leaves alone *)

Module FrameFacts.
Import Py Parser Datetime Db Bot Events Groups Props Store Commands Terms.
Import DbFacts StoreFacts.

Lemma modified_only_refl eid db : modified_only eid db db.
Proof. by repeat split. Qed.

Lemma update_event_modified_only db eid u :
  set_host_id u = None -> set_thread_id u = None ->
  modified_only eid db (update_event db eid u).2.
Proof.
  intros Hh Ht. unfold update_event. destruct (has_keys u); [|apply modified_only_refl].
  do 4 (split; [done|]). simpl. split.
  - rewrite <- list_fmap_compose. apply list_fmap_ext. intros _ e _. simpl.
    case_bool_decide; [|done]. unfold fixed_columns; simpl. by rewrite Hh, Ht.
  - induction (Events db) as [|e l IH]; [done|].
    rewrite fmap_cons, !filter_cons. case_bool_decide as He.
    + simpl. rewrite !decide_False by (intros Hne; by apply Hne). exact IH.
    + rewrite IH. done.
Qed.

Lemma finish_modify_modified_only event u db :
  set_host_id u = None -> set_thread_id u = None ->
  modified_only (event_id event) db (finish_modify event u db).2.
Proof.
  intros Hh Ht. unfold finish_modify.
  pose proof (update_event_modified_only db (event_id event) u Hh Ht) as Hup.
  destruct (has_keys u); [|apply modified_only_refl].
  destruct (update_event db (event_id event) u) as [[] db1]; exact Hup.
Qed.

Lemma modify_date_time_modified_only event args now u db :
  set_host_id u = None -> set_thread_id u = None ->
  modified_only (event_id event) db (modify_date_time event args now u db).2.
Proof.
  intros Hh Ht. unfold modify_date_time.
  repeat case_match; try apply modified_only_refl;
    by apply finish_modify_modified_only.
Qed.

End FrameFacts.

(** ** The waitlist command *)

Module WaitlistFacts.
Import Py Parser Datetime Db Bot Events Groups Props Store Commands Terms.
Import DbFacts RsvpFacts.

(** What [event_waitlist] did when its first message is the one of the
    waitlist. *)
Lemma event_waitlist_added ctx db msgs :
  (event_waitlist ctx db).1 = Sent (AddedToWaitlist :: msgs) ->
  exists ev,
    get_event_from_thread ctx db = Some ev
    /\ status ev = approved
    /\ is_group_member db (event_group ev) (author ctx) = true
    /\ (event_waitlist ctx db).2
       = add_event_attendee db (event_id ev) (author ctx) WAITLIST.
Proof.
  unfold event_waitlist.
  destruct (get_event_from_thread ctx db) as [ev|]; [|done].
  case_bool_decide as Hst; [done|].
  destruct (get_group db (event_group ev)) as [group|] eqn:Hg; [|done].
  apply head_Some_elem_of, list_elem_of_filter in Hg as [Hgid _].
  rewrite Hgid.
  destruct (is_group_member db (event_group ev) (author ctx)) eqn:Hm; [|done].
  intros _. exists ev. split; [done|].
  split; [by destruct (status ev)|]. done.
Qed.

End WaitlistFacts.

(** ** Members and users *)

Module MemberFacts.
Import Py Parser Datetime Db Bot Events Groups Props Store Commands Terms.
Import DbFacts GroupFacts StoreFacts.

Lemma is_group_member_false db gid uid :
  is_group_member db gid uid = false ->
  Forall (fun m => ¬ member_matches gid uid m) (GroupMembers db).
Proof.
  unfold is_group_member. intros H. apply Forall_forall. intros m Hin Hm.
  apply not_true_iff_false in H. apply H, existsb_exists. exists m.
  split; [by apply list_elem_of_In|]. by apply Is_true_true.
Qed.

Lemma member_matches_row gid uid l : member_matches gid uid (mk_member gid uid l) = true.
Proof. unfold member_matches; simpl. by rewrite !bool_decide_true. Qed.

(** A user who is not a member is added as the last row. *)
Lemma add_group_member_new db gid uid l :
  is_group_member db gid uid = false ->
  add_group_member db gid uid l
  = with_GroupMembers db (GroupMembers db ++ [mk_member gid uid l]).
Proof. unfold add_group_member, is_group_member. by intros ->. Qed.

Lemma add_group_member_well_formed db gid uid l :
  well_formed db -> well_formed (add_group_member db gid uid l).
Proof.
  intros Hwf. destruct (is_group_member db gid uid) eqn:Hm.
  - unfold add_group_member. unfold is_group_member in Hm. by rewrite Hm.
  - rewrite add_group_member_new by done. destruct Hwf as [H1 H2 H3].
    split; [done| |done]. simpl. rewrite fmap_app. apply NoDup_app.
    split; [done|]. split; [|apply NoDup_singleton].
    intros k Hk [= ->]%list_elem_of_singleton.
    apply list_elem_of_fmap in Hk as (m & Hkey & Hin).
    apply is_group_member_false in Hm. rewrite Forall_forall in Hm.
    apply (Hm m Hin). apply member_matches_key. done.
Qed.

Lemma remove_group_member_well_formed db gid uid :
  well_formed db -> well_formed (remove_group_member db gid uid).
Proof.
  intros [Ha Hm Hu]. split; [done| |done]. simpl.
  induction (GroupMembers db) as [|a l IH]; [done|].
  rewrite fmap_cons in Hm. apply NoDup_cons in Hm as [Hnotin Hnd].
  rewrite filter_cons. destruct (decide _); [|by apply IH].
  rewrite fmap_cons. apply NoDup_cons. split; [|by apply IH].
  intros Hin. apply Hnotin. apply list_elem_of_fmap in Hin as (b & Hb & Hin).
  apply list_elem_of_filter in Hin as [_ Hin]. apply list_elem_of_fmap. eauto.
Qed.

Lemma create_user_well_formed db uid : well_formed db -> well_formed (create_user db uid).
Proof.
  intros Hwf. unfold create_user. case_bool_decide as Hin; [done|].
  destruct Hwf as [H1 H2 H3]. split; [done|done|]. simpl.
  rewrite fmap_app. apply NoDup_app. split; [done|]. split; [|apply NoDup_singleton].
  by intros k Hk [= ->]%list_elem_of_singleton.
Qed.

Lemma create_user_known db uid : uid ∈ user_id <$> Users (create_user db uid).
Proof.
  unfold create_user. case_bool_decide as Hin; [done|]. simpl.
  rewrite fmap_app. apply elem_of_app. right. apply list_elem_of_here.
Qed.

(** What [group_join] did when its first message is the one of the
    success. *)
Lemma group_join_joined ctx present db g msgs :
  (group_join ctx present db).1 = Sent (JoinedGroup g :: msgs) ->
  g ∈ Groups db
  /\ is_open g = true
  /\ is_group_member db (group_id g) (author ctx) = false
  /\ (group_join ctx present db).2
     = create_user (add_group_member db (group_id g) (author ctx) false) (author ctx).
Proof.
  unfold group_join.
  destruct (negb (given _ "name")); [done|].
  destruct (get_group_by_name db _) as [group|] eqn:Hg; [|done].
  destruct (is_open group) eqn:Hopen; [|done]. cbn [negb].
  destruct (is_group_member db (group_id group) (author ctx)) eqn:Hm; [done|].
  destruct (int (channel_id group)) as [ch|]; [|done].
  cbn [fst snd]. intros Heq. injection Heq as <- _.
  apply head_Some_elem_of, list_elem_of_filter in Hg as [_ Hin]. done.
Qed.

End MemberFacts.

(** ** Group settings *)

Module SettingsFacts.
Import Py Parser Datetime Db Bot Events Groups Props Store Commands Terms.

Lemma checked_mode_valid valid v m :
  checked_mode valid v = Some (Some m) -> m ∈ valid.
Proof.
  unfold checked_mode. destruct v as [s|]; [|done].
  case_bool_decide; [|done]. by intros [= <-].
Qed.

Lemma update_group_ids db gid u :
  group_id <$> Groups (update_group db gid u).2 = group_id <$> Groups db
  /\ channel_id <$> Groups (update_group db gid u).2 = channel_id <$> Groups db
  /\ filter (fun g => group_id g <> gid) (Groups (update_group db gid u).2)
     = filter (fun g => group_id g <> gid) (Groups db).
Proof.
  unfold update_group. case_bool_decide; [|done]. simpl.
  split; [|split].
  - rewrite <- list_fmap_compose. apply list_fmap_ext. intros _ g _. simpl.
    by case_bool_decide.
  - rewrite <- list_fmap_compose. apply list_fmap_ext. intros _ g _. simpl.
    by case_bool_decide.
  - induction (Groups db) as [|g l IH]; [done|].
    rewrite fmap_cons, !filter_cons. case_bool_decide as Hg.
    + simpl. rewrite !decide_False by (intros Hne; by apply Hne). exact IH.
    + rewrite IH. done.
Qed.

Lemma update_group_modes db gid u :
  (forall m, put_event_approval_mode u = Some m -> m ∈ ["none"; "public"; "all"]) ->
  (forall m, put_event_attendee_management_mode u = Some m -> m ∈ ["host"; "self"]) ->
  Forall modes_valid (Groups db) ->
  Forall modes_valid (Groups (update_group db gid u).2).
Proof.
  intros Ha Hm Hall. unfold update_group. case_bool_decide; [|done]. simpl.
  apply Forall_fmap. eapply Forall_impl; [exact Hall|].
  intros g [Hg1 Hg2]. simpl. case_bool_decide; [|done].
  split; simpl.
  - destruct (put_event_approval_mode u) as [m|]; [by apply Ha|done].
  - destruct (put_event_attendee_management_mode u) as [m|]; [by apply Hm|done].
Qed.

(** The store [group_modify] leaves is the one it found or the one
    [update_group] made of it. *)
Lemma group_modify_store ctx db g :
  get_group_from_channel ctx db = Some g ->
  (group_modify ctx db).2 = db
  \/ exists u, (group_modify ctx db).2 = (update_group db (group_id g) u).2.
Proof.
  intros Hg. unfold group_modify. rewrite Hg.
  destruct (negb _); [by left|]. case_bool_decide; [by left|].
  destruct (checked_mode _ (_ !! "event_approval_mode")) as [approval|]; [|by left].
  destruct (checked_mode _ (_ !! "event_attendee_management_mode"))
    as [management|]; [|by left].
  destruct (match _ !! "contributor_events_required" with Some _ => _ | None => _ end)
    as [required|]; [|by left].
  case_bool_decide; [|by left].
  match goal with
  | |- context [update_group ?d ?i ?u] =>
      right; exists u; by destruct (update_group d i u) as [[] db1]
  end.
Qed.

End SettingsFacts.

(** ** Members who leave the server *)

Module DepartureFacts.
Import Py Parser Datetime Db Bot Events Groups Props Store Commands Terms.
Import DbFacts GroupFacts.

Lemma rows_of_others_remove uid gid db :
  rows_of_others uid (remove_group_member db gid uid) = rows_of_others uid db.
Proof.
  unfold rows_of_others, remove_group_member; simpl.
  rewrite list_filter_filter. apply list_filter_iff. intros m. split; [tauto|].
  intros Hne. split; [done|]. intros Hm%member_matches_key. injection Hm as _ Hm. done.
Qed.

(** The loop of [on_member_remove]: only [GroupMembers] is written, and
    only rows of the departed user; when every channel id reads as a
    number the loop ends and has deleted the rows of the user in the
    groups it was given. *)
Lemma remove_from_groups_spec present uid groups sent db :
  let r := remove_from_groups present uid groups sent db in
  Users r.2 = Users db /\ Groups r.2 = Groups db /\ Events r.2 = Events db
  /\ EventAttendees r.2 = EventAttendees db
  /\ rows_of_others uid r.2 = rows_of_others uid db
  /\ (Forall (fun g => is_Some (int (channel_id g))) groups ->
      (exists msgs, r.1 = Sent msgs)
      /\ GroupMembers r.2
         = filter (fun m => ¬ (member_user m = uid
                               /\ member_group m ∈ group_id <$> groups))
             (GroupMembers db)).
Proof.
  revert sent db. induction groups as [|g groups IH]; intros sent db r; subst r.
  - simpl. do 5 (split; [done|]). intros _. split; [by eexists|].
    symmetry. apply filter_all, Forall_forall. intros m _ [_ Hin].
    by apply not_elem_of_nil in Hin.
  - simpl. destruct (int (channel_id g)) as [ch|] eqn:Hch.
    + specialize (IH (sent ++ if present ch then [RemovedFromGroup g] else [])
                     (remove_group_member db (group_id g) uid)).
      cbv zeta in IH. destruct IH as (H1 & H2 & H3 & H4 & H5 & H6).
      rewrite rows_of_others_remove in H5.
      do 5 (split; [done|]). intros Hall. apply Forall_cons in Hall as [_ Hall].
      destruct (H6 Hall) as [Hsent Hgm]. split; [done|].
      rewrite Hgm. simpl. rewrite list_filter_filter. apply list_filter_iff.
      intros m. rewrite elem_of_cons. split.
      * intros [Hrest Hhead] [Hu [Hg|Hin]].
        -- apply Hhead, member_matches_key. unfold member_key. congruence.
        -- by apply Hrest.
      * intros Hnot. split.
        -- intros [Hu Hin]. apply Hnot. by auto.
        -- intros Hm%member_matches_key. injection Hm as Hg Hu.
           apply Hnot. by auto.
    + simpl. rewrite rows_of_others_remove. do 5 (split; [done|]).
      intros Hall. apply Forall_cons in Hall as [[? Hsome] _]. congruence.
Qed.

Lemma elem_of_groups_of_user db uid g :
  g ∈ groups_of_user db uid
  <-> g ∈ Groups db
      /\ exists m, m ∈ GroupMembers db /\ member_group m = group_id g /\ member_user m = uid.
Proof.
  unfold groups_of_user. rewrite list_elem_of_bind. split.
  - intros (g' & Hin & Hg'). apply list_elem_of_fmap in Hin as (m & -> & Hm).
    apply list_elem_of_filter in Hm as [[? ?] ?]. eauto 6.
  - intros (Hg & m & Hm & Hgid & Hu). exists g. split; [|done].
    apply list_elem_of_fmap. exists m. split; [done|].
    apply list_elem_of_filter. done.
Qed.

Lemma on_member_remove_spec uid present db :
  numeric_channels db ->
  let r := on_member_remove uid present db in
  (exists msgs, r.1 = Sent msgs)
  /\ GroupMembers r.2
     = filter (fun m => ¬ (member_user m = uid
                           /\ member_group m ∈ group_id <$> Groups db))
         (GroupMembers db).
Proof.
  intros Hnum r. subst r. unfold on_member_remove.
  destruct (remove_from_groups_spec present uid (groups_of_user db uid) [] db)
    as (_ & _ & _ & _ & _ & H).
  destruct H as [Hsent Hgm].
  { apply Forall_forall. intros g Hg%elem_of_groups_of_user.
    unfold numeric_channels in Hnum. rewrite Forall_forall in Hnum.
    apply Hnum. tauto. }
  split; [done|]. rewrite Hgm. apply filter_iff_in. intros m Hm.
  split; intros Hnot [Hu Hin]; apply Hnot; (split; [done|]).
  - apply list_elem_of_fmap in Hin as (g & Hg & Hin).
    apply list_elem_of_fmap. exists g. split; [done|].
    apply elem_of_groups_of_user. split; [done|]. exists m. done.
  - apply list_elem_of_fmap in Hin as (g & Hg & Hin%elem_of_groups_of_user).
    apply list_elem_of_fmap. exists g. tauto.
Qed.

End DepartureFacts.

(** ** Command phrases *)

Module RouteFacts.
Import Py Parser Datetime Db Bot Events Groups Props Store Commands Terms.
Import MoreParserFacts.

Lemma eqb_lower_char a b : Ascii.eqb a (lower_char b) = true -> lower_char a = a.
Proof. intros ->%Ascii.eqb_eq. apply lower_char_idem. Qed.

(** A prefix of a text in lower case is in lower case. *)
Lemma startswith_lower p s : startswith p (lower s) = true -> lower p = p.
Proof.
  revert s. induction p as [|a p IH]; intros [|b s]; simpl; try done.
  intros [Ha Hp]%andb_true_iff. by rewrite (eqb_lower_char a b Ha), (IH s Hp).
Qed.

(** Two prefixes of one text: one is a prefix of the other. *)
Lemma startswith_both p q s :
  startswith p s = true -> startswith q s = true ->
  startswith p q = true \/ startswith q p = true.
Proof.
  revert q s. induction p as [|a p IH]; intros [|b q] [|c s]; simpl; try by auto.
  intros [Ha Hp]%andb_true_iff [Hb Hq]%andb_true_iff.
  apply Ascii.eqb_eq in Ha as ->. apply Ascii.eqb_eq in Hb as ->.
  rewrite Ascii.eqb_refl. simpl. by eapply IH.
Qed.

Lemma event_route_phrase commands content c :
  event_route commands content = Some c ->
  startswith (event_phrase commands c) (lower content) = true.
Proof.
  unfold event_route. repeat case_match; try done; by intros [= <-].
Qed.

Lemma group_route_phrase commands content c :
  group_route commands content = Some c ->
  startswith (group_phrase commands c) (lower content) = true.
Proof.
  unfold group_route. repeat case_match; try done; by intros [= <-].
Qed.

Ltac exclusive :=
  match goal with
  | H1 : startswith ?p ?s = true, H2 : startswith ?q ?s = true |- _ =>
      lazymatch p with
      | q => fail
      | _ => let Hc := fresh in
             destruct (startswith_both p q s H1 H2) as [Hc|Hc];
             vm_compute in Hc; discriminate Hc
      end
  end.

End RouteFacts.

(** ** Keys of the tables along a run *)

Module ReachFacts.
Import Py Parser Datetime Db Bot Events Groups Props Store Commands Terms.
Import DbFacts StoreFacts MemberFacts.

Lemma well_formed_tables db db' :
  EventAttendees db' = EventAttendees db -> GroupMembers db' = GroupMembers db ->
  Users db' = Users db -> well_formed db -> well_formed db'.
Proof. intros Ha Hm Hu [H1 H2 H3]. split; by rewrite ?Ha, ?Hm, ?Hu. Qed.

Lemma update_event_well_formed db eid u :
  well_formed db -> well_formed (update_event db eid u).2.
Proof. unfold update_event. destruct (has_keys u); [|done]. by intros []. Qed.

Lemma update_group_well_formed db gid u :
  well_formed db -> well_formed (update_group db gid u).2.
Proof. unfold update_group. case_bool_decide; [|done]. by intros []. Qed.

Lemma create_event_well_formed db data :
  well_formed db -> well_formed (create_event db data).2.
Proof. by intros []. Qed.

Lemma create_group_well_formed db data :
  well_formed db -> well_formed (create_group db data).2.
Proof. by intros []. Qed.

Ltac name_pairs :=
  repeat match goal with
  | H : update_event ?d ?i ?u = (_, ?d1) |- _ =>
      assert (d1 = (update_event d i u).2) as -> by (by rewrite H); clear H
  | H : update_group ?d ?i ?u = (_, ?d1) |- _ =>
      assert (d1 = (update_group d i u).2) as -> by (by rewrite H); clear H
  | H : create_event ?d ?f = (_, ?d1) |- _ =>
      assert (d1 = (create_event d f).2) as -> by (by rewrite H); clear H
  | H : create_group ?d ?f = (_, ?d1) |- _ =>
      assert (d1 = (create_group d f).2) as -> by (by rewrite H); clear H
  end.

Ltac kept :=
  cbn [fst snd];
  repeat first
    [ assumption
    | apply add_event_attendee_well_formed
    | apply remove_event_attendee_well_formed
    | apply add_group_member_well_formed
    | apply remove_group_member_well_formed
    | apply create_user_well_formed
    | apply update_event_well_formed
    | apply update_group_well_formed
    | apply create_event_well_formed
    | apply create_group_well_formed ].

Lemma event_create_well_formed ctx now thread db :
  well_formed db -> well_formed (event_create ctx now thread db).2.
Proof. intros Hwf. unfold event_create. repeat case_match; name_pairs; kept. Qed.

Lemma event_modify_well_formed ctx now db :
  well_formed db -> well_formed (event_modify ctx now db).2.
Proof.
  intros Hwf. unfold event_modify, modify_date_time, finish_modify.
  repeat case_match; name_pairs; kept.
Qed.

Lemma event_confirm_well_formed ctx db :
  well_formed db -> well_formed (event_confirm ctx db).2.
Proof. intros Hwf. unfold event_confirm. repeat case_match; name_pairs; kept. Qed.

Lemma event_unconfirm_well_formed ctx db :
  well_formed db -> well_formed (event_unconfirm ctx db).2.
Proof. intros Hwf. unfold event_unconfirm. repeat case_match; name_pairs; kept. Qed.

Lemma event_waitlist_well_formed ctx db :
  well_formed db -> well_formed (event_waitlist ctx db).2.
Proof. intros Hwf. unfold event_waitlist. repeat case_match; name_pairs; kept. Qed.

Lemma event_info_same ctx db : (event_info ctx db).2 = db.
Proof. unfold event_info. by repeat case_match. Qed.

Lemma event_change_host_well_formed ctx db :
  well_formed db -> well_formed (event_change_host ctx db).2.
Proof. intros Hwf. unfold event_change_host. repeat case_match; name_pairs; kept. Qed.

Lemma group_create_well_formed ctx admin_ids new_channel welcomed db :
  well_formed db -> well_formed (group_create ctx admin_ids new_channel welcomed db).2.
Proof. intros Hwf. unfold group_create. repeat case_match; name_pairs; kept. Qed.

Lemma group_join_well_formed ctx present db :
  well_formed db -> well_formed (group_join ctx present db).2.
Proof. intros Hwf. unfold group_join. repeat case_match; name_pairs; kept. Qed.

Lemma group_leave_well_formed ctx db :
  well_formed db -> well_formed (group_leave ctx db).2.
Proof. intros Hwf. unfold group_leave. repeat case_match; name_pairs; kept. Qed.

Lemma group_info_same ctx db : (group_info ctx db).2 = db.
Proof. unfold group_info. by repeat case_match. Qed.

Lemma group_modify_well_formed ctx db :
  well_formed db -> well_formed (group_modify ctx db).2.
Proof. intros Hwf. unfold group_modify. repeat case_match; name_pairs; kept. Qed.

Lemma remove_from_groups_well_formed present uid groups sent db :
  well_formed db -> well_formed (remove_from_groups present uid groups sent db).2.
Proof.
  revert sent db. induction groups as [|g groups IH]; intros sent db Hwf; [done|].
  simpl. destruct (int (channel_id g)).
  - apply IH. by apply remove_group_member_well_formed.
  - by apply remove_group_member_well_formed.
Qed.

Lemma events_on_message_well_formed commands w m db :
  well_formed db -> well_formed (events_on_message commands w m db).2.
Proof.
  intros Hwf. unfold events_on_message.
  destruct (_ || _); [done|].
  destruct (event_route _ _) as [[]|]; cbn [snd]; try done.
  - by apply event_create_well_formed.
  - by apply event_modify_well_formed.
  - by apply event_confirm_well_formed.
  - by apply event_unconfirm_well_formed.
  - by apply event_waitlist_well_formed.
  - by rewrite event_info_same.
  - by apply event_change_host_well_formed.
Qed.

Lemma groups_on_message_well_formed commands w m db :
  well_formed db -> well_formed (groups_on_message commands w m db).2.
Proof.
  intros Hwf. unfold groups_on_message.
  destruct (_ || _); [done|].
  destruct (group_route _ _) as [[]|]; cbn [snd]; try done.
  - by apply group_create_well_formed.
  - by apply group_join_well_formed.
  - by apply group_leave_well_formed.
  - by rewrite group_info_same.
  - by apply group_modify_well_formed.
Qed.

End ReachFacts.

(** ** The approval status along a run *)

Module StatusFacts.
Import Py Parser Datetime Db Bot Events Groups Props Store Commands Terms.
Import DbFacts StoreFacts MemberFacts DepartureFacts ReachFacts.

Lemma approval_update_event db eid u :
  approval <$> Events (update_event db eid u).2 = approval <$> Events db.
Proof.
  unfold update_event. destruct (has_keys u); [|done]. simpl.
  rewrite <- list_fmap_compose. apply list_fmap_ext. intros _ e _. simpl.
  by case_bool_decide.
Qed.

Lemma Events_create_user db uid : Events (create_user db uid) = Events db.
Proof. unfold create_user. by case_bool_decide. Qed.

Lemma Events_add_group_member db gid uid l : Events (add_group_member db gid uid l) = Events db.
Proof. unfold add_group_member. by destruct (existsb _ _). Qed.

Lemma Events_update_group db gid u : Events (update_group db gid u).2 = Events db.
Proof. unfold update_group. by case_bool_decide. Qed.

Ltac same_events :=
  cbn [fst snd];
  repeat first
    [ done
    | rewrite approval_update_event
    | rewrite Events_create_user
    | rewrite Events_add_group_member
    | rewrite Events_update_group
    | progress cbn [Events add_event_attendee remove_event_attendee with_EventAttendees
                    remove_group_member with_GroupMembers create_group with_Groups snd] ].

Lemma event_modify_status ctx now db :
  approval <$> Events (event_modify ctx now db).2 = approval <$> Events db.
Proof.
  unfold event_modify, modify_date_time, finish_modify.
  repeat case_match; name_pairs; same_events.
Qed.

Lemma event_confirm_status ctx db :
  approval <$> Events (event_confirm ctx db).2 = approval <$> Events db.
Proof. unfold event_confirm. repeat case_match; name_pairs; same_events. Qed.

Lemma event_unconfirm_status ctx db :
  approval <$> Events (event_unconfirm ctx db).2 = approval <$> Events db.
Proof. unfold event_unconfirm. repeat case_match; name_pairs; same_events. Qed.

Lemma event_waitlist_status ctx db :
  approval <$> Events (event_waitlist ctx db).2 = approval <$> Events db.
Proof. unfold event_waitlist. repeat case_match; name_pairs; same_events. Qed.

Lemma event_change_host_status ctx db :
  approval <$> Events (event_change_host ctx db).2 = approval <$> Events db.
Proof. unfold event_change_host. repeat case_match; name_pairs; same_events. Qed.

Lemma event_create_status ctx now thread db :
  exists new,
    approval <$> Events (event_create ctx now thread db).2
    = (approval <$> Events db) ++ new.
Proof.
  unfold event_create. repeat case_match; name_pairs; cbn [fst snd];
    try (exists []; by rewrite app_nil_r).
  all: eexists; rewrite ?approval_update_event;
    cbn [Events add_event_attendee with_EventAttendees create_event with_Events snd];
    rewrite ?approval_update_event;
    cbn [Events add_event_attendee with_EventAttendees create_event with_Events snd];
    by rewrite fmap_app.
Qed.

Lemma group_create_events ctx admin_ids new_channel welcomed db :
  Events (group_create ctx admin_ids new_channel welcomed db).2 = Events db.
Proof. unfold group_create. repeat case_match; name_pairs; same_events. Qed.

Lemma group_join_events ctx present db : Events (group_join ctx present db).2 = Events db.
Proof. unfold group_join. repeat case_match; name_pairs; same_events. Qed.

Lemma group_leave_events ctx db : Events (group_leave ctx db).2 = Events db.
Proof. unfold group_leave. repeat case_match; name_pairs; same_events. Qed.

Lemma group_modify_events ctx db : Events (group_modify ctx db).2 = Events db.
Proof. unfold group_modify. repeat case_match; name_pairs; same_events. Qed.

Lemma events_on_message_status commands w m db :
  exists new,
    approval <$> Events (events_on_message commands w m db).2
    = (approval <$> Events db) ++ new.
Proof.
  unfold events_on_message.
  destruct (_ || _); [exists []; by rewrite app_nil_r|].
  destruct (event_route _ _) as [[]|]; cbn [snd];
    try apply event_create_status; exists []; rewrite app_nil_r; try done.
  - apply event_modify_status.
  - apply event_confirm_status.
  - apply event_unconfirm_status.
  - apply event_waitlist_status.
  - by rewrite event_info_same.
  - apply event_change_host_status.
Qed.

Lemma groups_on_message_events commands w m db :
  Events (groups_on_message commands w m db).2 = Events db.
Proof.
  unfold groups_on_message.
  destruct (_ || _); [done|].
  destruct (group_route _ _) as [[]|]; cbn [snd]; try done.
  - apply group_create_events.
  - apply group_join_events.
  - apply group_leave_events.
  - by rewrite group_info_same.
  - apply group_modify_events.
Qed.

End StatusFacts.

(** ** The properties *)

Import Store Commands Terms.

Import MoreParserFacts StoreFacts TimeFacts CreateFacts JoinFacts RefusalFacts FrameFacts.
Import WaitlistFacts MemberFacts SettingsFacts DepartureFacts RouteFacts ReachFacts.
Import StatusFacts.

(** [parse_command_args]: every key of the dictionary it returns is in
    lower case, so a handler that looks up a key with a capital letter
    never finds it. *)
Theorem parsed_keys_are_lower_case content k :
  is_Some (parse_command_args content !! k) -> lower k = k.
Proof.
  unfold parse_command_args.
  destruct (split_maxsplit1 content) as [|cmd [|text [|]]];
    try (rewrite lookup_empty; by intros [? ?]).
  rewrite parse_args_text_lookup. intros [v Hv].
  destruct (last_value k (finditer unquoted_at _)) as [u|] eqn:Hu.
  - apply last_value_key in Hu as (m & _ & <- & _). apply lower_idem.
  - apply last_value_key in Hv as (m & _ & <- & _). apply lower_idem.
Qed.

Lemma parsed_keys_are_lower_case_witness :
  let content := "event new " +:+ quoted "NAME" "Game Night" +:+ " Max=3" in
  is_Some (parse_command_args content !! "max")
  /\ parse_command_args content !! "name" = Some "Game Night"
  /\ parse_command_args content !! "NAME" = None
  /\ lower "max" = "max".
Proof.
  intros content.
  assert (is_Some (parse_command_args content !! "max")) as H by (vm_compute; eauto).
  split; [exact H|]. do 2 (split; [reflexivity|]).
  exact (parsed_keys_are_lower_case content "max" H).
Defined.

(** [parse_command_args]: a message without an equals sign has no
    arguments, whatever else it holds. *)
Theorem no_equals_sign_no_arguments content :
  every (fun c => negb (is_equals c)) content = true ->
  parse_command_args content = ∅.
Proof.
  intros H. unfold parse_command_args, split_maxsplit1.
  destruct (is_empty (drop_while is_space content)); [done|].
  destruct (is_empty _) eqn:He; [done|].
  apply no_equals_parse_args_text. by do 3 apply every_drop_while.
Qed.

Lemma no_equals_sign_no_arguments_witness :
  every (fun c => negb (is_equals c)) "event confirm please, name: me" = true
  /\ parse_command_args "event confirm please, name: me" = ∅.
Proof.
  split; [reflexivity|].
  apply no_equals_sign_no_arguments. reflexivity.
Defined.

(** [add_event_attendee] on a store with unique keys: the keys stay unique,
    the pair of event and user has exactly one row, with the status
    given; the rows of every other pair are the ones there were; the
    table grows by one row exactly when the pair had none. *)
Theorem upsert_contract db eid uid s :
  well_formed db ->
  let db' := add_event_attendee db eid uid s in
  well_formed db'
  /\ records_of db' eid uid = [mk_attendee eid uid s]
  /\ (forall e u, (e, u) <> (eid, uid) -> records_of db' e u = records_of db e u)
  /\ length (EventAttendees db')
     = (length (EventAttendees db)
        + match records_of db eid uid with [] => 1 | _ => 0 end)%nat.
Proof.
  intros Hwf db'. split; [by apply add_event_attendee_well_formed|].
  split; [by apply add_event_attendee_records|].
  split; [intros e u Hne; by apply add_event_attendee_others|].
  destruct (records_of db eid uid) as [|a l] eqn:Hr.
  - subst db'. rewrite add_event_attendee_new by done. rewrite length_app. simpl. lia.
  - assert (existsb (attendee_matches eid uid) (EventAttendees db) = true) as Hex.
    { apply not_false_iff_true. intros Hf. apply records_of_nil in Hf. congruence. }
    subst db'. unfold add_event_attendee; simpl. rewrite Hex, length_fmap. lia.
Qed.

Lemma upsert_contract_witness :
  let db := community false (walk None approved)
              [mk_attendee 7 alice ATTENDING; mk_attendee 7 bob WAITLIST] in
  well_formed db
  /\ records_of (add_event_attendee db 7 bob DECLINED) 7 bob = [mk_attendee 7 bob DECLINED]
  /\ length (EventAttendees (add_event_attendee db 7 bob DECLINED)) = 2%nat.
Proof.
  intros db. assert (well_formed db) as Hwf by (split; (apply (bool_decide_unpack _); vm_compute; exact I)).
  split; [exact Hwf|].
  destruct (upsert_contract db 7 bob DECLINED Hwf) as (_ & Hrec & _ & Hlen).
  split; [exact Hrec|exact Hlen].
Defined.

(** [add_event_attendee] twice for one event and one user: the store is
    the one the second call alone would leave. *)
Theorem last_status_written_wins db eid uid s1 s2 :
  add_event_attendee (add_event_attendee db eid uid s1) eid uid s2
  = add_event_attendee db eid uid s2.
Proof.
  destruct db as [us gs ms es ats]. unfold add_event_attendee, with_EventAttendees; simpl.
  f_equal. destruct (existsb (attendee_matches eid uid) ats) eqn:Hex.
  - rewrite existsb_set_status, Hex, <- list_fmap_compose.
    apply list_fmap_ext. intros _ a _. apply set_status_twice.
  - rewrite existsb_app_true by apply attendee_matches_row.
    rewrite fmap_app, fmap_set_status_none by done. simpl.
    unfold set_status. by rewrite attendee_matches_row.
Qed.

(** [remove_event_attendee] undoes [add_event_attendee] for a user who
    had no row for the event: the store is the one before. *)
Theorem add_then_remove_attendee db eid uid s :
  records_of db eid uid = [] ->
  remove_event_attendee (add_event_attendee db eid uid s) eid uid = db.
Proof.
  intros Hnone. pose proof Hnone as Hnil. apply records_of_nil in Hnil.
  destruct db as [us gs ms es ats].
  unfold remove_event_attendee, add_event_attendee, with_EventAttendees in *; simpl in *.
  f_equal. rewrite Hnil, filter_app, filter_cons_False, filter_nil, app_nil_r
    by (intros Hn; apply Hn, Is_true_true, attendee_matches_row).
  apply filter_all, Forall_forall. intros a Hin Hm.
  assert (a ∈ filter (fun a => attendee_matches eid uid a) ats) as Ha
    by (by apply list_elem_of_filter).
  unfold records_of in Hnone; simpl in Hnone. rewrite Hnone in Ha.
  by apply not_elem_of_nil in Ha.
Qed.

Lemma add_then_remove_attendee_witness :
  let db := community false (walk None approved) [mk_attendee 7 alice ATTENDING] in
  records_of db 7 carol = []
  /\ remove_event_attendee (add_event_attendee db 7 carol WAITLIST) 7 carol = db.
Proof.
  intros db. split; [reflexivity|]. apply add_then_remove_attendee. reflexivity.
Defined.

(** [create_event] then [get_event]: the id returned was in use by no
    event, [get_event] of that id returns the inserted row, and the
    answer for every other id is the one before. *)
Theorem created_event_is_found db data :
  (forall i, event_id (data i) = i) ->
  let eid := (create_event db data).1 in
  let db' := (create_event db data).2 in
  (eid ∉ event_id <$> Events db)
  /\ get_event db' eid = Some (data eid)
  /\ (forall i, i <> eid -> get_event db' i = get_event db i).
Proof.
  intros Hid eid db'. subst eid db'. unfold create_event, get_event; simpl.
  set (eid := fresh_id (event_id <$> Events db)).
  assert (eid ∉ (event_id <$> Events db)) as Hfresh.
  { intros Hin. apply fresh_id_above in Hin. fold eid in Hin. lia. }
  split; [done|]. split.
  - rewrite filter_app, filter_cons_True, filter_nil by apply Hid.
    rewrite filter_none; [done|]. apply Forall_forall. intros e Hin He.
    apply Hfresh. rewrite <- He. by apply list_elem_of_fmap_2.
  - intros i Hi. apply head_filter_app_other. rewrite Hid. done.
Qed.

Lemma created_event_is_found_witness :
  let db := community false (walk None approved) [] in
  let data i := mk_event i 1 bob "Swim" walk_time "Lake" "2 Shore Rd" "Towels"
                  None true pending None in
  (forall i, event_id (data i) = i)
  /\ (create_event db data).1 = 8
  /\ get_event (create_event db data).2 8 = Some (data 8)
  /\ get_event (create_event db data).2 7 = get_event db 7.
Proof.
  intros db data. split; [reflexivity|]. split; [reflexivity|].
  destruct (created_event_is_found db data (fun i => eq_refl)) as (_ & Hnew & Hold).
  split; [exact Hnew|]. apply Hold. discriminate.
Defined.



(** [get_event_attendees] with a status returns what the list
    comprehensions of the handlers select by that status from the
    answer without a status. *)
Theorem attendees_by_status_is_selection db eid s :
  get_event_attendees_by db eid (Some s) = with_status s (get_event_attendees db eid).
Proof.
  unfold get_event_attendees_by, get_event_attendees, with_status.
  induction (EventAttendees db) as [|a l IH]; [done|].
  rewrite !bind_cons, IH, filter_app. f_equal.
  assert (forall us : list user_row,
            filter (fun a => rsvp_status a = s) ((fun _ => a) <$> us)
            = if bool_decide (rsvp_status a = s) then (fun _ => a) <$> us else []) as Hconst.
  { intros us. induction us as [|u us IHu]; [by case_bool_decide|].
    rewrite fmap_cons, filter_cons, IHu. case_bool_decide.
    - by rewrite decide_True.
    - by rewrite decide_False. }
  destruct (decide (attendee_event a = eid)) as [He|He].
  - rewrite (bool_decide_true (attendee_event a = eid)) by done. rewrite Hconst.
    destruct (decide (rsvp_status a = s)).
    + by rewrite !bool_decide_true.
    + rewrite bool_decide_false by tauto. by rewrite bool_decide_false.
  - rewrite (bool_decide_false (attendee_event a = eid)) by done.
    rewrite bool_decide_false by tauto. done.
Qed.

(** [event_create] when it reports no failure: the channel is the one of
    a group, a thread was obtained, and exactly one event row was
    appended, with an id no event had, the group of the channel, the
    author as host and the thread; it is approved exactly when the
    approval mode of the group is the text none, and pending otherwise;
    its date and time are a calendar date-time at the start of a minute
    that is not before the clock; the host has exactly one attendee row
    for it, with status ATTENDING; no other attendee row and no other
    table changes, and the keys stay unique. *)
Theorem event_create_records_the_event ctx now thread db :
  well_formed db ->
  succeeds (event_create ctx now thread db).1 ->
  let db' := (event_create ctx now thread db).2 in
  exists group th e,
    get_group_from_channel ctx db = Some group
    /\ thread = Some th
    /\ Events db' = Events db ++ [e]
    /\ event_id e = fresh_id (event_id <$> Events db)
    /\ event_group e = group_id group
    /\ host_id e = author ctx
    /\ thread_id e = Some th
    /\ (status e = approved <-> event_approval_mode group = "none")
    /\ (status e = approved \/ status e = pending)
    /\ whole_minute (date_time e)
    /\ ltb (date_time e) now = false
    /\ records_of db' (event_id e) (author ctx)
       = [mk_attendee (event_id e) (author ctx) ATTENDING]
    /\ (forall i u, (i, u) <> (event_id e, author ctx) ->
          records_of db' i u = records_of db i u)
    /\ Users db' = Users db /\ Groups db' = Groups db
    /\ GroupMembers db' = GroupMembers db
    /\ well_formed db'.
Proof.
  intros Hwf Hs db'. subst db'. revert Hs. unfold event_create.
  destruct (get_group_from_channel ctx db) as [group|] eqn:Hg;
    [|by intros ?%(not_succeeds_failure _ NotFound)].
  destruct (negb (new_members_can_create_events group) && _);
    [by intros ?%(not_succeeds_failure _ Forbidden)|].
  destruct (negb (given _ "name")); [by intros ?%(not_succeeds_failure _ MissingField)|].
  destruct (negb (given _ "date") || _);
    [by intros ?%(not_succeeds_failure _ MissingField)|].
  destruct (strptime_date_time _) as [dt|] eqn:Hdt;
    [|by intros ?%(not_succeeds_failure _ InvalidDateTime)].
  destruct (ltb dt now) eqn:Hlt; [by intros ?%(not_succeeds_failure _ InvalidDateTime)|].
  destruct (if given _ "max" then _ else _) as [cap|]; [|by intros ?%not_succeeds_raised].
  unfold create_event. cbv zeta. cbv iota beta.
  rewrite bool_decide_false by (pose proof (fresh_id_positive (event_id <$> Events db)); lia).
  destruct thread as [th|]; [|by intros ?%(not_succeeds_failure _ RepositoryFailure)].
  intros _. cbn [fst snd].
  set (eid := fresh_id (event_id <$> Events db)) in *.
  set (e0 := mk_event eid _ _ _ _ _ _ _ _ _ _ _) in *.
  pose proof (update_appended_event db e0 (thread_update th) eq_refl eq_refl) as Hup.
  change (event_id e0) with eid in Hup. rewrite Hup. clear Hup.
  set (db2 := with_Events db _) in *.
  assert (well_formed db2) as Hwf2 by (by destruct Hwf).
  exists group, th, (apply_update (thread_update th) e0).
  do 2 (split; [done|]).
  split; [done|].
  do 4 (split; [done|]).
  split.
  { cbn [status apply_update e0]. case_bool_decide as Hm.
    - split; [done|]. intros. done.
    - done. }
  split.
  { cbn [status apply_update e0]. case_bool_decide; auto. }
  split; [simpl; by eapply strptime_date_time_whole_minute|].
  split; [done|].
  split; [by apply add_event_attendee_records|].
  split.
  { intros i u Hne. rewrite add_event_attendee_others by done.
    done. }
  do 3 (split; [done|]).
  by apply add_event_attendee_well_formed.
Qed.

Lemma event_create_records_the_event_witness :
  let ctx := in_channel bob "event new name=Picnic date=2031-06-01 time=12:00 max=8" in
  let db := community false (walk None approved) [mk_attendee 7 alice ATTENDING] in
  let db' := (event_create ctx ten_o_clock (Some "901") db).2 in
  well_formed db
  /\ succeeds (event_create ctx ten_o_clock (Some "901") db).1
  /\ exists e, Events db' = Events db ++ [e] /\ event_id e = 8 /\ host_id e = bob
       /\ thread_id e = Some "901"
       /\ records_of db' 8 bob = [mk_attendee 8 bob ATTENDING].
Proof.
  intros ctx db db'.
  assert (well_formed db) as Hwf by sample_well_formed.
  assert (succeeds (event_create ctx ten_o_clock (Some "901") db).1) as Hs.
  { eexists. split; [vm_compute; reflexivity|]. repeat constructor. }
  split; [exact Hwf|]. split; [exact Hs|].
  destruct (event_create_records_the_event ctx ten_o_clock (Some "901") db Hwf Hs)
    as (group & th & e & _ & Hth & Hev & Hid & _ & Hhost & Hthread & _ & _ & _ & _ & Hrec & _).
  exists e. injection Hth as <-.
  split; [exact Hev|]. split; [exact Hid|]. split; [exact Hhost|].
  split; [exact Hthread|]. rewrite Hid in Hrec. exact Hrec.
Defined.

(** [event_create] when no thread could be obtained: the event row has
    been inserted all the same, without a thread and without an attendee
    row for the host, and no command that finds its event through the
    thread can reach it. *)
Theorem failed_thread_leaves_unreachable_event ctx now db :
  (event_create ctx now None db).1 = Replied [ThreadCreateFailed] ->
  let db' := (event_create ctx now None db).2 in
  exists e,
    db' = with_Events db (Events db ++ [e])
    /\ event_id e = fresh_id (event_id <$> Events db)
    /\ host_id e = author ctx
    /\ thread_id e = None
    /\ records_of db' (event_id e) (author ctx) = records_of db (event_id e) (author ctx)
    /\ forall c, get_event_from_thread c db' = get_event_from_thread c db.
Proof.
  intros Hr db'. subst db'. revert Hr. unfold event_create, create_event. cbv zeta.
  rewrite (bool_decide_false (fresh_id (event_id <$> Events db) = 0))
    by (pose proof (fresh_id_positive (event_id <$> Events db)); lia).
  repeat case_match; simplify_eq; try done.
  all: intros _; eexists; split; [reflexivity|]; do 4 (split; [done|]).
  all: intros c; unfold get_event_from_thread, event_of_thread; simpl.
  all: destruct (channel_is_thread c); [|done].
  all: by rewrite head_filter_app_other.
Qed.

Lemma failed_thread_leaves_unreachable_event_witness :
  let ctx := in_channel bob "event new name=Picnic date=2031-06-01 time=12:00" in
  let db := community false (walk None approved) [] in
  let db' := (event_create ctx ten_o_clock None db).2 in
  (event_create ctx ten_o_clock None db).1 = Replied [ThreadCreateFailed]
  /\ exists e, db' = with_Events db (Events db ++ [e]) /\ thread_id e = None
       /\ forall c, get_event_from_thread c db' = get_event_from_thread c db.
Proof.
  intros ctx db db'.
  assert ((event_create ctx ten_o_clock None db).1 = Replied [ThreadCreateFailed]) as Hr
    by (vm_compute; reflexivity).
  split; [exact Hr|].
  destruct (failed_thread_leaves_unreachable_event ctx ten_o_clock db Hr)
    as (e & Hdb & _ & _ & Hth & _ & Hreach).
  exists e. split; [exact Hdb|]. split; [exact Hth|exact Hreach].
Defined.

(** [event_create] with a thread [get_or_create_thread] found by its name
    and that already belongs to an event: the commands sent in the
    thread afterwards still find the older event, not the new one. *)
Theorem reused_thread_reaches_the_older_event ctx now th db old :
  event_of_thread db th = Some old ->
  event_of_thread (event_create ctx now (Some th) db).2 th = Some old.
Proof.
  intros Hold. unfold event_create, create_event. cbv zeta.
  rewrite (bool_decide_false (fresh_id (event_id <$> Events db) = 0))
    by (pose proof (fresh_id_positive (event_id <$> Events db)); lia).
  repeat case_match; simplify_eq; try done.
  all: cbn [fst snd].
  all: match goal with
  | |- context [update_event (with_Events ?d (Events ?d ++ [?e])) ?i ?u] =>
      pose proof (update_appended_event d e u eq_refl eq_refl) as Hup;
      cbn [event_id] in Hup; rewrite Hup
  end.
  all: unfold event_of_thread, add_event_attendee; simpl.
  all: by apply head_filter_app_found.
Qed.

Lemma reused_thread_reaches_the_older_event_witness :
  let ctx := in_channel bob "event new name=Walk date=2031-05-05 time=18:00" in
  let db := community false (walk None approved) [] in
  let db' := (event_create ctx ten_o_clock (Some "900") db).2 in
  event_of_thread db "900" = Some (walk None approved)
  /\ length (Events db') = 2%nat
  /\ event_of_thread db' "900" = Some (walk None approved).
Proof.
  intros ctx db db'.
  assert (event_of_thread db "900" = Some (walk None approved)) as Hold
    by (vm_compute; reflexivity).
  split; [exact Hold|]. split; [vm_compute; reflexivity|].
  exact (reused_thread_reaches_the_older_event ctx ten_o_clock "900" db _ Hold).
Defined.

(** [Events.on_message]: a command of the first group of handlers that
    ends on an exception or on a single failure message has written
    nothing, the failed creation of the thread apart. *)
Theorem refused_event_commands_write_nothing commands w m db o db' :
  events_on_message commands w m db = (Answered o, db') ->
  is_failure o ->
  o <> Replied [ThreadCreateFailed] ->
  db' = db.
Proof.
  unfold events_on_message. intros Hrun Hfail Hthread.
  destruct (from_bot m || is_empty (content (context_of m))); [done|].
  destruct (event_route commands (content (context_of m))) as [[]|];
    simplify_eq; try done.
  - by apply event_create_failure.
  - by apply event_modify_failure.
  - by apply event_confirm_failure.
  - by apply event_unconfirm_failure.
  - by apply event_change_host_failure.
Qed.

Lemma refused_event_commands_write_nothing_witness :
  let w := mk_surroundings ten_o_clock (Some "901") [] None (fun _ => true) true in
  let m := mk_message false (in_thread dave "Event Confirm") in
  let db := community false (walk (Some 2) approved) [mk_attendee 7 alice ATTENDING] in
  events_on_message ∅ w m db = (Answered (Replied [MustBeGroupMember]), db).
Proof.
  intros w m db.
  destruct (events_on_message ∅ w m db) as [h db'] eqn:Hrun.
  assert (h = Answered (Replied [MustBeGroupMember])) as ->
    by (apply (f_equal fst) in Hrun; vm_compute in Hrun; congruence).
  f_equal.
  refine (refused_event_commands_write_nothing ∅ w m db _ db' Hrun _ _).
  - simpl. by eexists.
  - discriminate.
Defined.

(** [Groups.on_message]: a group creation or a leave request that ends on
    an exception or on a failure message has written nothing to the
    store, with one exception: when a call to Discord that follows the
    two writes of [group_create] raises, the handler sends the message
    of the channel failure and the store holds the new group row and
    the member row that makes the author its leader. *)
Theorem failed_group_commands_write_nothing_or_the_group commands w m db o db' :
  groups_on_message commands w m db = (Answered o, db') ->
  is_failure o ->
  db' = db
  \/ (o = Replied [GroupChannelFailed]
      /\ welcomed w = false
      /\ exists g,
           group_id g = fresh_id (group_id <$> Groups db)
           /\ db' = add_group_member (with_Groups db (Groups db ++ [g])) (group_id g)
                      (author (context_of m)) true).
Proof.
  unfold groups_on_message. intros Hrun Hfail.
  destruct (from_bot m || is_empty (content (context_of m))); [done|].
  destruct (group_route commands (content (context_of m))) as [[]|];
    simplify_eq; try done.
  - by apply group_create_failure.
  - left. by apply group_leave_failure.
Qed.

Lemma failed_group_commands_write_nothing_or_the_group_witness :
  let w := mk_surroundings ten_o_clock None [alice] (Some "600") (fun _ => true) false in
  let db := community false (walk None approved) [] in
  let left := groups_on_message ∅ w (mk_message false (in_channel alice "circle leave")) db in
  let made := groups_on_message ∅ w (mk_message false (in_channel alice "circle new name=Chess")) db in
  left = (Answered (Replied [LastLeaderCannotLeave]), db)
  /\ made.1 = Answered (Replied [GroupChannelFailed])
  /\ group_name <$> Groups made.2 = ["Hiking"; "Chess"]
  /\ (made.2 = db
      \/ (Replied [GroupChannelFailed] = Replied [GroupChannelFailed]
          /\ welcomed w = false
          /\ exists g,
               group_id g = fresh_id (group_id <$> Groups db)
               /\ made.2 = add_group_member (with_Groups db (Groups db ++ [g]))
                             (group_id g) alice true)).
Proof.
  intros w db left made.
  assert (left = (Answered (Replied [LastLeaderCannotLeave]), db)) as Hleft.
  { destruct left as [h db'] eqn:Hrun.
    assert (h = Answered (Replied [LastLeaderCannotLeave])) as ->
      by (apply (f_equal fst) in Hrun; vm_compute in Hrun; congruence).
    f_equal.
    destruct (failed_group_commands_write_nothing_or_the_group ∅ w _ db _ db' Hrun)
      as [Hdb|(Ho & _)]; [simpl; by eexists|exact Hdb|discriminate Ho]. }
  split; [exact Hleft|]. split; [vm_compute; reflexivity|].
  split; [vm_compute; reflexivity|].
  refine (failed_group_commands_write_nothing_or_the_group ∅ w
            (mk_message false (in_channel alice "circle new name=Chess")) db
            (Replied [GroupChannelFailed]) made.2 _ _).
  - vm_compute. reflexivity.
  - simpl. by eexists.
Defined.

(** [event_modify] in the thread of an event: whatever the arguments, no
    table other than [Events] changes, no event keeps another id, group,
    host, status, thread or publicity than it had, and the events with
    another id are the rows they were. *)
Theorem event_modify_frame ctx now db ev :
  get_event_from_thread ctx db = Some ev ->
  modified_only (event_id ev) db (event_modify ctx now db).2.
Proof.
  intros Hev. unfold event_modify. rewrite Hev.
  repeat case_match; try apply modified_only_refl;
    by apply modify_date_time_modified_only.
Qed.

Lemma event_modify_frame_witness :
  let ctx := in_thread alice "event modify name=Stroll max=5 public=false host=1002" in
  let db := community false (walk None approved) [mk_attendee 7 alice ATTENDING] in
  get_event_from_thread ctx db = Some (walk None approved)
  /\ Events (event_modify ctx walk_day_at_eleven db).2 <> Events db
  /\ modified_only 7 db (event_modify ctx walk_day_at_eleven db).2.
Proof.
  intros ctx db.
  assert (get_event_from_thread ctx db = Some (walk None approved)) as Hev
    by (vm_compute; reflexivity).
  split; [exact Hev|]. split; [vm_compute; discriminate|].
  exact (event_modify_frame ctx walk_day_at_eleven db _ Hev).
Defined.

(** [event_confirm] by a user without a row in [Users] (only [group_join]
    creates one): whatever is recorded, the attendee list retrieved for
    any event and the count of attending members are the ones before. *)
Theorem rsvp_of_unknown_user_is_not_listed ctx db eid :
  author ctx ∉ user_id <$> Users db ->
  let db' := (event_confirm ctx db).2 in
  get_event_attendees db' eid = get_event_attendees db eid
  /\ attending_count db' eid = attending_count db eid.
Proof.
  intros Hnot db'.
  assert (get_event_attendees db' eid = get_event_attendees db eid) as H.
  { subst db'. unfold event_confirm. repeat case_match; try done;
      by apply get_event_attendees_unknown_user. }
  split; [exact H|]. unfold attending_count. by rewrite H.
Qed.

Lemma rsvp_of_unknown_user_is_not_listed_witness :
  let ctx := in_thread "1005" "event confirm" in
  let db := with_GroupMembers (community false (walk (Some 1) approved) [])
              [mk_member 1 alice true; mk_member 1 "1005" false] in
  let db' := (event_confirm ctx db).2 in
  ("1005" ∉ user_id <$> Users db)
  /\ (event_confirm ctx db).1 = Replied [NowAttending; EventEmbed []]
  /\ records_of db' 7 "1005" = [mk_attendee 7 "1005" ATTENDING]
  /\ attending_count db' 7 = attending_count db 7.
Proof.
  intros ctx db db'.
  assert ("1005" ∉ user_id <$> Users db) as Hnot
    by (apply (bool_decide_unpack _); vm_compute; exact I).
  split; [exact Hnot|]. split; [vm_compute; reflexivity|].
  split; [vm_compute; reflexivity|].
  exact (proj2 (rsvp_of_unknown_user_is_not_listed ctx db 7 Hnot)).
Defined.

(** [group_create] when it reports no failure, on a store whose member
    rows belong to groups: the author is an administrator, the name was
    free, one group row was appended with a new id and the channel
    created, one member row was appended that makes the author a leader
    of it, and no row of [Users] is created; the two invariants hold
    again. *)
Theorem group_create_makes_the_creator_leader ctx admin_ids new_channel welcomed db :
  well_formed db ->
  members_have_groups db ->
  succeeds (group_create ctx admin_ids new_channel welcomed db).1 ->
  let db' := (group_create ctx admin_ids new_channel welcomed db).2 in
  exists ch g,
    new_channel = Some ch
    /\ author ctx ∈ admin_ids
    /\ get_group_by_name db (group_name g) = None
    /\ Groups db' = Groups db ++ [g]
    /\ group_id g = fresh_id (group_id <$> Groups db)
    /\ channel_id g = ch
    /\ GroupMembers db' = GroupMembers db ++ [mk_member (group_id g) (author ctx) true]
    /\ Users db' = Users db /\ Events db' = Events db
    /\ EventAttendees db' = EventAttendees db
    /\ well_formed db' /\ members_have_groups db'.
Proof.
  intros Hwf Hmg Hs db'. subst db'. revert Hs. unfold group_create.
  case_bool_decide as Hadmin; [|by intros ?%(not_succeeds_failure _ PermissionDenied)].
  cbn [negb].
  destruct (negb (given _ "name")); [by intros ?%(not_succeeds_failure _ MissingField)|].
  destruct (get_group_by_name db _) eqn:Hname;
    [by intros ?%(not_succeeds_failure _ DuplicateName)|].
  destruct new_channel as [ch|]; [|by intros ?%(not_succeeds_failure _ RepositoryFailure)].
  destruct (if given _ "contributor_events_required" then _ else _) as [required|];
    [|by intros ?%not_succeeds_raised].
  unfold create_group. cbv zeta. cbv iota beta.
  rewrite bool_decide_false by (pose proof (fresh_id_positive (group_id <$> Groups db)); lia).
  set (gid := fresh_id (group_id <$> Groups db)) in *.
  set (g := mk_group gid _ _ _ _ _ _ _ _) in *.
  set (db1 := with_Groups db _).
  assert (existsb (member_matches gid (author ctx)) (GroupMembers db1) = false) as Hnew.
  { apply not_true_iff_false. intros Hex. apply existsb_exists in Hex as (m & Hin & Hm).
    apply list_elem_of_In in Hin. apply andb_true_iff in Hm as [Hm _].
    apply bool_decide_eq_true in Hm.
    unfold members_have_groups in Hmg. rewrite Forall_forall in Hmg.
    specialize (Hmg m Hin). apply fresh_id_above in Hmg. fold gid in Hmg. lia. }
  unfold add_group_member. rewrite Hnew.
  destruct welcomed; [|by intros ?%(not_succeeds_failure _ RepositoryFailure)].
  intros _. cbn [fst snd].
  exists ch, g. do 3 (split; [done|]). do 7 (split; [done|]).
  split.
  - destruct Hwf as [H1 H2 H3]. split; [done| |done]. simpl.
    rewrite fmap_app. apply NoDup_app. split; [done|]. split; [|apply NoDup_singleton].
    intros k Hk [= ->]%list_elem_of_singleton.
    apply list_elem_of_fmap in Hk as (m & Hkey & Hin).
    unfold members_have_groups in Hmg. rewrite Forall_forall in Hmg.
    specialize (Hmg m Hin). apply fresh_id_above in Hmg. fold gid in Hmg.
    injection Hkey as Hkey _. simpl in Hkey. lia.
  - unfold members_have_groups. simpl. rewrite fmap_app. apply Forall_app. split.
    + eapply Forall_impl; [exact Hmg|]. intros m Hm. apply elem_of_app. by left.
    + apply Forall_singleton. apply elem_of_app. right. simpl. apply list_elem_of_here.
Qed.

Lemma group_create_makes_the_creator_leader_witness :
  let ctx := mk_context dave "77" false "circle new name=Chess event_approval_mode=maybe" in
  let db := community false (walk None approved) [] in
  let db' := (group_create ctx [dave] (Some "600") true db).2 in
  well_formed db /\ members_have_groups db
  /\ exists g, Groups db' = Groups db ++ [g] /\ group_id g = 2 /\ channel_id g = "600"
       /\ GroupMembers db' = GroupMembers db ++ [mk_member 2 dave true].
Proof.
  intros ctx db db'.
  assert (well_formed db) as Hwf by sample_well_formed.
  assert (members_have_groups db) as Hmg
    by (apply (bool_decide_unpack _); vm_compute; exact I).
  assert (succeeds (group_create ctx [dave] (Some "600") true db).1) as Hs.
  { eexists. split; [vm_compute; reflexivity|]. repeat constructor. }
  split; [exact Hwf|]. split; [exact Hmg|].
  destruct (group_create_makes_the_creator_leader ctx [dave] (Some "600") true db Hwf Hmg Hs)
    as (ch & g & Hch & _ & _ & Hgs & Hid & Hcid & Hms & _).
  injection Hch as <-. exists g. rewrite Hid in Hms.
  split; [exact Hgs|]. split; [exact Hid|]. split; [exact Hcid|exact Hms].
Defined.

(** [event_waitlist] when it answers that the author was added: the
    thread is the one of an approved event of a group the author belongs
    to; the author has exactly one row for the event, with status
    WAITLIST, whatever the status before and whether or not the event is
    full; no other row and no other table changes. *)
Theorem event_waitlist_contract ctx db msgs :
  well_formed db ->
  (event_waitlist ctx db).1 = Sent (AddedToWaitlist :: msgs) ->
  let db' := (event_waitlist ctx db).2 in
  exists ev,
    get_event_from_thread ctx db = Some ev
    /\ status ev = approved
    /\ is_group_member db (event_group ev) (author ctx) = true
    /\ records_of db' (event_id ev) (author ctx)
       = [mk_attendee (event_id ev) (author ctx) WAITLIST]
    /\ (forall i u, (i, u) <> (event_id ev, author ctx) ->
          records_of db' i u = records_of db i u)
    /\ Users db' = Users db /\ Groups db' = Groups db
    /\ GroupMembers db' = GroupMembers db /\ Events db' = Events db
    /\ well_formed db'.
Proof.
  intros Hwf Hr db'. subst db'.
  destruct (event_waitlist_added ctx db msgs Hr) as (ev & Hev & Hst & Hm & ->).
  exists ev. do 3 (split; [done|]).
  split; [by apply add_event_attendee_records|].
  split; [intros i u Hne; by apply add_event_attendee_others|].
  do 4 (split; [done|]). by apply add_event_attendee_well_formed.
Qed.

Lemma event_waitlist_contract_witness :
  let ctx := in_thread alice "event waitlist" in
  let db := community false (walk (Some 4) approved) [mk_attendee 7 alice ATTENDING] in
  let db' := (event_waitlist ctx db).2 in
  well_formed db
  /\ records_of db 7 alice = [mk_attendee 7 alice ATTENDING]
  /\ attending_count db' 7 = 0%nat
  /\ exists ev, event_id ev = 7
       /\ records_of db' (event_id ev) alice = [mk_attendee (event_id ev) alice WAITLIST].
Proof.
  intros ctx db db'.
  assert (well_formed db) as Hwf by sample_well_formed.
  split; [exact Hwf|]. split; [vm_compute; reflexivity|].
  split; [vm_compute; reflexivity|].
  assert ((event_waitlist ctx db).1
          = Sent [AddedToWaitlist; Said (EventEmbed [mk_attendee 7 alice WAITLIST])]) as Hr
    by (vm_compute; reflexivity).
  destruct (event_waitlist_contract ctx db _ Hwf Hr) as (ev & Hev & _ & _ & Hrec & _).
  exists ev. split; [|exact Hrec].
  vm_compute in Hev. injection Hev as <-. reflexivity.
Defined.

(** [event_waitlist] followed by [event_unconfirm] of another user in the
    same thread, when the retrieved waitlist was empty and the author
    has a row in [Users]: the author is recorded as ATTENDING, and the
    other user has no row for the event. *)
Theorem waitlisted_member_is_promoted ctx ctx' db msgs :
  well_formed db ->
  (event_waitlist ctx db).1 = Sent (AddedToWaitlist :: msgs) ->
  author ctx ∈ user_id <$> Users db ->
  channel_is_thread ctx' = true ->
  channel ctx' = channel ctx ->
  author ctx' <> author ctx ->
  (forall ev, get_event_from_thread ctx db = Some ev -> waitlist db (event_id ev) = []) ->
  let db1 := (event_waitlist ctx db).2 in
  let db2 := (event_unconfirm ctx' db1).2 in
  exists ev,
    get_event_from_thread ctx db = Some ev
    /\ records_of db1 (event_id ev) (author ctx)
       = [mk_attendee (event_id ev) (author ctx) WAITLIST]
    /\ records_of db2 (event_id ev) (author ctx)
       = [mk_attendee (event_id ev) (author ctx) ATTENDING]
    /\ records_of db2 (event_id ev) (author ctx') = [].
Proof.
  intros Hwf Hr Hknown Hth Hch Hne Hempty db1 db2. subst db1 db2.
  destruct (event_waitlist_added ctx db msgs Hr) as (ev & Hev & Hst & Hm & ->).
  specialize (Hempty ev Hev).
  set (eid := event_id ev) in *. set (a := author ctx) in *. set (b := author ctx') in *.
  set (db1 := add_event_attendee db eid a WAITLIST).
  assert (well_formed db1) as Hwf1 by (by apply add_event_attendee_well_formed).
  assert (get_event_from_thread ctx' db1 = Some ev) as Hev'.
  { revert Hev. unfold get_event_from_thread. rewrite Hth, Hch.
    by destruct (channel_is_thread ctx). }
  rewrite (event_unconfirm_unfold ctx' db1 ev Hev'). cbv zeta. fold eid b.
  set (db1' := remove_event_attendee db1 eid b).
  assert (well_formed db1') as Hwf1' by (by apply remove_event_attendee_well_formed).
  assert (records_of db1 eid a = [mk_attendee eid a WAITLIST]) as Hrec1
    by (by apply add_event_attendee_records).
  assert (mk_attendee eid a WAITLIST ∈ EventAttendees db1) as Hin1.
  { assert (mk_attendee eid a WAITLIST ∈ records_of db1 eid a) as H
      by (rewrite Hrec1; apply list_elem_of_here).
    by apply list_elem_of_filter in H as [_ H]. }
  assert (mk_attendee eid a WAITLIST ∈ waitlist db1' eid) as Hin.
  { unfold waitlist, with_status. apply list_elem_of_filter. split; [done|].
    apply elem_of_get_event_attendees. split; [|by split].
    unfold db1', remove_event_attendee; simpl. apply list_elem_of_filter. split; [|done].
    intros Hk%attendee_matches_key. injection Hk as Hk. by apply Hne. }
  assert (forall x, x ∈ waitlist db1' eid -> attendee_user x = a) as Hall.
  { intros x Hx. apply waitlist_elem in Hx as (Hx & Hs & He & Hu).
    unfold db1', remove_event_attendee in Hx; simpl in Hx.
    apply list_elem_of_filter in Hx as [_ Hx].
    destruct (decide (attendee_user x = a)) as [|Hxa]; [done|]. exfalso.
    assert (x ∈ records_of db1 eid (attendee_user x)) as Hxr.
    { apply list_elem_of_filter. split; [|done].
      unfold attendee_matches. by rewrite !bool_decide_true. }
    unfold db1 in Hxr. rewrite add_event_attendee_others in Hxr by congruence.
    apply list_elem_of_filter in Hxr as [_ Hxr].
    assert (x ∈ waitlist db eid) as Hw.
    { unfold waitlist, with_status. apply list_elem_of_filter. split; [done|].
      apply elem_of_get_event_attendees. split; [done|]. by split. }
    rewrite Hempty in Hw. by apply not_elem_of_nil in Hw. }
  destruct (waitlist db1' eid) as [|first rest] eqn:Hw;
    [by apply not_elem_of_nil in Hin|].
  assert (attendee_user first = a) as Hfirst by (apply Hall, list_elem_of_here).
  cbn [fst snd]. rewrite Hfirst.
  exists ev. split; [done|]. split; [done|].
  split; [by apply add_event_attendee_records|].
  rewrite add_event_attendee_others by congruence.
  apply remove_event_attendee_records.
Qed.

Lemma waitlisted_member_is_promoted_witness :
  let ctx := in_thread carol "event waitlist" in
  let ctx' := in_thread dave "event unconfirm" in
  let db := community false (walk (Some 4) approved) [mk_attendee 7 alice ATTENDING] in
  let db2 := (event_unconfirm ctx' (event_waitlist ctx db).2).2 in
  well_formed db
  /\ records_of db 7 dave = []
  /\ exists ev, event_id ev = 7
       /\ records_of db2 (event_id ev) carol = [mk_attendee (event_id ev) carol ATTENDING].
Proof.
  intros ctx ctx' db db2.
  assert (well_formed db) as Hwf by sample_well_formed.
  split; [exact Hwf|]. split; [vm_compute; reflexivity|].
  assert ((event_waitlist ctx db).1
          = Sent [AddedToWaitlist;
                  Said (EventEmbed [mk_attendee 7 alice ATTENDING;
                                    mk_attendee 7 carol WAITLIST])]) as Hr
    by (vm_compute; reflexivity).
  assert (carol ∈ user_id <$> Users db) as Hknown
    by (apply (bool_decide_unpack _); vm_compute; exact I).
  assert (forall ev, get_event_from_thread ctx db = Some ev -> waitlist db (event_id ev) = [])
    as Hempty by (intros ev [= <-]; vm_compute; reflexivity).
  destruct (waitlisted_member_is_promoted ctx ctx' db _ Hwf Hr Hknown eq_refl eq_refl
              ltac:(discriminate) Hempty) as (ev & Hev & _ & Hrec & _).
  exists ev. split; [|exact Hrec].
  vm_compute in Hev. injection Hev as <-. reflexivity.
Defined.

(** [event_info] when it shows an event: the event is a row of [Events],
    the attendee list is the one retrieved for it, the store is not
    written; with an [id] argument the event is the one of that id,
    whatever the channel, and without it the one of the thread. *)
Theorem event_info_shows_what_is_stored ctx db e l :
  (event_info ctx db).1 = Sent [EventShown e l] ->
  let args := parse_command_args (content ctx) in
  e ∈ Events db
  /\ l = get_event_attendees db (event_id e)
  /\ (event_info ctx db).2 = db
  /\ (if given args "id" then int (item args "id") = Some (event_id e)
      else channel_is_thread ctx = true /\ thread_id e = Some (channel ctx)).
Proof.
  intros Hr args. subst args. revert Hr. unfold event_info.
  destruct (given _ "id").
  - destruct (int _) as [eid|]; [|done].
    destruct (get_event db eid) as [ev|] eqn:Hev; [|done].
    cbn [fst snd]. intros [= <- <-].
    apply head_Some_elem_of, list_elem_of_filter in Hev as [Hid Hin].
    rewrite Hid. done.
  - destruct (get_event_from_thread ctx db) as [ev|] eqn:Hev; [|done].
    cbn [fst snd]. intros [= <- <-]. unfold get_event_from_thread in Hev.
    destruct (channel_is_thread ctx); [|done].
    apply head_Some_elem_of, list_elem_of_filter in Hev as [Hid Hin]. done.
Qed.

Lemma event_info_shows_what_is_stored_witness :
  let ctx := mk_context dave "12" false "event info id=7" in
  let db := community false (walk None pending) [mk_attendee 7 alice ATTENDING] in
  (event_info ctx db).1 = Sent [EventShown (walk None pending) [mk_attendee 7 alice ATTENDING]]
  /\ walk None pending ∈ Events db
  /\ (event_info ctx db).2 = db.
Proof.
  intros ctx db.
  assert ((event_info ctx db).1
          = Sent [EventShown (walk None pending) [mk_attendee 7 alice ATTENDING]]) as Hr
    by (vm_compute; reflexivity).
  split; [exact Hr|].
  destruct (event_info_shows_what_is_stored ctx db _ _ Hr) as (Hin & _ & Hdb & _).
  split; [exact Hin|exact Hdb].
Defined.

(** [group_join] when it answers that the author joined: the group is
    open and the author was no member; exactly one member row is
    appended, never a leader row, so the leaders of the group are the
    ones before; the author has a row in [Users] afterwards, created if
    need be; nothing else changes and the keys stay unique. *)
Theorem group_join_contract ctx present db g msgs :
  well_formed db ->
  (group_join ctx present db).1 = Sent (JoinedGroup g :: msgs) ->
  let db' := (group_join ctx present db).2 in
  g ∈ Groups db
  /\ is_open g = true
  /\ is_group_member db (group_id g) (author ctx) = false
  /\ GroupMembers db' = GroupMembers db ++ [mk_member (group_id g) (author ctx) false]
  /\ group_leaders db' (group_id g) = group_leaders db (group_id g)
  /\ author ctx ∈ user_id <$> Users db'
  /\ (Users db' = Users db \/ Users db' = Users db ++ [mk_user (author ctx)])
  /\ Groups db' = Groups db /\ Events db' = Events db
  /\ EventAttendees db' = EventAttendees db
  /\ well_formed db'.
Proof.
  intros Hwf Hr db'. subst db'.
  destruct (group_join_joined ctx present db g msgs Hr) as (Hin & Hopen & Hm & ->).
  do 3 (split; [done|]).
  rewrite add_group_member_new by done.
  set (db1 := with_GroupMembers db _).
  assert (GroupMembers (create_user db1 (author ctx))
          = GroupMembers db ++ [mk_member (group_id g) (author ctx) false]) as Hgm.
  { unfold create_user. by case_bool_decide. }
  split; [done|].
  split.
  { unfold group_leaders. rewrite Hgm, filter_app, filter_cons_False, filter_nil, app_nil_r.
    - done.
    - simpl. by intros [_ ?]. }
  split; [apply create_user_known|].
  split.
  { unfold create_user. case_bool_decide; [by left|by right]. }
  split; [unfold create_user; by case_bool_decide|].
  split; [unfold create_user; by case_bool_decide|].
  split; [unfold create_user; by case_bool_decide|].
  apply create_user_well_formed. subst db1. rewrite <- add_group_member_new by done.
  by apply add_group_member_well_formed.
Qed.

Lemma group_join_contract_witness :
  let ctx := mk_context dave "12" false ("circle join " +:+ quoted "name" "Hiking") in
  let db := community false (walk None approved) [] in
  let db' := (group_join ctx (fun _ => true) db).2 in
  well_formed db
  /\ GroupMembers db' = GroupMembers db ++ [mk_member 1 dave false]
  /\ well_formed db'.
Proof.
  intros ctx db db'.
  assert (well_formed db) as Hwf by sample_well_formed.
  assert ((group_join ctx (fun _ => true) db).1
          = Sent [JoinedGroup hikers; WelcomedInChannel]) as Hr
    by (vm_compute; reflexivity).
  split; [exact Hwf|].
  destruct (group_join_contract ctx (fun _ => true) db _ _ Hwf Hr)
    as (_ & _ & _ & Hgm & _ & _ & _ & _ & _ & _ & Hwf').
  split; [exact Hgm|exact Hwf'].
Defined.

(** [group_join] followed by [group_leave] of the same user in the
    channel of the group: the leave succeeds, [GroupMembers] is the
    table it was before the join, and [Users] is the table the join
    left, so the user keeps the row in [Users] that the join made sure
    of. *)
Theorem join_then_leave_restores_membership ctx ctx' present db g msgs :
  (group_join ctx present db).1 = Sent (JoinedGroup g :: msgs) ->
  author ctx' = author ctx ->
  get_group_from_channel ctx' db = Some g ->
  let db1 := (group_join ctx present db).2 in
  (group_leave ctx' db1).1 = Replied [LeftGroup]
  /\ GroupMembers (group_leave ctx' db1).2 = GroupMembers db
  /\ Users (group_leave ctx' db1).2 = Users db1
  /\ author ctx ∈ user_id <$> Users (group_leave ctx' db1).2.
Proof.
  intros Hr Ha Hg db1. subst db1.
  destruct (group_join_joined ctx present db g msgs Hr) as (Hin & Hopen & Hm & ->).
  rewrite add_group_member_new by done.
  set (db1 := create_user _ _).
  assert (GroupMembers db1
          = GroupMembers db ++ [mk_member (group_id g) (author ctx) false]) as Hgm.
  { unfold db1, create_user. by case_bool_decide. }
  assert (Groups db1 = Groups db) as Hgs.
  { unfold db1, create_user. by case_bool_decide. }
  pose proof (is_group_member_false _ _ _ Hm) as Hnone.
  unfold group_leave.
  replace (get_group_from_channel ctx' db1) with (Some g)
    by (rewrite <- Hg; unfold get_group_from_channel, group_of_channel; by rewrite Hgs).
  rewrite Ha.
  replace (is_group_member db1 (group_id g) (author ctx)) with true.
  2:{ symmetry. unfold is_group_member. rewrite Hgm. apply existsb_app_true.
      apply member_matches_row. }
  replace (is_group_leader db1 (group_id g) (author ctx)) with false.
  2:{ symmetry. unfold is_group_leader. rewrite Hgm, existsb_app. simpl.
      rewrite andb_false_r, orb_false_r. apply not_true_iff_false.
      intros Hex. apply existsb_exists in Hex as (m & Hmin & Hmm).
      apply andb_true_iff in Hmm as [Hmm _]. apply list_elem_of_In in Hmin.
      rewrite Forall_forall in Hnone. apply (Hnone m Hmin). by apply Is_true_true. }
  cbn [negb andb fst snd]. split; [done|]. split.
  - unfold remove_group_member; simpl.
    rewrite Hgm, filter_app, filter_cons_False, filter_nil.
    + rewrite app_nil_r. apply filter_all. eapply Forall_impl; [exact Hnone|]. done.
    + intros Hneg. apply Hneg. apply Is_true_true, member_matches_row.
  - split; [done|]. simpl. apply create_user_known.
Qed.

Lemma join_then_leave_restores_membership_witness :
  let ctx := mk_context dave "12" false ("circle join " +:+ quoted "name" "Hiking") in
  let ctx' := in_channel dave "circle leave" in
  let db := community false (walk None approved) [] in
  let db1 := (group_join ctx (fun _ => true) db).2 in
  GroupMembers db1 <> GroupMembers db
  /\ GroupMembers (group_leave ctx' db1).2 = GroupMembers db
  /\ (dave ∈ user_id <$> Users (group_leave ctx' db1).2).
Proof.
  intros ctx ctx' db db1.
  split; [vm_compute; discriminate|].
  assert ((group_join ctx (fun _ => true) db).1
          = Sent [JoinedGroup hikers; WelcomedInChannel]) as Hr
    by (vm_compute; reflexivity).
  destruct (join_then_leave_restores_membership ctx ctx' (fun _ => true) db _ _
              Hr eq_refl eq_refl) as (_ & Hgm & _ & Hu).
  split; [exact Hgm|exact Hu].
Defined.

(** [group_modify] in the channel of a group: whatever the arguments, the
    ids and the channels of the groups are the ones before, the groups
    with another id are the rows they were, and no other table changes. *)
Theorem group_modify_frame ctx db g :
  get_group_from_channel ctx db = Some g ->
  let db' := (group_modify ctx db).2 in
  group_id <$> Groups db' = group_id <$> Groups db
  /\ channel_id <$> Groups db' = channel_id <$> Groups db
  /\ filter (fun x => group_id x <> group_id g) (Groups db')
     = filter (fun x => group_id x <> group_id g) (Groups db)
  /\ Users db' = Users db /\ GroupMembers db' = GroupMembers db
  /\ Events db' = Events db /\ EventAttendees db' = EventAttendees db.
Proof.
  intros Hg db'. subst db'.
  destruct (group_modify_store ctx db g Hg) as [->|(u & ->)]; [done|].
  pose proof (update_group_ids db (group_id g) u) as (H1 & H2 & H3).
  do 3 (split; [done|]). unfold update_group. by case_bool_decide.
Qed.

Lemma group_modify_frame_witness :
  let ctx := in_channel alice "circle modify name=Ramblers is_open=no channel_id=1 group_id=9" in
  let db := community false (walk None approved) [] in
  let db' := (group_modify ctx db).2 in
  get_group_from_channel ctx db = Some hikers
  /\ Groups db' <> Groups db
  /\ group_id <$> Groups db' = [1]
  /\ channel_id <$> Groups db' = ["500"].
Proof.
  intros ctx db db'.
  assert (get_group_from_channel ctx db = Some hikers) as Hg by (vm_compute; reflexivity).
  split; [exact Hg|]. split; [vm_compute; discriminate|].
  destruct (group_modify_frame ctx db hikers Hg) as (Hid & Hch & _).
  split; [exact Hid|exact Hch].
Defined.

(** [group_modify] keeps the two modes of every group among the values it
    accepts, once they are; [group_create] stores the modes it is given
    as they are. *)
Theorem group_modify_keeps_modes_valid ctx db :
  Forall modes_valid (Groups db) ->
  Forall modes_valid (Groups (group_modify ctx db).2).
Proof.
  intros Hall. unfold group_modify.
  destruct (get_group_from_channel ctx db) as [group|]; [|done].
  destruct (negb _); [done|]. case_bool_decide; [done|].
  destruct (checked_mode _ (_ !! "event_approval_mode")) as [approval|] eqn:Ha; [|done].
  destruct (checked_mode _ (_ !! "event_attendee_management_mode"))
    as [management|] eqn:Hm; [|done].
  destruct (match _ !! "contributor_events_required" with Some _ => _ | None => _ end)
    as [required|]; [|done].
  case_bool_decide; [|done].
  match goal with
  | |- context [update_group ?d ?i ?u] =>
      pose proof (update_group_modes d i u) as Hup;
      destruct (update_group d i u) as [[] db1]; apply Hup; try done; simpl
  end.
  all: intros m ->; by eapply checked_mode_valid.
Qed.

Lemma group_modify_keeps_modes_valid_witness :
  let ctx := in_channel alice "circle modify event_approval_mode=ALL" in
  let db := community false (walk None approved) [] in
  Forall modes_valid (Groups db)
  /\ event_approval_mode <$> Groups (group_modify ctx db).2 = ["all"]
  /\ Forall modes_valid (Groups (group_modify ctx db).2).
Proof.
  intros ctx db.
  assert (Forall modes_valid (Groups db)) as Hall.
  { apply Forall_singleton. split; apply (bool_decide_unpack _); vm_compute; exact I. }
  split; [exact Hall|]. split; [vm_compute; reflexivity|].
  exact (group_modify_keeps_modes_valid ctx db Hall).
Defined.

(** [on_member_remove] when every channel id reads as a number: the loop
    ends, the user is a member of no group of the store afterwards, the
    member rows of the other users are the ones before, and no other
    table changes: the attendee rows of the user stay. *)
Theorem departed_member_is_in_no_group uid present db :
  numeric_channels db ->
  let r := on_member_remove uid present db in
  (exists msgs, r.1 = Sent msgs)
  /\ (forall g, g ∈ Groups db -> is_group_member r.2 (group_id g) uid = false)
  /\ rows_of_others uid r.2 = rows_of_others uid db
  /\ Users r.2 = Users db /\ Groups r.2 = Groups db /\ Events r.2 = Events db
  /\ EventAttendees r.2 = EventAttendees db.
Proof.
  intros Hnum r. subst r.
  destruct (on_member_remove_spec uid present db Hnum) as [Hsent Hgm].
  destruct (remove_from_groups_spec present uid (groups_of_user db uid) [] db)
    as (H1 & H2 & H3 & H4 & H5 & _).
  fold (on_member_remove uid present db) in H1, H2, H3, H4, H5.
  split; [done|]. split; [|done].
  intros g Hg. apply not_true_iff_false. intros Hex.
  unfold is_group_member in Hex. apply existsb_exists in Hex as (m & Hin & Hm).
  apply list_elem_of_In in Hin. rewrite Hgm in Hin.
  apply list_elem_of_filter in Hin as [Hnot _]. apply Hnot.
  apply Is_true_true, member_matches_key in Hm. injection Hm as Hgid Hu.
  split; [done|]. rewrite Hgid. apply list_elem_of_fmap. eauto.
Qed.

Lemma departed_member_is_in_no_group_witness :
  let db := community true (walk None approved) [mk_attendee 7 bob ATTENDING] in
  let r := on_member_remove bob (fun _ => true) db in
  numeric_channels db
  /\ is_group_member db 1 bob = true
  /\ is_group_member r.2 1 bob = false
  /\ EventAttendees r.2 = [mk_attendee 7 bob ATTENDING].
Proof.
  intros db r.
  assert (numeric_channels db) as Hnum.
  { apply Forall_singleton. vm_compute. by eexists. }
  split; [exact Hnum|]. split; [vm_compute; reflexivity|].
  destruct (departed_member_is_in_no_group bob (fun _ => true) db Hnum)
    as (_ & Hout & _ & _ & _ & _ & Hatt).
  split; [|exact Hatt].
  apply (Hout hikers). apply list_elem_of_here.
Defined.

(** [on_member_remove] has no check of the last leader: when the only
    leader of a group leaves the server, the group has no leader
    afterwards, while [group_leave] refuses that request. *)
Theorem departure_can_leave_a_group_leaderless uid present db g :
  numeric_channels db ->
  g ∈ Groups db ->
  is_group_leader db (group_id g) uid = true ->
  leader_count db (group_id g) = 1%nat ->
  leader_count (on_member_remove uid present db).2 (group_id g) = 0%nat.
Proof.
  intros Hnum Hg Hlead Hone.
  destruct (on_member_remove_spec uid present db Hnum) as [_ Hgm].
  apply is_group_leader_row in Hlead as (m & Hin & Hk & Hl).
  injection Hk as Hgid Hu.
  unfold leader_count, group_leaders in *. rewrite Hgm, list_filter_filter.
  destruct (filter _ (GroupMembers db)) as [|m0 [|? ?]] eqn:Hf; try done.
  assert (m ∈ [m0]) as <-%list_elem_of_singleton.
  { rewrite <- Hf. apply list_elem_of_filter. done. }
  assert (forall x, x ∈ GroupMembers db ->
            member_group x = group_id g /\ is_leader x = true -> x = m) as Honly.
  { intros x Hx Hp. assert (x ∈ [m]) as Hx'; [|by apply list_elem_of_singleton in Hx'].
    rewrite <- Hf. apply list_elem_of_filter. done. }
  apply length_zero_iff_nil, filter_none, Forall_forall.
  intros x Hx [Hp Hnot]. apply Hnot. rewrite (Honly x Hx Hp).
  split; [done|]. rewrite Hgid. apply list_elem_of_fmap. eauto.
Qed.

Lemma departure_can_leave_a_group_leaderless_witness :
  let db := community false (walk None approved) [] in
  numeric_channels db
  /\ leader_count db 1 = 1%nat
  /\ (group_leave (in_channel alice "circle leave") db).1 = Replied [LastLeaderCannotLeave]
  /\ leader_count (on_member_remove alice (fun _ => true) db).2 1 = 0%nat.
Proof.
  intros db.
  assert (numeric_channels db) as Hnum.
  { apply Forall_singleton. vm_compute. by eexists. }
  split; [exact Hnum|]. split; [vm_compute; reflexivity|].
  split; [vm_compute; reflexivity|].
  refine (departure_can_leave_a_group_leaderless alice (fun _ => true) db hikers Hnum _ _ _).
  - apply list_elem_of_here.
  - vm_compute; reflexivity.
  - vm_compute; reflexivity.
Defined.

(** [Events.on_message]: the phrase of the command chosen is a prefix of
    the content in lower case and is itself in lower case, so a
    configured phrase with a capital letter is never recognised. *)
Theorem routed_phrase_is_in_lower_case commands content c :
  event_route commands content = Some c ->
  startswith (event_phrase commands c) (lower content) = true
  /\ lower (event_phrase commands c) = event_phrase commands c.
Proof.
  intros Hr%event_route_phrase. split; [done|]. by eapply startswith_lower.
Qed.

Lemma routed_phrase_is_in_lower_case_witness :
  let commands : gmap string string := {[ "event_info" := "Event Show" ]} in
  event_route ∅ "EVENT INFO id=7" = Some DoInfo
  /\ lower (event_phrase ∅ DoInfo) = event_phrase ∅ DoInfo
  /\ event_route commands "Event Show id=7" = None.
Proof.
  intros commands.
  assert (event_route ∅ "EVENT INFO id=7" = Some DoInfo) as Hr by (vm_compute; reflexivity).
  split; [exact Hr|]. split; [|vm_compute; reflexivity].
  exact (proj2 (routed_phrase_is_in_lower_case ∅ _ DoInfo Hr)).
Defined.

(** With the default phrases a command is chosen exactly when its phrase
    starts the content in lower case, so the order of the tests plays no
    part, and no message is a command of both listeners. *)
Theorem default_phrases_route_by_prefix content :
  (forall c, event_route ∅ content = Some c
             <-> startswith (event_phrase ∅ c) (lower content) = true)
  /\ (forall c, group_route ∅ content = Some c
                <-> startswith (group_phrase ∅ c) (lower content) = true)
  /\ (event_route ∅ content = None \/ group_route ∅ content = None).
Proof.
  assert (forall c, event_route ∅ content = Some c
             <-> startswith (event_phrase ∅ c) (lower content) = true) as He.
  { intros c. split; [apply event_route_phrase|].
    unfold event_route, event_phrase, get_or. rewrite !lookup_empty. simpl default.
    generalize (lower content). intros s Hc.
    destruct (startswith "event new" s) eqn:H1;
      [destruct c; first [done | exclusive]|].
    destruct (startswith "event modify" s) eqn:H2;
      [destruct c; first [done | exclusive]|].
    destruct (startswith "event confirm" s) eqn:H3;
      [destruct c; first [done | exclusive]|].
    destruct (startswith "event unconfirm" s) eqn:H4;
      [destruct c; first [done | exclusive]|].
    destruct (startswith "event waitlist" s) eqn:H5;
      [destruct c; first [done | exclusive]|].
    destruct (startswith "event info" s) eqn:H6;
      [destruct c; first [done | exclusive]|].
    destruct (startswith "event change host" s) eqn:H7;
      [destruct c; first [done | exclusive]|].
    destruct c; congruence. }
  assert (forall c, group_route ∅ content = Some c
             <-> startswith (group_phrase ∅ c) (lower content) = true) as Hg.
  { intros c. split; [apply group_route_phrase|].
    unfold group_route, group_phrase, get_or. rewrite !lookup_empty. simpl default.
    generalize (lower content). intros s Hc.
    destruct (startswith "circle new" s) eqn:H1;
      [destruct c; first [done | exclusive]|].
    destruct (startswith "circle join" s) eqn:H2;
      [destruct c; first [done | exclusive]|].
    destruct (startswith "circle leave" s) eqn:H3;
      [destruct c; first [done | exclusive]|].
    destruct (startswith "circle info" s) eqn:H4;
      [destruct c; first [done | exclusive]|].
    destruct (startswith "circle modify" s) eqn:H5;
      [destruct c; first [done | exclusive]|].
    destruct c; congruence. }
  split; [exact He|]. split; [exact Hg|].
  destruct (event_route ∅ content) as [c|] eqn:Hc; [|by left].
  destruct (group_route ∅ content) as [c'|] eqn:Hc'; [|by right].
  exfalso. apply event_route_phrase in Hc. apply group_route_phrase in Hc'.
  destruct (startswith_both _ _ _ Hc Hc') as [H|H]; destruct c, c'; vm_compute in H;
    discriminate H.
Qed.

(** [create_bill], [update_bill_status] and [get_event_bills], for a user
    with a row in [Users]: the id of the new bill was in use by no bill;
    the bill is listed last for its event, unpaid; marking the id paid
    changes this bill and no other, and it is then listed as paid. *)
Theorem bill_is_listed_once_paid {A} (db : database) (bills : list (bill_row A)) eid uid x :
  well_formed db ->
  uid ∈ user_id <$> Users db ->
  let bid := (create_bill bills eid uid x).1 in
  let bills1 := (create_bill bills eid uid x).2 in
  let bills2 := update_bill_status bills1 bid true in
  (bid ∉ bill_id <$> bills)
  /\ get_event_bills db bills1 eid
     = get_event_bills db bills eid ++ [mk_bill bid eid uid x false]
  /\ bills2 = bills ++ [mk_bill bid eid uid x true]
  /\ get_event_bills db bills2 eid
     = get_event_bills db bills eid ++ [mk_bill bid eid uid x true].
Proof.
  intros Hwf Hu bid bills1 bills2.
  assert (bid ∉ bill_id <$> bills) as Hfresh.
  { intros Hin%fresh_id_above. unfold bid in Hin; simpl in Hin. lia. }
  destruct (filter_user_unique (Users db) uid (user_ids_unique _ Hwf) Hu) as [u Hone].
  assert (forall p, get_event_bills db (bills ++ [mk_bill bid eid uid x p]) eid
                    = get_event_bills db bills eid ++ [mk_bill bid eid uid x p]) as Hlist.
  { intros p. unfold get_event_bills. rewrite bind_app. f_equal.
    rewrite bind_cons. simpl. rewrite bool_decide_true by done.
    rewrite Hone. done. }
  assert (bills2 = bills ++ [mk_bill bid eid uid x true]) as Hpaid.
  { unfold bills2, bills1, update_bill_status, create_bill. simpl. fold bid.
    rewrite fmap_app. simpl. rewrite bool_decide_true by done. f_equal.
    rewrite <- (list_fmap_id bills) at 2. apply list_fmap_ext. intros i b Hb. simpl.
    rewrite bool_decide_false; [done|]. intros Heq. apply Hfresh.
    rewrite <- Heq. apply list_elem_of_fmap. exists b. split; [done|].
    by eapply list_elem_of_lookup_2. }
  split; [done|]. split; [apply Hlist|]. split; [done|]. rewrite Hpaid. apply Hlist.
Qed.

Lemma bill_is_listed_once_paid_witness :
  let db := community false (walk None approved) [] in
  let bills := [mk_bill 3 7 alice 1250%Z true; mk_bill 4 8 bob 400%Z false] in
  well_formed db
  /\ (create_bill bills 7 carol 990%Z).1 = 5
  /\ get_event_bills db (update_bill_status (create_bill bills 7 carol 990%Z).2 5 true) 7
     = [mk_bill 3 7 alice 1250%Z true; mk_bill 5 7 carol 990%Z true].
Proof.
  intros db bills.
  assert (well_formed db) as Hwf by sample_well_formed.
  assert (carol ∈ user_id <$> Users db) as Hu
    by (apply (bool_decide_unpack _); vm_compute; exact I).
  split; [exact Hwf|]. split; [reflexivity|].
  destruct (bill_is_listed_once_paid db bills 7 carol 990%Z Hwf Hu) as (_ & _ & _ & H).
  exact H.
Defined.

(** The keys of [EventAttendees], [GroupMembers] and [Users] stay unique
    whatever messages the two listeners handle and whatever members
    leave the server, in any order. *)
Theorem reachable_stores_are_well_formed commands db db' :
  well_formed db -> reachable commands db db' -> well_formed db'.
Proof.
  intros Hwf Hreach. induction Hreach as [|w m db' _ IH|w m db' _ IH|uid present db' _ IH].
  - done.
  - by apply events_on_message_well_formed.
  - by apply groups_on_message_well_formed.
  - by apply remove_from_groups_well_formed.
Qed.

Lemma reachable_stores_are_well_formed_witness :
  let db := community false (walk (Some 1) approved) [mk_attendee 7 alice ATTENDING] in
  let w := mk_surroundings ten_o_clock (Some "901") [alice] (Some "600") (fun _ => true) true in
  let db1 := (events_on_message ∅ w (mk_message false (in_thread bob "event confirm")) db).2 in
  let db2 := (groups_on_message ∅ w (mk_message false (in_channel bob "circle leave")) db1).2 in
  let db3 := (on_member_remove carol (fun _ => true) db2).2 in
  well_formed db
  /\ EventAttendees db3 = [mk_attendee 7 alice ATTENDING; mk_attendee 7 bob WAITLIST]
  /\ GroupMembers db3 = [mk_member 1 alice true]
  /\ well_formed db3.
Proof.
  intros db w db1 db2 db3.
  assert (well_formed db) as Hwf by sample_well_formed.
  split; [exact Hwf|]. split; [vm_compute; reflexivity|]. split; [vm_compute; reflexivity|].
  apply (reachable_stores_are_well_formed ∅ db db3 Hwf).
  apply reached_member_removed, reached_group_message, reached_event_message, reached_start.
Defined.

(** No handler writes the status of an event: whatever messages are
    handled and whatever members leave, the events there were keep their
    ids and their approval status, in their order, and events are only
    added.  An event created as pending stays pending. *)
Theorem no_command_changes_an_approval commands db db' :
  reachable commands db db' ->
  exists new, approval <$> Events db' = (approval <$> Events db) ++ new.
Proof.
  intros Hreach.
  induction Hreach as [|w m db' _ [new IH]|w m db' _ [new IH]|uid present db' _ [new IH]].
  - exists []. by rewrite app_nil_r.
  - destruct (events_on_message_status commands w m db') as [new' Hnew].
    exists (new ++ new'). by rewrite Hnew, IH, app_assoc.
  - exists new. by rewrite groups_on_message_events.
  - exists new.
    destruct (remove_from_groups_spec present uid (groups_of_user db' uid) [] db')
      as (_ & _ & H & _).
    unfold on_member_remove. by rewrite H.
Qed.

Lemma no_command_changes_an_approval_witness :
  let db := community false (walk None pending) [] in
  let w := mk_surroundings ten_o_clock (Some "901") [alice] (Some "600") (fun _ => true) true in
  let db1 :=
    (events_on_message ∅ w
       (mk_message false (in_thread alice "event modify name=Stroll")) db).2 in
  let db2 :=
    (events_on_message ∅ w
       (mk_message false
          (in_channel alice "event new name=Picnic date=2031-06-01 time=12:00")) db1).2 in
  Events db1 <> Events db
  /\ length (Events db2) = 2%nat
  /\ exists new, approval <$> Events db2 = (approval <$> Events db) ++ new.
Proof.
  intros db w db1 db2. split; [vm_compute; discriminate|].
  split; [vm_compute; reflexivity|].
  apply (no_command_changes_an_approval ∅ db db2).
  apply reached_event_message, reached_event_message, reached_start.
Defined.
